(** * gitSync.ts: the synchronisation client of All_In_One_Web

    A shallow embedding of [src/utils/gitSync.ts] (class [GitSyncClient]).
    JavaScript strings are sequences of UTF-16 code units, the client's
    private fields and the browser's local storage are an explicit state,
    [throw]/[try]/[catch] is an error monad over that state, and the remote
    repository is a state machine answering the [fetch] calls. *)

From Stdlib Require Import ZArith List Lia Bool.
From Stdlib Require Import String Ascii.
From stdpp Require Import base option list gmap.

Local Open Scope Z_scope.
#[local] Set Warnings "-register-all".

(** ** JavaScript strings *)

(** A JavaScript string is a sequence of 16-bit code units. *)
Abbreviation jsstring := (list Z).

(** String literals of the source, written as Rocq strings. *)
Fixpoint js (s : string) : jsstring :=
  match s with
  | EmptyString => []
  | String a r => Z.of_N (N_of_ascii a) :: js r
  end.

(** A literal that contains double quotes, written with apostrophes. *)
Definition jsq (s : string) : jsstring :=
  List.map (fun u => if u =? 39 then 34 else u) (js s).

Definition code_unit (u : Z) : Prop := 0 <= u < 65536.

(** [\s] of a regular expression, on the characters that matter for
    base64 text and JSON: TAB, LF, VT, FF, CR and SPACE. *)
Definition is_space (u : Z) : bool :=
  (u =? 9) || (u =? 10) || (u =? 11) || (u =? 12) || (u =? 13) || (u =? 32).

(** [s.replace(/\s/g, '')] *)
Definition remove_spaces (s : jsstring) : jsstring :=
  List.filter (fun u => negb (is_space u)) s.

(** [s.trim()] is the empty string exactly when [s] is all white space. *)
Definition trim_is_empty (s : jsstring) : bool := forallb is_space s.

(** [s.includes(t)] *)
Fixpoint starts_with (t s : jsstring) : bool :=
  match t, s with
  | [], _ => true
  | _ :: _, [] => false
  | a :: t', b :: s' => (a =? b) && starts_with t' s'
  end.

Fixpoint includes (s t : jsstring) : bool :=
  starts_with t s ||
  match s with
  | [] => false
  | _ :: s' => includes s' t
  end.

(** ** Base64: [btoa] and [atob] *)

Module Base64.

(** The base64 alphabet: A-Z, a-z, 0-9, + and /. *)
Definition char_of_sextet (n : Z) : Z :=
  if n <? 26 then 65 + n
  else if n <? 52 then 71 + n
  else if n <? 62 then n - 4
  else if n =? 62 then 43
  else 47.

Definition sextet_of_char (c : Z) : option Z :=
  if (65 <=? c) && (c <=? 90) then Some (c - 65)
  else if (97 <=? c) && (c <=? 122) then Some (c - 71)
  else if (48 <=? c) && (c <=? 57) then Some (c + 4)
  else if c =? 43 then Some 62
  else if c =? 47 then Some 63
  else None.

Definition pad : Z := 61. (* '=' *)

Definition sextet (n : Z) : Prop := 0 <= n < 64.
Definition octet (b : Z) : Prop := 0 <= b < 256.

(** Neither padding nor white space *)
Definition plain (c : Z) : Prop := c <> pad /\ is_space c = false.

(** Three octets become four sextets; a final group of one or two
    octets becomes two or three sextets. *)
Fixpoint sextets (l : list Z) : list Z :=
  match l with
  | [] => []
  | [a] => [a / 4; (a mod 4) * 16]
  | [a; b] => [a / 4; (a mod 4) * 16 + b / 16; (b mod 16) * 4]
  | a :: b :: c :: rest =>
      a / 4 :: (a mod 4) * 16 + b / 16 :: (b mod 16) * 4 + c / 64 :: c mod 64
        :: sextets rest
  end.

Definition padding (n : nat) : list Z :=
  match (n mod 4)%nat with
  | 2%nat => [pad; pad]
  | 3%nat => [pad]
  | _ => []
  end.

Definition is_octet (b : Z) : bool := (0 <=? b) && (b <? 256).

(** [btoa(s)]: [None] stands for the InvalidCharacterError raised on a
    code unit above 255. *)
Definition btoa (s : jsstring) : option jsstring :=
  if forallb is_octet s then
    let sx := sextets s in
    Some (List.map char_of_sextet sx ++ padding (length sx))
  else None.

Fixpoint octets (sx : list Z) : list Z :=
  match sx with
  | a :: b :: c :: d :: rest =>
      a * 4 + b / 16 :: (b mod 16) * 16 + c / 4 :: (c mod 4) * 64 + d
        :: octets rest
  | [a; b; c] => [a * 4 + b / 16; (b mod 16) * 16 + c / 4]
  | [a; b] => [a * 4 + b / 16]
  | _ => []
  end.

(** One or two trailing '=' are dropped when the length is a multiple
    of four. *)
Definition strip_padding (s : jsstring) : jsstring :=
  if (length s mod 4 =? 0)%nat then
    match rev s with
    | a :: b :: r =>
        if (a =? pad) && (b =? pad) then rev r
        else if a =? pad then rev (b :: r)
        else s
    | [a] => if a =? pad then [] else s
    | [] => s
    end
  else s.

Fixpoint all_sextets (s : jsstring) : option (list Z) :=
  match s with
  | [] => Some []
  | c :: r =>
      match sextet_of_char c, all_sextets r with
      | Some n, Some ns => Some (n :: ns)
      | _, _ => None
      end
  end.

(** [atob(s)], the forgiving base64 decoder of the HTML standard:
    ASCII white space is removed, padding is stripped, a length of
    [4k+1] or a character outside the alphabet is an error. *)
Definition atob (s : jsstring) : option jsstring :=
  let s1 := strip_padding (remove_spaces s) in
  if (length s1 mod 4 =? 1)%nat then None
  else match all_sextets s1 with
       | Some sx => Some (octets sx)
       | None => None
       end.

End Base64.

(** ** UTF-8 through the URI functions *)

Module Utf8.

(** The UTF-8 octets of a code point. *)
Definition encode_cp (c : Z) : list Z :=
  if c <? 128 then [c]
  else if c <? 2048 then [192 + c / 64; 128 + c mod 64]
  else if c <? 65536 then
    [224 + c / 4096; 128 + (c / 64) mod 64; 128 + c mod 64]
  else
    [240 + c / 262144; 128 + (c / 4096) mod 64; 128 + (c / 64) mod 64;
     128 + c mod 64].

Definition is_high (u : Z) : bool := (55296 <=? u) && (u <=? 56319).
Definition is_low (u : Z) : bool := (56320 <=? u) && (u <=? 57343).

(** [unescape(encodeURIComponent(s))]: the string of the UTF-8 octets of
    [s]. [encodeURIComponent] raises a URIError on a lone surrogate
    ([None]); every octet it escapes as [%XX] is restored by [unescape]. *)
Fixpoint encode (s : jsstring) : option jsstring :=
  match s with
  | [] => Some []
  | u :: r =>
      if negb ((0 <=? u) && (u <? 65536)) then None
      else if is_low u then None
      else if is_high u then
        match r with
        | v :: r' =>
            if is_low v then
              match encode r' with
              | Some bs =>
                  Some (encode_cp ((u - 55296) * 1024 + (v - 56320) + 65536) ++ bs)
              | None => None
              end
            else None
        | [] => None
        end
      else
        match encode r with
        | Some bs => Some (encode_cp u ++ bs)
        | None => None
        end
  end.

Definition is_cont (b : Z) : bool := (128 <=? b) && (b <? 192).

Definition prepend (p : jsstring) (o : option jsstring) : option jsstring :=
  match o with
  | Some t => Some (p ++ t)
  | None => None
  end.

(** The UTF-16 code units of a code point. *)
Definition units_of_cp (c : Z) : list Z :=
  if c <? 65536 then [c]
  else [55296 + (c - 65536) / 1024; 56320 + (c - 65536) mod 1024].

(** [decodeURIComponent(escape(s))]: [s] read as UTF-8 octets. A
    malformed sequence (a stray continuation octet, a truncated or
    overlong form, an encoded surrogate, a value above U+10FFFF) raises
    a URIError ([None]). *)
Fixpoint decode (s : jsstring) : option jsstring :=
  match s with
  | [] => Some []
  | b0 :: r0 =>
      if (0 <=? b0) && (b0 <? 128) then
        match decode r0 with Some t => Some (b0 :: t) | None => None end
      else if (192 <=? b0) && (b0 <? 224) then
        match r0 with
        | b1 :: r1 =>
            let c := (b0 - 192) * 64 + (b1 - 128) in
            if is_cont b1 && (128 <=? c) then
              match decode r1 with Some t => Some (c :: t) | None => None end
            else None
        | _ => None
        end
      else if (224 <=? b0) && (b0 <? 240) then
        match r0 with
        | b1 :: b2 :: r2 =>
            let c := (b0 - 224) * 4096 + (b1 - 128) * 64 + (b2 - 128) in
            if is_cont b1 && is_cont b2 && (2048 <=? c)
               && negb ((55296 <=? c) && (c <=? 57343)) then
              match decode r2 with Some t => Some (c :: t) | None => None end
            else None
        | _ => None
        end
      else if (240 <=? b0) && (b0 <? 248) then
        match r0 with
        | b1 :: b2 :: b3 :: r3 =>
            let c := (b0 - 240) * 262144 + (b1 - 128) * 4096
                     + (b2 - 128) * 64 + (b3 - 128) in
            if is_cont b1 && is_cont b2 && is_cont b3
               && (65536 <=? c) && (c <=? 1114111) then
              match decode r3 with
              | Some t => Some (units_of_cp c ++ t)
              | None => None
              end
            else None
        | _ => None
        end
      else None
  end.

End Utf8.

(** [btoa(unescape(encodeURIComponent(content)))] (createOrUpdateFile,
    createNewFileForGitee) *)
Definition encodeContent (content : jsstring) : option jsstring :=
  match Utf8.encode content with
  | Some bin => Base64.btoa bin
  | None => None
  end.

(** [decodeURIComponent(escape(atob(text.replace(/\s/g, ''))))]
    (getFileContent) *)
Definition decodeContent (text : jsstring) : option jsstring :=
  match Base64.atob (remove_spaces text) with
  | Some bin => Utf8.decode bin
  | None => None
  end.

(** The strings without a lone surrogate: every high surrogate is
    followed by a low one, and no low one stands alone. *)
Fixpoint well_formed (s : jsstring) : bool :=
  match s with
  | [] => true
  | u :: r =>
      (0 <=? u) && (u <? 65536) && negb (Utf8.is_low u)
      && if Utf8.is_high u then
           match r with
           | v :: r' => Utf8.is_low v && well_formed r'
           | [] => false
           end
         else well_formed r
  end.

(** ** JavaScript values *)

(** The values the client handles: what [JSON.parse] returns, plus
    [undefined] for a missing property. Numbers are the integers. *)
Inductive Value : Type :=
| VUndefined
| VNull
| VBool (b : bool)
| VNum (n : Z)
| VStr (s : jsstring)
| VArr (items : list Value)
| VObj (fields : list (jsstring * Value)).

(** [!!v] *)
Definition truthy (v : Value) : bool :=
  match v with
  | VUndefined | VNull => false
  | VBool b => b
  | VNum n => negb (n =? 0)
  | VStr s => match s with [] => false | _ => true end
  | VArr _ | VObj _ => true
  end.

(** [v === s] for a string [s] *)
Definition is_string (v : Value) (s : jsstring) : bool :=
  match v with
  | VStr t => bool_decide (t = s)
  | _ => false
  end.

Definition is_undefined (v : Value) : bool :=
  match v with VUndefined => true | _ => false end.

(** An own property of an object; the last binding of a key wins, as in
    the result of [JSON.parse]. *)
Fixpoint own_property (k : jsstring) (fields : list (jsstring * Value)) : option Value :=
  match fields with
  | [] => None
  | (k', v) :: rest =>
      match own_property k rest with
      | Some x => Some x
      | None => if bool_decide (k' = k) then Some v else None
      end
  end.

(** [obj.k = v]: an existing property keeps its place, a new one is added
    last. *)
Fixpoint assign_property (k : jsstring) (v : Value) (fields : list (jsstring * Value))
  : list (jsstring * Value) :=
  match fields with
  | [] => [(k, v)]
  | (k', v') :: rest =>
      if bool_decide (k' = k) then (k', v) :: rest
      else (k', v') :: assign_property k v rest
  end.

(** [a || b] on strings *)
Definition or_default (a : option jsstring) (b : jsstring) : jsstring :=
  match a with
  | Some (c :: s) => c :: s
  | _ => b
  end.

(** ** Exceptions and the platform *)

Inductive Exn : Type :=
| TypeError
| SyntaxError
| URIError
| InvalidCharacterError
| NetworkError          (* a rejected [fetch] *)
| NotConfigured         (* [new Error('Git sync not configured')] *)
| ModuleError.          (* raised by a data module's own code *)

Inductive Res (A : Type) : Type :=
| Ok (a : A)
| Throw (e : Exn).
Arguments Ok {A} a.
Arguments Throw {A} e.

(** The library functions the client calls: [JSON], crypto-js and [Date]. *)
Class Platform := {
  (** [JSON.stringify(v, null, indent)]; properties whose value is
      [undefined] are left out. *)
  JSON_stringify : nat -> Value -> jsstring;
  (** [JSON.parse(s)]; [None] is the SyntaxError. *)
  JSON_parse : jsstring -> option Value;
  (** [CryptoJS.MD5(s).toString()] *)
  MD5_hex : jsstring -> jsstring;
  (** [CryptoJS.AES.encrypt(text, key).toString()] *)
  AES_encrypt : jsstring -> jsstring -> jsstring;
  (** [CryptoJS.AES.decrypt(blob, key).toString(CryptoJS.enc.Utf8)];
      [None] when it raises. *)
  AES_decrypt : jsstring -> jsstring -> option jsstring;
  (** [new Date(t).toISOString()] and [.toLocaleString('zh-CN')] *)
  toISOString : Z -> jsstring;
  toLocaleString : Z -> jsstring
}.

(** ** Requests and the remote repository *)

Inductive Method : Type := GET | PUT | POST | DELETE.

Definition method_name (m : Method) : jsstring :=
  match m with
  | GET => js "GET"
  | PUT => js "PUT"
  | POST => js "POST"
  | DELETE => js "DELETE"
  end.

Definition is_get (m : Method) : bool :=
  match m with GET => true | _ => false end.

Record Request := mkRequest {
  req_method : Method;
  req_url : jsstring;
  req_authorization : jsstring;
  req_body : option jsstring
}.

(** What the server sends back: a status code and a body. *)
Record Reply := mkReply {
  reply_status : Z;
  reply_text : jsstring
}.

(** The remote end: a state and its reaction to a request. The answer is
    a reply, or [None] when the request fails at transport level, and the
    time in milliseconds the exchange takes. *)
Class Remote := {
  Repo : Type;
  serve : Request -> Repo -> option Reply * Z * Repo
}.

(** A [Response] object. Its body can be read once. *)
Record Response := mkResponse {
  rid : nat;
  status : Z;
  text : jsstring
}.

(** [response.ok] *)
Definition ok (r : Response) : bool := (200 <=? status r) && (status r <? 300).

(** A [Promise<Response>] returned by [fetch]: when it settles and how
    ([None]: rejected). *)
Record Promise := mkPromise {
  settleAt : Z;
  outcome : option Response
}.

Inductive Provider : Type := github | gitee.

#[global] Instance Provider_eq_dec : EqDecision Provider.
Proof. solve_decision. Defined.

Record GitConfig := mkGitConfig {
  provider : Provider;
  token : jsstring;
  owner : jsstring;
  repo : jsstring;
  branch : option jsstring
}.

Abbreviation Storage := (gmap jsstring jsstring).

Record DataModule := mkDataModule {
  name : jsstring;
  localStorageKey : jsstring;
  filename : jsstring;
  (** reads local storage (and the clock) *)
  getData : Z -> Storage -> Res Value;
  setData : Value -> Storage -> Res Storage
}.

Record SyncStatus := mkSyncStatus {
  st_filename : jsstring;
  localHash : jsstring;
  cloudHash : Value;
  needsSync : bool;
  lastSyncTime : Value
}.

Record FileInfo := mkFileInfo {
  file_content : jsstring;
  file_sha : Value
}.

(** What the client does to the outside: the requests handed to [fetch]
    and the writes into the data modules. *)
Inductive Event : Type :=
| EvFetch (r : Request)
| EvSetData (module : jsstring) (v : Value).

(** ** The client's state and its monad *)

Section Client.

Context {platform : Platform} {remote_end : Remote}.

(** The private fields of [GitSyncClient], the browser around it and the
    remote repository. *)
Record World := mkWorld {
  config : option GitConfig;
  localHashCache : gmap jsstring Value;
  requestCache : gmap jsstring Promise;
  (** pending [setTimeout] callbacks of [apiRequest]: due time, key *)
  timers : list (Z * jsstring);
  (** the responses whose body was read *)
  bodyUsed : list nat;
  nextId : nat;
  localStorage : Storage;
  now : Z;
  remote : Repo;
  trace : list Event
}.

Definition set_config (c : option GitConfig) (w : World) : World :=
  mkWorld c (localHashCache w) (requestCache w) (timers w) (bodyUsed w)
    (nextId w) (localStorage w) (now w) (remote w) (trace w).

Definition set_localHashCache (m : gmap jsstring Value) (w : World) : World :=
  mkWorld (config w) m (requestCache w) (timers w) (bodyUsed w)
    (nextId w) (localStorage w) (now w) (remote w) (trace w).

Definition set_requestCache (m : gmap jsstring Promise) (w : World) : World :=
  mkWorld (config w) (localHashCache w) m (timers w) (bodyUsed w)
    (nextId w) (localStorage w) (now w) (remote w) (trace w).

Definition set_timers (t : list (Z * jsstring)) (w : World) : World :=
  mkWorld (config w) (localHashCache w) (requestCache w) t (bodyUsed w)
    (nextId w) (localStorage w) (now w) (remote w) (trace w).

Definition set_bodyUsed (u : list nat) (w : World) : World :=
  mkWorld (config w) (localHashCache w) (requestCache w) (timers w) u
    (nextId w) (localStorage w) (now w) (remote w) (trace w).

Definition set_localStorage (s : Storage) (w : World) : World :=
  mkWorld (config w) (localHashCache w) (requestCache w) (timers w) (bodyUsed w)
    (nextId w) s (now w) (remote w) (trace w).

Definition set_now (t : Z) (w : World) : World :=
  mkWorld (config w) (localHashCache w) (requestCache w) (timers w) (bodyUsed w)
    (nextId w) (localStorage w) t (remote w) (trace w).

Definition log (e : Event) (w : World) : World :=
  mkWorld (config w) (localHashCache w) (requestCache w) (timers w) (bodyUsed w)
    (nextId w) (localStorage w) (now w) (remote w) (trace w ++ [e]).

(** A computation: it reads and changes the world and returns or
    throws. What it did before throwing stays done. *)
Definition M (A : Type) : Type := World -> Res A * World.

Definition ret {A} (a : A) : M A := fun w => (Ok a, w).

Definition throw {A} (e : Exn) : M A := fun w => (Throw e, w).

Definition bind {A B} (m : M A) (f : A -> M B) : M B :=
  fun w =>
    match m w with
    | (Ok a, w') => f a w'
    | (Throw e, w') => (Throw e, w')
    end.

(** [try { m } catch (e) { h e }] *)
Definition try_catch {A} (m : M A) (h : Exn -> M A) : M A :=
  fun w =>
    match m w with
    | (Ok a, w') => (Ok a, w')
    | (Throw e, w') => h e w'
    end.

Definition get : M World := fun w => (Ok w, w).

Definition modify (f : World -> World) : M unit := fun w => (Ok tt, f w).

Definition lift {A} (r : Res A) : M A := fun w => (r, w).

Definition or_throw {A} (e : Exn) (o : option A) : M A :=
  match o with
  | Some a => ret a
  | None => throw e
  end.

End Client.

Notation "'let*' x ':=' m 'in' k" := (bind m (fun x => k))
  (at level 10, x name, m at level 100, k at level 200).

(** ** The client *)

Section Operations.

Context {platform : Platform} {remote_end : Remote}.

(** [private dataModules: DataModule[]], the registry of data domains. *)
Variable dataModules : list DataModule.

Definition STORAGE_KEY : jsstring := js "git-sync-config-encrypted".
Definition SECRET_KEY : jsstring := js "all-in-one-git-sync-secret".
Definition SYNC_PREFIX : jsstring := js "sync-".
Definition CACHE_TIMEOUT : Z := 5000.

(** *** Configuration *)

Definition provider_name (p : Provider) : jsstring :=
  match p with github => js "github" | gitee => js "gitee" end.

Definition value_of_config (c : GitConfig) : Value :=
  VObj ([(js "provider", VStr (provider_name (provider c)));
         (js "token", VStr (token c));
         (js "owner", VStr (owner c));
         (js "repo", VStr (repo c))]
        ++ match branch c with
           | Some b => [(js "branch", VStr b)]
           | None => []
           end).

Definition string_property (k : jsstring) (fields : list (jsstring * Value))
  : option jsstring :=
  match own_property k fields with
  | Some (VStr s) => Some s
  | _ => None
  end.

(** The objects that inhabit the interface [GitConfig]; [JSON.parse]
    is typed [any], a value of another shape has no counterpart here. *)
Definition config_of_value (v : Value) : option GitConfig :=
  match v with
  | VObj fields =>
      match string_property (js "provider") fields,
            string_property (js "token") fields,
            string_property (js "owner") fields,
            string_property (js "repo") fields with
      | Some p, Some t, Some o, Some r =>
          let mk prov :=
            match own_property (js "branch") fields with
            | None | Some VUndefined => Some (mkGitConfig prov t o r None)
            | Some (VStr b) => Some (mkGitConfig prov t o r (Some b))
            | Some _ => None
            end in
          if bool_decide (p = js "github") then mk github
          else if bool_decide (p = js "gitee") then mk gitee
          else None
      | _, _, _, _ => None
      end
  | _ => None
  end.

(** [encryptConfig] *)
Definition encryptConfig (c : GitConfig) : jsstring :=
  AES_encrypt (JSON_stringify 0 (value_of_config c)) SECRET_KEY.

(** [decryptConfig]: any exception gives [null]. *)
Definition decryptConfig (encryptedConfig : jsstring) : option GitConfig :=
  match AES_decrypt encryptedConfig SECRET_KEY with
  | Some decryptedData =>
      match JSON_parse decryptedData with
      | Some v => config_of_value v
      | None => None
      end
  | None => None
  end.

(** [if (!config.branch) config.branch = provider === 'gitee' ? 'master' : 'main'] *)
Definition default_branch (p : Provider) : jsstring :=
  match p with gitee => js "master" | github => js "main" end.

Definition fill_branch (c : GitConfig) : GitConfig :=
  match branch c with
  | Some (u :: b) => c
  | _ => mkGitConfig (provider c) (token c) (owner c) (repo c)
           (Some (default_branch (provider c)))
  end.

(** [saveConfig] *)
Definition saveConfig (c : GitConfig) : M unit :=
  let c := fill_branch c in
  let encrypted := encryptConfig c in
  let* _ := modify (fun w => set_localStorage (<[STORAGE_KEY := encrypted]> (localStorage w)) w) in
  modify (set_config (Some c)).

(** [loadConfig] *)
Definition loadConfig : M (option GitConfig) :=
  let* w := get in
  match localStorage w !! STORAGE_KEY with
  | Some (u :: encrypted) =>
      match decryptConfig (u :: encrypted) with
      | Some c =>
          let c := fill_branch c in
          let* _ := modify (set_config (Some c)) in
          ret (Some c)
      | None => ret None
      end
  | _ => ret None
  end.

(** [clearConfig] *)
Definition clearConfig : M unit :=
  let* _ := modify (fun w => set_localStorage (delete STORAGE_KEY (localStorage w)) w) in
  modify (set_config None).

(** [getApiBase] *)
Definition getApiBase : M jsstring :=
  let* w := get in
  match config w with
  | None => throw NotConfigured
  | Some c =>
      ret match provider c with
          | github => js "https://api.github.com"
          | gitee => js "https://gitee.com/api/v5"
          end
  end.

(** [getRepoPath] *)
Definition getRepoPath : M jsstring :=
  let* w := get in
  match config w with
  | None => throw NotConfigured
  | Some c => ret (js "repos/" ++ owner c ++ js "/" ++ repo c)
  end.

(** [this.config?.branch || d] *)
Definition branch_or (d : jsstring) (w : World) : jsstring :=
  or_default (c ← config w; branch c) d.

Definition provider_is (p : Provider) (w : World) : bool :=
  match config w with
  | Some c => bool_decide (provider c = p)
  | None => false
  end.

(** *** Requests *)

(** Time passes up to [t]; the timers that come due run and delete
    their key from the request cache. *)
Definition run_timers (t : Z) (w : World) : World :=
  let due := List.filter (fun '(d, _) => d <=? t) (timers w) in
  let later := List.filter (fun '(d, _) => negb (d <=? t)) (timers w) in
  set_timers later
    (set_requestCache (fold_left (fun m '(_, k) => delete k m) due (requestCache w)) w).

Definition advance_to (t : Z) : M unit :=
  modify (fun w => let t' := Z.max (now w) t in set_now t' (run_timers t' w)).

(** [fetch(url, {...options, headers})] *)
Definition fetch (r : Request) : M Promise :=
  fun w =>
    let '(reply, latency, repo') := serve r (remote w) in
    let p := mkPromise (now w + latency)
               (match reply with
                | Some a => Some (mkResponse (nextId w) (reply_status a) (reply_text a))
                | None => None
                end) in
    (Ok p,
     mkWorld (config w) (localHashCache w) (requestCache w) (timers w) (bodyUsed w)
       (S (nextId w)) (localStorage w) (now w) repo' (trace w ++ [EvFetch r])).

(** [apiRequest], up to the promise it returns: the cache is looked up
    and filled and the request is handed to [fetch] before the caller is
    suspended. *)
Definition apiRequest_start (endpoint : jsstring) (method : Method)
    (body : option jsstring) : M Promise :=
  let* w := get in
  match config w with
  | None => throw NotConfigured
  | Some c =>
      let* base := getApiBase in
      let url := base ++ js "/" ++ endpoint in
      let cacheKey := method_name method ++ js "-" ++ url in
      match (if is_get method then requestCache w !! cacheKey else None) with
      | Some cached => ret cached
      | None =>
          let* requestPromise :=
            fetch (mkRequest method url (js "token " ++ token c) body) in
          let* _ :=
            if is_get method then
              modify (fun w =>
                set_timers (timers w ++ [(now w + CACHE_TIMEOUT, cacheKey)])
                  (set_requestCache (<[cacheKey := requestPromise]> (requestCache w)) w))
            else ret tt in
          ret requestPromise
      end
  end.

(** [await promise] *)
Definition await (p : Promise) : M Response :=
  let* _ := advance_to (settleAt p) in
  or_throw NetworkError (outcome p).

Definition apiRequest (endpoint : jsstring) (method : Method)
    (body : option jsstring) : M Response :=
  let* p := apiRequest_start endpoint method body in
  await p.

(** Reading a body: a second read of the same response raises a
    TypeError. *)
Definition read_body (r : Response) : M jsstring :=
  let* w := get in
  if bool_decide (rid r ∈ bodyUsed w) then throw TypeError
  else
    let* _ := modify (set_bodyUsed (rid r :: bodyUsed w)) in
    ret (text r).

(** [await response.json()] *)
Definition json (r : Response) : M Value :=
  let* s := read_body r in
  or_throw SyntaxError (JSON_parse s).

(** [v.k]: a TypeError on [undefined] and [null]. *)
Definition getProp (v : Value) (k : jsstring) : M Value :=
  match v with
  | VUndefined | VNull => throw TypeError
  | VObj fields => ret (default VUndefined (own_property k fields))
  | _ => ret VUndefined
  end.

(** [v?.k] *)
Definition getPropOpt (v : Value) (k : jsstring) : M Value :=
  match v with
  | VUndefined | VNull => ret VUndefined
  | _ => getProp v k
  end.

(** *** Content hashes *)

(** [generateDataHash] *)
Definition generateDataHash (data : Value) : jsstring :=
  MD5_hex (JSON_stringify 2 data).

Definition callGetData (module : DataModule) : M Value :=
  let* w := get in
  lift (getData module (now w) (localStorage w)).

(** [module.setData(v)] *)
Definition callSetData (module : DataModule) (v : Value) : M unit :=
  let* _ := modify (log (EvSetData (name module) v)) in
  let* w := get in
  let* s := lift (setData module v (localStorage w)) in
  modify (set_localStorage s).

(** [getLocalDataHash] *)
Definition getLocalDataHash (module : DataModule) : M jsstring :=
  let* data := callGetData module in
  ret (generateDataHash data).

(** [this.localHashCache.set(k, v)] *)
Definition hashCache_set (k : jsstring) (v : Value) : M unit :=
  modify (fun w => set_localHashCache (<[k := v]> (localHashCache w)) w).

(** [this.localHashCache.get(k)] *)
Definition hashCache_get (k : jsstring) (w : World) : Value :=
  default VUndefined (localHashCache w !! k).

(** [hasDataChanged] *)
Definition hasDataChanged (module : DataModule) : M bool :=
  try_catch
    (let* currentHash := getLocalDataHash module in
     let* w := get in
     let cachedHash := hashCache_get (name module) w in
     if negb (truthy cachedHash) then
       let* _ := hashCache_set (name module) (VStr currentHash) in
       ret false
     else if negb (is_string cachedHash currentHash) then
       let* _ := hashCache_set (name module) (VStr currentHash) in
       ret true
     else ret false)
    (fun _ => ret false).

Fixpoint for_each {A} (f : A -> M unit) (l : list A) : M unit :=
  match l with
  | [] => ret tt
  | a :: rest => let* _ := f a in for_each f rest
  end.

Fixpoint map_M {A B} (f : A -> M B) (l : list A) : M (list B) :=
  match l with
  | [] => ret []
  | a :: rest =>
      let* b := f a in
      let* bs := map_M f rest in
      ret (b :: bs)
  end.

(** [initializeHashCache] *)
Definition initializeHashCache : M unit :=
  for_each (fun module =>
              let* h := getLocalDataHash module in
              hashCache_set (name module) (VStr h))
           dataModules.

(** *** Remote files *)

(** [getFileContent] until its request is on the way; an exception so
    far is already the [null] of the [catch]. *)
Definition getFileContent_start (path : jsstring) : M (option Promise) :=
  try_catch
    (let* repoPath := getRepoPath in
     let* w := get in
     let endpoint := repoPath ++ js "/contents/" ++ path ++ js "?ref="
                       ++ branch_or (js "main") w in
     let* p := apiRequest_start endpoint GET None in
     ret (Some p))
    (fun _ => ret None).

(** [data.content.replace(/\s/g, '')], [atob], [escape],
    [decodeURIComponent] *)
Definition decode_property (c : Value) : M jsstring :=
  match c with
  | VStr s =>
      match Base64.atob (remove_spaces s) with
      | Some bin => or_throw URIError (Utf8.decode bin)
      | None => throw InvalidCharacterError
      end
  | _ => throw TypeError
  end.

(** [getFileContent] from the response on *)
Definition getFileContent_finish (started : option Promise) : M (option FileInfo) :=
  match started with
  | None => ret None
  | Some p =>
      try_catch
        (let* response := await p in
         if ok response then
           let* data := json response in
           let* c := getProp data (js "content") in
           if truthy c then
             let* content := decode_property c in
             let* sha := getProp data (js "sha") in
             ret (Some (mkFileInfo content sha))
           else ret None
         else ret None)
        (fun _ => ret None)
  end.

(** [getFileContent] *)
Definition getFileContent (path : jsstring) : M (option FileInfo) :=
  let* started := getFileContent_start path in
  getFileContent_finish started.

(** [existingFile?.sha] *)
Definition sha_of (f : option FileInfo) : Value :=
  match f with
  | Some i => file_sha i
  | None => VUndefined
  end.

(** [btoa(unescape(encodeURIComponent(content)))] *)
Definition encode_content (content : jsstring) : M jsstring :=
  match Utf8.encode content with
  | Some bin => or_throw InvalidCharacterError (Base64.btoa bin)
  | None => throw URIError
  end.

Definition contents_endpoint (path : jsstring) : M jsstring :=
  let* repoPath := getRepoPath in
  ret (repoPath ++ js "/contents/" ++ path).

(** [tryPostCreate] *)
Definition tryPostCreate (path message encodedContent : jsstring) : M bool :=
  try_catch
    (let* w := get in
     let requestData :=
       VObj [(js "message", VStr message);
             (js "content", VStr encodedContent);
             (js "branch", VStr (branch_or (js "master") w))] in
     let* endpoint := contents_endpoint path in
     let* response := apiRequest endpoint POST (Some (JSON_stringify 0 requestData)) in
     if ok response then ret true else ret false)
    (fun _ => ret false).

(** [tryCreateThenUpdate] *)
Definition tryCreateThenUpdate (path message encodedContent : jsstring) : M bool :=
  try_catch
    (let* emptyContent := or_throw InvalidCharacterError (Base64.btoa []) in
     let* w := get in
     let createData :=
       VObj [(js "message", VStr ([21021; 22987; 21270; 25991; 20214; 58; 32] ++ path));
             (js "content", VStr emptyContent);
             (js "branch", VStr (branch_or (js "master") w))] in
     let* endpoint := contents_endpoint path in
     let* createResponse := apiRequest endpoint PUT (Some (JSON_stringify 0 createData)) in
     let* updated :=
       if ok createResponse then
         let* createResult := json createResponse in
         let* c := getProp createResult (js "content") in
         let* sha := getPropOpt c (js "sha") in
         if truthy sha then
           let* w := get in
           let updateData :=
             VObj [(js "message", VStr message);
                   (js "content", VStr encodedContent);
                   (js "sha", sha);
                   (js "branch", VStr (branch_or (js "master") w))] in
           let* updateResponse :=
             apiRequest endpoint PUT (Some (JSON_stringify 0 updateData)) in
           ret (ok updateResponse)
         else ret false
       else ret false in
     ret updated)
    (fun _ => ret false).

(** [tryPutWithEmptySha] *)
Definition tryPutWithEmptySha (path message encodedContent : jsstring) : M bool :=
  try_catch
    (let* w := get in
     let requestData :=
       VObj [(js "message", VStr message);
             (js "content", VStr encodedContent);
             (js "branch", VStr (branch_or (js "master") w));
             (js "sha", VStr [])] in
     let* endpoint := contents_endpoint path in
     let* response := apiRequest endpoint PUT (Some (JSON_stringify 0 requestData)) in
     if ok response then ret true else ret false)
    (fun _ => ret false).

(** [createNewFileForGitee] *)
Definition createNewFileForGitee (path content message : jsstring) : M bool :=
  try_catch
    (let* encodedContent := encode_content content in
     let* postResult := tryPostCreate path message encodedContent in
     if postResult then ret true
     else
       let* emptyCreateResult := tryCreateThenUpdate path message encodedContent in
       if emptyCreateResult then ret true
       else
         let* putEmptyResult := tryPutWithEmptySha path message encodedContent in
         if putEmptyResult then ret true
         else ret false)
    (fun _ => ret false).

(** [sha && sha.trim()] as a condition; [trim] exists on strings only. *)
Definition has_sha (sha : Value) : M bool :=
  if truthy sha then
    match sha with
    | VStr s => ret (negb (trim_is_empty s))
    | _ => throw TypeError
    end
  else ret false.

(** [result.content !== undefined] of a successful write *)
Definition write_acknowledged (response : Response) : M bool :=
  let* result := json response in
  let* c := getProp result (js "content") in
  ret (negb (is_undefined c)).

(** [createOrUpdateFile] *)
Definition createOrUpdateFile (path content message : jsstring) (existingSha : Value)
  : M bool :=
  try_catch
    (let* encodedContent := encode_content content in
     let* sha :=
       if negb (truthy existingSha) then
         let* existingFile := getFileContent path in
         ret (sha_of existingFile)
       else ret existingSha in
     let* w := get in
     if negb (truthy sha) && provider_is gitee w then
       createNewFileForGitee path content message
     else
       let fields :=
         [(js "message", VStr message);
          (js "content", VStr encodedContent);
          (js "branch",
           VStr (branch_or (if provider_is gitee w then js "master" else js "main") w))] in
       let* with_sha := has_sha sha in
       let fields := if with_sha then fields ++ [(js "sha", sha)] else fields in
       let* endpoint := contents_endpoint path in
       let* response :=
         apiRequest endpoint PUT (Some (JSON_stringify 0 (VObj fields))) in
       if ok response then write_acknowledged response
       else
         let* errorText := read_body response in
         let* w := get in
         if provider_is gitee w && includes errorText (js "sha") then
           let* freshFile := getFileContent path in
           match freshFile with
           | Some f =>
               let fields := assign_property (js "sha") (file_sha f) fields in
               let* retryResponse :=
                 apiRequest endpoint PUT (Some (JSON_stringify 0 (VObj fields))) in
               if ok retryResponse then write_acknowledged retryResponse
               else ret false
           | None => ret false
           end
         else ret false)
    (fun _ => ret false).

(** [deleteFile] *)
Definition deleteFile (path message : jsstring) : M bool :=
  try_catch
    (let* fileInfo := getFileContent path in
     match fileInfo with
     | None => ret true
     | Some f =>
         let* endpoint := contents_endpoint path in
         let* w := get in
         let body :=
           VObj [(js "message", VStr message);
                 (js "sha", file_sha f);
                 (js "branch", VStr (branch_or (js "main") w))] in
         let* response := apiRequest endpoint DELETE (Some (JSON_stringify 0 body)) in
         ret (ok response)
     end)
    (fun _ => ret false).

(** *** The sync engine *)

Definition sync_filename (module : DataModule) : jsstring :=
  SYNC_PREFIX ++ filename module.

(** The envelope [{ data, lastSyncTime, hash }] *)
Definition envelope (data : Value) (time : Z) : Value :=
  VObj [(js "data", data);
        (js "lastSyncTime", VStr (toISOString time));
        (js "hash", VStr (generateDataHash data))].

(** [syncModuleToCloud] *)
Definition syncModuleToCloud (module : DataModule) : M bool :=
  try_catch
    (let* data := callGetData module in
     let* w := get in
     let syncData := envelope data (now w) in
     let jsonString := JSON_stringify 2 syncData in
     let* existingFile := getFileContent (sync_filename module) in
     let* w := get in
     let* success :=
       createOrUpdateFile (sync_filename module) jsonString
         ([26356; 26032] ++ name module ++ [25968; 25454; 32; 45; 32]
            ++ toLocaleString (now w))
         (sha_of existingFile) in
     let* _ :=
       if success then hashCache_set (name module) (VStr (generateDataHash data))
       else ret tt in
     ret success)
    (fun _ => ret false).

(** [syncModuleFromCloud] *)
Definition syncModuleFromCloud (module : DataModule) : M bool :=
  try_catch
    (let* fileInfo := getFileContent (sync_filename module) in
     match fileInfo with
     | None => ret false
     | Some f =>
         let* syncData := or_throw SyntaxError (JSON_parse (file_content f)) in
         let* data := getProp syncData (js "data") in
         let* hash := getProp syncData (js "hash") in
         (* a hash that differs from [generateDataHash data] is only
            reported on the console *)
         let* _ := callSetData module data in
         let* _ := hashCache_set (name module) hash in
         ret true
     end)
    (fun _ => ret false).

Definition failed_status (module : DataModule) : SyncStatus :=
  mkSyncStatus (filename module) [] (VStr []) false VUndefined.

(** One check of [checkSyncStatus], from its call to its first
    suspension. *)
Inductive Check : Type :=
| CheckFailed
| CheckWaiting (localHash : jsstring) (started : option Promise).

Definition check_start (module : DataModule) : M Check :=
  try_catch
    (let* localHash := getLocalDataHash module in
     let* started := getFileContent_start (sync_filename module) in
     ret (CheckWaiting localHash started))
    (fun _ => ret CheckFailed).

(** [syncData.hash || ''] *)
Definition or_empty (v : Value) : Value :=
  if truthy v then v else VStr [].

(** The rest of the check, once the response is there. *)
Definition check_finish (module : DataModule) (c : Check) : M SyncStatus :=
  match c with
  | CheckFailed => ret (failed_status module)
  | CheckWaiting localHash started =>
      try_catch
        (let* fileInfo := getFileContent_finish started in
         match fileInfo with
         | Some f =>
             let* syncData := or_throw SyntaxError (JSON_parse (file_content f)) in
             let* hash := getProp syncData (js "hash") in
             let* time := getProp syncData (js "lastSyncTime") in
             let cloudHash := or_empty hash in
             ret (mkSyncStatus (filename module) localHash cloudHash
                    (negb (is_string cloudHash localHash)) time)
         | None =>
             ret (mkSyncStatus (filename module) localHash (VStr [])
                    (negb (is_string (VStr []) localHash)) VUndefined)
         end)
        (fun _ => ret (failed_status module))
  end.

(** An entry of [Promise.allSettled]: a rejected check is replaced by
    the default status of its module. *)
Definition settled (module : DataModule) (check : M SyncStatus) : M SyncStatus :=
  try_catch check (fun _ => ret (failed_status module)).

(** [checkSyncStatus]: all checks are started, in the order of the
    registry, before the first response is awaited. *)
Definition checkSyncStatus : M (list SyncStatus) :=
  let* started :=
    map_M (fun module => let* c := check_start module in ret (module, c))
          dataModules in
  map_M (fun '(module, c) => settled module (check_finish module c)) started.

(** [clearCache] *)
Definition clearCache : M unit :=
  let* _ := modify (set_requestCache ∅) in
  modify (set_localHashCache ∅).

Record SyncResult := mkSyncResult {
  success : bool;
  results : gmap jsstring bool
}.

(** The body of the [for] loop of [autoSync] *)
Fixpoint autoSync_loop (statusList : list SyncStatus) (acc : SyncResult)
  : M SyncResult :=
  match statusList with
  | [] => ret acc
  | status :: rest =>
      match List.find (fun m => bool_decide (filename m = st_filename status))
              dataModules with
      | Some module =>
          if negb (needsSync status) then autoSync_loop rest acc
          else
            let* hasLocalChanges := hasDataChanged module in
            let* r :=
              if hasLocalChanges || negb (truthy (cloudHash status))
              then syncModuleToCloud module
              else syncModuleFromCloud module in
            autoSync_loop rest
              (mkSyncResult (success acc && r) (<[name module := r]> (results acc)))
      | None => autoSync_loop rest acc
      end
  end.

(** [autoSync] *)
Definition autoSync : M SyncResult :=
  let* w := get in
  match config w with
  | None => ret (mkSyncResult false ∅)
  | Some _ =>
      let* _ :=
        if bool_decide (size (localHashCache w) = 0%nat) then initializeHashCache
        else ret tt in
      let* statusList := checkSyncStatus in
      autoSync_loop statusList (mkSyncResult true ∅)
  end.

(** The loop shared by [syncAllToCloud], [syncAllFromCloud] and
    [cleanupCloudFiles] *)
Fixpoint for_modules (f : DataModule -> M bool) (modules : list DataModule)
    (acc : SyncResult) : M SyncResult :=
  match modules with
  | [] => ret acc
  | module :: rest =>
      let* r := f module in
      for_modules f rest
        (mkSyncResult (success acc && r) (<[name module := r]> (results acc)))
  end.

(** [syncAllToCloud] *)
Definition syncAllToCloud : M SyncResult :=
  for_modules syncModuleToCloud dataModules (mkSyncResult true ∅).

(** [syncAllFromCloud] *)
Definition syncAllFromCloud : M SyncResult :=
  for_modules syncModuleFromCloud dataModules (mkSyncResult true ∅).

(** [cleanupCloudFiles] *)
Definition cleanupCloudFiles : M SyncResult :=
  for_modules (fun module =>
                 deleteFile (sync_filename module)
                   ([28165; 29702] ++ name module ++ [21516; 27493; 25991; 20214]))
              dataModules (mkSyncResult true ∅).

(** [initializeSync] *)
Definition initializeSync : M bool :=
  let* w := get in
  let* configured :=
    match config w with
    | Some _ => ret true
    | None =>
        let* c := loadConfig in
        ret (match c with Some _ => true | None => false end)
    end in
  if configured then
    try_catch (let* _ := initializeHashCache in ret true) (fun _ => ret false)
  else ret false.

(** [generateMD5] *)
Definition generateMD5 (data : jsstring) : M jsstring :=
  let* v := or_throw SyntaxError (JSON_parse data) in
  ret (generateDataHash v).

(** [getModuleNames] *)
Definition getModuleNames : list jsstring := List.map name dataModules.

(** [getDataModule] *)
Definition getDataModule (n : jsstring) : option DataModule :=
  List.find (fun module => bool_decide (name module = n)) dataModules.

(** [getProviderName] *)
Definition getProviderName : M jsstring :=
  let* w := get in
  ret (if provider_is github w then js "GitHub" else js "Gitee").

(** [getRepoInfo]; [null] is [VNull] *)
Definition getRepoInfo : M Value :=
  try_catch
    (let* repoPath := getRepoPath in
     let* response := apiRequest repoPath GET None in
     if ok response then json response else ret VNull)
    (fun _ => ret VNull).

(** [checkRepositoryExists] *)
Definition checkRepositoryExists : M bool :=
  let* w := get in
  match config w with
  | None => ret false
  | Some c =>
      try_catch
        (let url := js "repos/" ++ owner c ++ js "/" ++ repo c in
         let* response := apiRequest url GET None in
         ret (ok response))
        (fun _ => ret false)
  end.

(** [data.filter(...)] with a callback that can raise *)
Fixpoint filter_M {A} (f : A -> M bool) (l : list A) : M (list A) :=
  match l with
  | [] => ret []
  | a :: rest =>
      let* keep := f a in
      let* kept := filter_M f rest in
      ret (if keep then a :: kept else kept)
  end.

(** The [GitFile] that [listFiles] makes of a directory entry *)
Definition git_file (item : Value) : M Value :=
  let* n := getProp item (js "name") in
  let* sha := getProp item (js "sha") in
  let* size := getProp item (js "size") in
  let* download_url := getProp item (js "download_url") in
  let* path := getProp item (js "path") in
  ret (VObj [(js "name", n); (js "sha", sha); (js "size", size);
             (js "download_url", download_url); (js "path", path)]).

(** [listFiles] *)
Definition listFiles (path : jsstring) : M (list Value) :=
  try_catch
    (let* endpoint := contents_endpoint path in
     let* response := apiRequest endpoint GET None in
     if ok response then
       let* data := json response in
       match data with
       | VArr items =>
           let* files :=
             filter_M (fun item =>
                         let* type := getProp item (js "type") in
                         ret (is_string type (js "file")))
                      items in
           map_M git_file files
       | _ => ret []
       end
     else ret [])
    (fun _ => ret []).

(** [file.name.startsWith(prefix)] *)
Definition name_starts_with (prefix : jsstring) (file : Value) : M bool :=
  let* n := getProp file (js "name") in
  match n with
  | VStr s => ret (starts_with prefix s)
  | _ => throw TypeError
  end.

(** [getSyncFiles] *)
Definition getSyncFiles : M (list Value) :=
  try_catch
    (let* allFiles := listFiles [] in
     filter_M (name_starts_with SYNC_PREFIX) allFiles)
    (fun _ => ret []).

(** Time passing between two calls of the client. *)
Definition sleep (ms : Z) : M unit :=
  let* w := get in
  advance_to (now w + ms).

End Operations.

(** ** The registry of the source *)

Section Registry.

Context {platform : Platform}.

Definition bindR {A B} (r : Res A) (f : A -> Res B) : Res B :=
  match r with
  | Ok a => f a
  | Throw e => Throw e
  end.

(** [JSON.parse(localStorage.getItem(k) || d)] *)
Definition parse_item (k : jsstring) (d : jsstring) (s : Storage) : Res Value :=
  match JSON_parse (or_default (s !! k) d) with
  | Some v => Ok v
  | None => Throw SyntaxError
  end.

(** [v.k] outside the client's monad *)
Definition prop (v : Value) (k : string) : Res Value :=
  match v with
  | VUndefined | VNull => Throw TypeError
  | VObj fields => Ok (default VUndefined (own_property (js k) fields))
  | _ => Ok VUndefined
  end.

(** [a || b] *)
Definition or_value (a b : Value) : Value := if truthy a then a else b.

(** [localStorage.setItem(k, JSON.stringify(v))]; [setItem] turns the
    [undefined] that [JSON.stringify(undefined)] returns into a string. *)
Definition set_item_json (k : string) (v : Value) (s : Storage) : Storage :=
  <[js k := match v with
            | VUndefined => js "undefined"
            | _ => JSON_stringify 0 v
            end]> s.

Definition tasksModule : DataModule :=
  mkDataModule (js "tasks") (js "tasks-data") (js "tasks.json")
    (fun _ s =>
       bindR (parse_item (js "tasks") (js "[]") s) (fun tasks =>
       bindR (parse_item (js "taskGroups") (js "[]") s) (fun taskGroups =>
       Ok (VObj [(js "tasks", tasks); (js "taskGroups", taskGroups)]))))
    (fun d s =>
       bindR (prop d "tasks") (fun tasks =>
       bindR (prop d "taskGroups") (fun taskGroups =>
       Ok (set_item_json "taskGroups" (or_value taskGroups (VArr []))
             (set_item_json "tasks" (or_value tasks (VArr [])) s))))).

Definition habitsModule : DataModule :=
  mkDataModule (js "habits") (js "habit-data") (js "habits.json")
    (fun t s =>
       bindR (parse_item (js "habit-data")
                (jsq "{'habits':[],'records':[],'dailyNotes':[],'version':'1.0.0','lastUpdated':''}")
                s) (fun data =>
       bindR (prop data "habits") (fun habits =>
       bindR (prop data "records") (fun records =>
       bindR (prop data "dailyNotes") (fun dailyNotes =>
       bindR (prop data "version") (fun version =>
       bindR (prop data "lastUpdated") (fun lastUpdated =>
       Ok (VObj [(js "habits", or_value habits (VArr []));
                 (js "records", or_value records (VArr []));
                 (js "dailyNotes", or_value dailyNotes (VArr []));
                 (js "version", or_value version (VStr (js "1.0.0")));
                 (js "lastUpdated", or_value lastUpdated (VStr (toISOString t)))]))))))))
    (fun d s => Ok (set_item_json "habit-data" d s)).

Definition bookmarksModule : DataModule :=
  mkDataModule (js "bookmarks") (js "bookmarks-data") (js "bookmarks.json")
    (fun _ s =>
       bindR (parse_item (js "bookmarks-data") (jsq "{'bookmarks':[],'groups':[]}") s)
         (fun data =>
       bindR (prop data "bookmarks") (fun bookmarks =>
       bindR (prop data "groups") (fun groups =>
       Ok (VObj [(js "bookmarks", or_value bookmarks (VArr []));
                 (js "groups", or_value groups (VArr []))])))))
    (fun d s => Ok (set_item_json "bookmarks-data" d s)).

Definition calendarEventsModule : DataModule :=
  mkDataModule (js "calendarEvents") (js "calendar-events") (js "calendar-events.json")
    (fun _ s => parse_item (js "calendar-events") (js "[]") s)
    (fun d s => Ok (set_item_json "calendar-events" d s)).

Definition pomodoroModule : DataModule :=
  mkDataModule (js "pomodoro") (js "pomodoro-data") (js "pomodoro.json")
    (fun _ s =>
       bindR (parse_item (js "pomodoro-data") (jsq "{'sessions':[],'settings':{}}") s)
         (fun data =>
       bindR (prop data "sessions") (fun sessions =>
       bindR (prop data "settings") (fun settings =>
       Ok (VObj [(js "sessions", or_value sessions (VArr []));
                 (js "settings", or_value settings (VObj []))])))))
    (fun d s => Ok (set_item_json "pomodoro-data" d s)).

(** [localStorage.getItem(k) || d] as a value *)
Definition item_or (k : string) (d : Value) (s : Storage) : Value :=
  match s !! js k with
  | Some (u :: r) => VStr (u :: r)
  | _ => d
  end.

Definition appSettingsModule : DataModule :=
  mkDataModule (js "appSettings") (js "app-settings") (js "app-settings.json")
    (fun _ s =>
       let autoSync :=
         match s !! js "app-autoSync" with
         | Some autoSyncValue =>
             match JSON_parse autoSyncValue with
             | Some v => v
             | None => VBool true
             end
         | None => VBool true
         end in
       bindR (parse_item (js "app-sidebarCollapsed") (js "false") s) (fun sidebarCollapsed =>
       Ok (VObj [(js "theme", item_or "app-theme" (VStr (js "light")) s);
                 (js "searchEngine", item_or "app-searchEngine" (VStr (js "google")) s);
                 (js "autoSync", autoSync);
                 (js "sidebarCollapsed", sidebarCollapsed);
                 (js "lastSyncTime", item_or "app-lastSyncTime" VNull s)])))
    (fun d s =>
       bindR (prop d "theme") (fun theme =>
       bindR (prop d "searchEngine") (fun searchEngine =>
       bindR (prop d "autoSync") (fun autoSync =>
       bindR (prop d "sidebarCollapsed") (fun sidebarCollapsed =>
       bindR (prop d "lastSyncTime") (fun lastSyncTime =>
       (* [setItem] stores the string form of what it is given *)
       let str v := match v with VStr x => x | _ => JSON_stringify 0 v end in
       let s := <[js "app-theme" := str (or_value theme (VStr (js "light")))]> s in
       let s := <[js "app-searchEngine" :=
                  str (or_value searchEngine (VStr (js "google")))]> s in
       let s := set_item_json "app-autoSync"
                  (if is_undefined autoSync then VBool true else autoSync) s in
       let s := set_item_json "app-sidebarCollapsed"
                  (or_value sidebarCollapsed (VBool false)) s in
       Ok (if truthy lastSyncTime
           then <[js "app-lastSyncTime" := str lastSyncTime]> s
           else s))))))).

(** The initial value of [dataModules] *)
Definition defaultModules : list DataModule :=
  [tasksModule; habitsModule; bookmarksModule; calendarEventsModule;
   pomodoroModule; appSettingsModule].

End Registry.

(** ** A reference platform and a reference repository

    Executable stand-ins for what lies outside the source: a JSON printer
    and parser for integers, strings, arrays and objects, a 32-bit digest
    in the place of MD5, a keyed scrambler in the place of AES, and a
    contents server with revision tokens. They run the client on concrete
    inputs. *)

Module Reference.

Fixpoint digits (fuel : nat) (n : Z) (acc : jsstring) : jsstring :=
  match fuel with
  | O => acc
  | S fuel' =>
      let acc' := (48 + n mod 10) :: acc in
      if n <? 10 then acc' else digits fuel' (n / 10) acc'
  end.

Definition decimal (n : Z) : jsstring :=
  if n <? 0 then 45 :: digits (Z.to_nat (Z.log2 (- n)) + 2) (- n) []
  else digits (Z.to_nat (Z.log2 n) + 2) n [].

Definition hex_digit (d : Z) : Z := if d <? 10 then 48 + d else 87 + d.

Definition hex4 (u : Z) : jsstring :=
  [hex_digit (u / 4096 mod 16); hex_digit (u / 256 mod 16);
   hex_digit (u / 16 mod 16); hex_digit (u mod 16)].

Definition escaped (u : Z) : jsstring := js "\u" ++ hex4 u.

Fixpoint escape_string (s : jsstring) : jsstring :=
  match s with
  | [] => []
  | u :: r =>
      if u =? 34 then js "\" ++ [34] ++ escape_string r
      else if u =? 92 then js "\\" ++ escape_string r
      else if u =? 10 then js "\n" ++ escape_string r
      else if u =? 13 then js "\r" ++ escape_string r
      else if u =? 9 then js "\t" ++ escape_string r
      else if u <? 32 then escaped u ++ escape_string r
      else if Utf8.is_low u then escaped u ++ escape_string r
      else if Utf8.is_high u then
        match r with
        | v :: r' =>
            if Utf8.is_low v then u :: v :: escape_string r'
            else escaped u ++ escape_string r
        | [] => escaped u
        end
      else u :: escape_string r
  end.

(** A character a string literal holds as it is *)
Definition plain_char (u : Z) : bool :=
  (32 <=? u) && (u <? 55296) && negb (u =? 34) && negb (u =? 92).

Definition quote (s : jsstring) : jsstring := [34] ++ escape_string s ++ [34].

Definition newline (indent level : nat) : jsstring :=
  match indent with
  | O => []
  | _ => 10 :: repeat 32 level
  end.

Fixpoint print (indent level : nat) (v : Value) {struct v} : jsstring :=
  match v with
  | VUndefined => []
  | VNull => js "null"
  | VBool true => js "true"
  | VBool false => js "false"
  | VNum n => decimal n
  | VStr s => quote s
  | VArr items =>
      let inner := (level + indent)%nat in
      let item x :=
        match x with
        | VUndefined => js "null"
        | _ => print indent inner x
        end in
      match items with
      | [] => js "[]"
      | x :: rest =>
          js "[" ++ newline indent inner ++ item x
            ++ (fix more (l : list Value) : jsstring :=
                  match l with
                  | [] => []
                  | y :: l' => js "," ++ newline indent inner ++ item y ++ more l'
                  end) rest
            ++ newline indent level ++ js "]"
      end
  | VObj fields =>
      let inner := (level + indent)%nat in
      if forallb (fun kv => is_undefined (snd kv)) fields then js "{}"
      else
        js "{"
          ++ (fix members (first : bool) (l : list (jsstring * Value)) : jsstring :=
                match l with
                | [] => []
                | (k, x) :: l' =>
                    match x with
                    | VUndefined => members first l'
                    | _ =>
                        (if first then [] else js ",") ++ newline indent inner
                          ++ quote k ++ js ":"
                          ++ (match indent with O => [] | _ => js " " end)
                          ++ print indent inner x ++ members false l'
                    end
                end) true fields
          ++ newline indent level ++ js "}"
  end.

Definition stringify (indent : nat) (v : Value) : jsstring := print indent 0 v.

Definition is_json_space (u : Z) : bool :=
  (u =? 9) || (u =? 10) || (u =? 13) || (u =? 32).

Fixpoint skip (s : jsstring) : jsstring :=
  match s with
  | u :: r => if is_json_space u then skip r else s
  | [] => []
  end.

Definition hex_value (c : Z) : option Z :=
  if (48 <=? c) && (c <=? 57) then Some (c - 48)
  else if (97 <=? c) && (c <=? 102) then Some (c - 87)
  else if (65 <=? c) && (c <=? 70) then Some (c - 55)
  else None.

Definition simple_escape (e : Z) : option Z :=
  if e =? 34 then Some 34
  else if e =? 92 then Some 92
  else if e =? 47 then Some 47
  else if e =? 98 then Some 8
  else if e =? 102 then Some 12
  else if e =? 110 then Some 10
  else if e =? 114 then Some 13
  else if e =? 116 then Some 9
  else None.

(** The characters of a string literal after its opening quote. *)
Fixpoint parse_string (s : jsstring) : option (jsstring * jsstring) :=
  match s with
  | [] => None
  | c :: r =>
      if c =? 34 then Some ([], r)
      else if c =? 92 then
        match r with
        | e :: r1 =>
            if e =? 117 then
              match r1 with
              | h1 :: h2 :: h3 :: h4 :: r2 =>
                  match hex_value h1, hex_value h2, hex_value h3, hex_value h4,
                        parse_string r2 with
                  | Some a, Some b, Some c', Some d, Some (t, rest) =>
                      Some (a * 4096 + b * 256 + c' * 16 + d :: t, rest)
                  | _, _, _, _, _ => None
                  end
              | _ => None
              end
            else
              match simple_escape e, parse_string r1 with
              | Some u, Some (t, rest) => Some (u :: t, rest)
              | _, _ => None
              end
        | [] => None
        end
      else if c <? 32 then None
      else
        match parse_string r with
        | Some (t, rest) => Some (c :: t, rest)
        | None => None
        end
  end.

Definition is_digit (c : Z) : bool := (48 <=? c) && (c <=? 57).

Fixpoint parse_digits (s : jsstring) (acc : Z) : Z * jsstring :=
  match s with
  | c :: r => if is_digit c then parse_digits r (acc * 10 + (c - 48)) else (acc, s)
  | [] => (acc, [])
  end.

(** An integer literal; a fraction or an exponent is not read. *)
Definition parse_number (s : jsstring) : option (Value * jsstring) :=
  let '(negative, s1) :=
    match s with
    | c :: r => if c =? 45 then (true, r) else (false, s)
    | [] => (false, s)
    end in
  match s1 with
  | c :: _ =>
      if is_digit c then
        let '(n, rest) := parse_digits s1 0 in
        match rest with
        | d :: _ =>
            if (d =? 46) || (d =? 101) || (d =? 69) then None
            else Some (VNum (if negative then - n else n), rest)
        | [] => Some (VNum (if negative then - n else n), rest)
        end
      else None
  | [] => None
  end.

Fixpoint parse_value (fuel : nat) (s : jsstring) : option (Value * jsstring) :=
  match fuel with
  | O => None
  | S fuel' =>
      match skip s with
      | [] => None
      | c :: r =>
          if starts_with (js "null") (c :: r) then Some (VNull, drop 4 (c :: r))
          else if starts_with (js "true") (c :: r) then Some (VBool true, drop 4 (c :: r))
          else if starts_with (js "false") (c :: r) then Some (VBool false, drop 5 (c :: r))
          else if c =? 34 then
            match parse_string r with
            | Some (str, rest) => Some (VStr str, rest)
            | None => None
            end
          else if c =? 91 then
            match skip r with
            | d :: r' =>
                if d =? 93 then Some (VArr [], r')
                else match parse_items fuel' r with
                     | Some (l, rest) => Some (VArr l, rest)
                     | None => None
                     end
            | [] => None
            end
          else if c =? 123 then
            match skip r with
            | d :: r' =>
                if d =? 125 then Some (VObj [], r')
                else match parse_members fuel' r with
                     | Some (l, rest) => Some (VObj l, rest)
                     | None => None
                     end
            | [] => None
            end
          else parse_number (c :: r)
      end
  end
with parse_items (fuel : nat) (s : jsstring) : option (list Value * jsstring) :=
  match fuel with
  | O => None
  | S fuel' =>
      match parse_value fuel' s with
      | Some (v, r) =>
          match skip r with
          | c :: r' =>
              if c =? 44 then
                match parse_items fuel' r' with
                | Some (vs, rest) => Some (v :: vs, rest)
                | None => None
                end
              else if c =? 93 then Some ([v], r')
              else None
          | [] => None
          end
      | None => None
      end
  end
with parse_members (fuel : nat) (s : jsstring)
  : option (list (jsstring * Value) * jsstring) :=
  match fuel with
  | O => None
  | S fuel' =>
      match skip s with
      | q :: r =>
          if q =? 34 then
            match parse_string r with
            | Some (k, r1) =>
                match skip r1 with
                | c :: r2 =>
                    if c =? 58 then
                      match parse_value fuel' r2 with
                      | Some (v, r3) =>
                          match skip r3 with
                          | d :: r4 =>
                              if d =? 44 then
                                match parse_members fuel' r4 with
                                | Some (ms, rest) => Some ((k, v) :: ms, rest)
                                | None => None
                                end
                              else if d =? 125 then Some ([(k, v)], r4)
                              else None
                          | [] => None
                          end
                      | None => None
                      end
                    else None
                | [] => None
                end
            | None => None
            end
          else None
      | [] => None
      end
  end.

Definition parse (s : jsstring) : option Value :=
  match parse_value (2 * length s + 2) s with
  | Some (v, rest) =>
      match skip rest with
      | [] => Some v
      | _ => None
      end
  | None => None
  end.

(** A 32-bit FNV-1a digest over the code units, as eight hex digits. *)
Definition digest (s : jsstring) : jsstring :=
  let h := fold_left (fun h u => (Z.lxor h u * 16777619) mod 4294967296) s 2166136261 in
  hex4 (h / 65536) ++ hex4 (h mod 65536).

(** The scrambler: a marker, then every code unit xor-ed with the
    length of the key. *)
Definition marker : jsstring := js "U2FsdGVkX1".

Definition scramble (text key : jsstring) : jsstring :=
  marker ++ List.map (fun u => Z.lxor u (Z.of_nat (length key))) text.

Definition unscramble (blob key : jsstring) : option jsstring :=
  if starts_with marker blob then
    Some (List.map (fun u => Z.lxor u (Z.of_nat (length key)))
            (drop (length marker) blob))
  else None.

(** The repository: the files by resource URL, each with its base64
    content and its revision, the last revision handed out, whether the
    server can be reached, the longest content it accepts and the time
    an exchange takes. *)
Record Store := mkStore {
  files : gmap jsstring (jsstring * Z);
  revision : Z;
  online : bool;
  limit : Z;
  latency : Z
}.

(** The revision token of a revision *)
Definition token_of (rev : Z) : jsstring := js "r" ++ decimal rev.

(** The URL without its query *)
Fixpoint resource (url : jsstring) : jsstring :=
  match url with
  | [] => []
  | u :: r => if u =? 63 then [] else u :: resource r
  end.

(** Base64 text in lines of sixty characters *)
Fixpoint wrap (n : nat) (s : jsstring) : jsstring :=
  match s with
  | [] => []
  | u :: r =>
      match n with
      | O => 10 :: u :: wrap 59 r
      | S n' => u :: wrap n' r
      end
  end.

Definition answer (code : Z) (v : Value) : option Reply :=
  Some (mkReply code (stringify 0 v)).

Definition refuse (code : Z) (reason : string) : option Reply :=
  answer code (VObj [(js "message", VStr (js reason))]).

Definition with_files (f : gmap jsstring (jsstring * Z)) (rev : Z) (st : Store) : Store :=
  mkStore f rev (online st) (limit st) (latency st).

Definition written (rev : Z) : Value :=
  VObj [(js "content", VObj [(js "sha", VStr (token_of rev))]);
        (js "commit", VObj [])].

Definition react (r : Request) (st : Store) : option Reply * Store :=
  let file := resource (req_url r) in
  let body := default VUndefined (b ← req_body r; parse b) in
  let field k := match body with
                 | VObj fields => default VUndefined (own_property k fields)
                 | _ => VUndefined
                 end in
  match req_method r with
  | GET =>
      match files st !! file with
      | Some (c, rev) =>
          (answer 200 (VObj [(js "content", VStr (wrap 60 c));
                             (js "sha", VStr (token_of rev))]), st)
      | None => (refuse 404 "Not Found", st)
      end
  | PUT =>
      match field (js "content") with
      | VStr c =>
          if limit st <? Z.of_nat (length c) then (refuse 413 "content too large", st)
          else
            match files st !! file with
            | Some (_, rev) =>
                if is_string (field (js "sha")) (token_of rev) then
                  (answer 200 (written (revision st + 1)),
                   with_files (<[file := (c, revision st + 1)]> (files st))
                     (revision st + 1) st)
                else (refuse 409 "sha does not match", st)
            | None =>
                if truthy (field (js "sha")) then (refuse 409 "sha does not match", st)
                else
                  (answer 201 (written (revision st + 1)),
                   with_files (<[file := (c, revision st + 1)]> (files st))
                     (revision st + 1) st)
            end
      | _ => (refuse 400 "content is missing", st)
      end
  | POST =>
      match field (js "content") with
      | VStr c =>
          if limit st <? Z.of_nat (length c) then (refuse 413 "content too large", st)
          else
            match files st !! file with
            | Some _ => (refuse 400 "file already exists", st)
            | None =>
                (answer 201 (written (revision st + 1)),
                 with_files (<[file := (c, revision st + 1)]> (files st))
                   (revision st + 1) st)
            end
      | _ => (refuse 400 "content is missing", st)
      end
  | DELETE =>
      match files st !! file with
      | Some (_, rev) =>
          if is_string (field (js "sha")) (token_of rev) then
            (answer 200 (VObj [(js "commit", VObj [])]),
             with_files (delete file (files st)) (revision st) st)
          else (refuse 409 "sha does not match", st)
      | None => (refuse 404 "Not Found", st)
      end
  end.

Definition store_serve (r : Request) (st : Store) : option Reply * Z * Store :=
  if online st then
    let '(reply, st') := react r st in (reply, latency st, st')
  else (None, latency st, st).

#[export] Instance repository : Remote := {
  Repo := Store;
  serve := store_serve
}.

(** The same repository behind a token without write permission:
    every write is turned down. *)
Definition read_only : Remote := {|
  Repo := Store;
  serve := fun r st =>
             match req_method r with
             | GET => store_serve r st
             | _ => (refuse 403 "write access denied", latency st, st)
             end
|}.

#[export] Instance platform : Platform := {
  JSON_stringify := stringify;
  JSON_parse := parse;
  MD5_hex := digest;
  AES_encrypt := scramble;
  AES_decrypt := unscramble;
  toISOString := fun t => js "T" ++ decimal t ++ js "Z";
  toLocaleString := fun t => decimal t
}.

(** A client that was just created, in front of a repository. *)
Definition fresh {remote_end : Remote} (storage : Storage) (time : Z) (st : Repo)
  : World :=
  mkWorld None ∅ ∅ [] [] 0 storage time st [].

Definition empty_store : Store := mkStore ∅ 0 true 1000000 40.

Definition github_config : GitConfig :=
  mkGitConfig github (js "t0ken") (js "me") (js "notes") None.

Definition gitee_config : GitConfig :=
  mkGitConfig gitee (js "t0ken") (js "me") (js "notes") None.

(** Runs a computation and keeps the world. *)
Definition after {remote_end : Remote} {A} (m : M A) (w : World) : World :=
  snd (m w).

Definition result {remote_end : Remote} {A} (m : M A) (w : World) : Res A :=
  fst (m w).

End Reference.

(** ** Reasoning about computations *)

Ltac cmp :=
  repeat match goal with
         | |- context [?a <=? ?b] => destruct (Z.leb_spec a b); try lia
         | |- context [?a <? ?b] => destruct (Z.ltb_spec a b); try lia
         end; cbn [andb negb orb].

Section Logic.

Context {platform : Platform} {remote_end : Remote}.

(** [wp m Q w]: run from [w], the computation [m] ends in a result and
    a world that satisfy [Q]. *)
Definition wp {A} (m : M A) (Q : Res A -> World -> Prop) (w : World) : Prop :=
  Q (fst (m w)) (snd (m w)).

Definition branch_nonempty (c : GitConfig) : Prop :=
  exists u b, branch c = Some (u :: b).

(** [!config.branch] *)
Definition branch_omitted (c : GitConfig) : Prop :=
  branch c = None \/ branch c = Some [].

(** The identifiers of the responses the client holds are below the
    next identifier: a response that [fetch] creates is new. *)
Definition wf (w : World) : Prop :=
  (forall i, i ∈ bodyUsed w -> (i < nextId w)%nat)
  /\ (forall k p r, requestCache w !! k = Some p -> outcome p = Some r ->
                    (rid r < nextId w)%nat).

Definition api_base (c : GitConfig) : jsstring :=
  match provider c with
  | github => js "https://api.github.com"
  | gitee => js "https://gitee.com/api/v5"
  end.

(** The request [apiRequest] builds. *)
Definition request_of (c : GitConfig) (endpoint : jsstring) (method : Method)
    (body : option jsstring) : Request :=
  mkRequest method (api_base c ++ js "/" ++ endpoint) (js "token " ++ token c) body.

(** The reply of the repository and its next state. *)
Definition exchange (r : Request) (st : Repo) : option Reply * Repo :=
  (fst (fst (serve r st)), snd (serve r st)).

(** The response object made of a reply. *)
Definition received (id : nat) (reply : option Reply) : Res Response :=
  match reply with
  | Some a => Ok (mkResponse id (reply_status a) (reply_text a))
  | None => Throw NetworkError
  end.

Definition is_read (e : Event) : Prop :=
  match e with
  | EvFetch r => req_method r = GET
  | EvSetData _ _ => False
  end.

(** A repository that a read leaves as it is. *)
Definition quiet_reads : Prop :=
  forall r st, req_method r = GET -> snd (serve r st) = st.

(** What a sequence of reads may do to the world. *)
Record reads (w w' : World) : Prop := mkReads {
  reads_config : config w' = config w;
  reads_hashes : localHashCache w' = localHashCache w;
  reads_storage : localStorage w' = localStorage w;
  reads_wf : wf w -> wf w';
  reads_ids : (nextId w <= nextId w')%nat;
  reads_trace : exists evs, trace w' = trace w ++ evs /\ Forall is_read evs;
  reads_remote : quiet_reads -> remote w' = remote w
}.

(** What one write request does to the world. *)
Record written (req : Request) (w w' : World) : Prop := mkWritten {
  written_config : config w' = config w;
  written_hashes : localHashCache w' = localHashCache w;
  written_storage : localStorage w' = localStorage w;
  written_used : bodyUsed w' = bodyUsed w;
  written_id : nextId w' = S (nextId w);
  written_wf : wf w -> wf w';
  written_trace : trace w' = trace w ++ [EvFetch req];
  written_remote : remote w' = snd (exchange req (remote w))
}.

(** [v.k] where it does not raise *)
Definition property (v : Value) (k : jsstring) : Value :=
  match v with
  | VObj fields => default VUndefined (own_property k fields)
  | _ => VUndefined
  end.

(** What [getFileContent] makes of the body of a successful response. *)
Definition file_of_body (body : jsstring) : option FileInfo :=
  match JSON_parse body with
  | Some VUndefined | Some VNull | None => None
  | Some data =>
      match property data (js "content") with
      | VStr (u :: t) =>
          match Base64.atob (remove_spaces (u :: t)) with
          | Some bin =>
              match Utf8.decode bin with
              | Some content => Some (mkFileInfo content (property data (js "sha")))
              | None => None
              end
          | None => None
          end
      | _ => None
      end
  end.

(** The request by which [getFileContent] reads a file. *)
Definition read_request (c : GitConfig) (path : jsstring) : Request :=
  request_of c
    (js "repos/" ++ owner c ++ js "/" ++ repo c ++ js "/contents/" ++ path
       ++ js "?ref=" ++ or_default (branch c) (js "main"))
    GET None.

Definition cache_key (r : Request) : jsstring :=
  method_name (req_method r) ++ js "-" ++ req_url r.

(** The promise [fetch] returns for a request sent from [w], and the
    world once a read request is on its way. *)
Definition promise_of (w : World) (r : Request) : Promise :=
  mkPromise (now w + snd (fst (serve r (remote w))))
    (match fst (fst (serve r (remote w))) with
     | Some a => Some (mkResponse (nextId w) (reply_status a) (reply_text a))
     | None => None
     end).

Definition launched (w : World) (r : Request) : World :=
  mkWorld (config w) (localHashCache w)
    (<[cache_key r := promise_of w r]> (requestCache w))
    (timers w ++ [(now w + CACHE_TIMEOUT, cache_key r)])
    (bodyUsed w) (S (nextId w)) (localStorage w) (now w)
    (snd (serve r (remote w))) (trace w ++ [EvFetch r]).

(** The world once the promise [p] is awaited. *)
Definition awaited (p : Promise) (w : World) : World :=
  snd (advance_to (settleAt p) w).

(** [response.ok] of a reply *)
Definition accepted (a : Reply) : bool :=
  (200 <=? reply_status a) && (reply_status a <? 300).

(** A repository that stays as it is when it turns a request down or
    cannot be reached. *)
Definition rejections_change_nothing : Prop :=
  forall r st,
    match fst (fst (serve r st)) with
    | Some a => accepted a = false -> snd (serve r st) = st
    | None => snd (serve r st) = st
    end.

(** A repository that answers a write it accepts with a record of the
    file ([content]). *)
Definition writes_acknowledged : Prop :=
  forall r st a,
    req_method r = PUT -> fst (fst (serve r st)) = Some a -> accepted a = true ->
    exists v, JSON_parse (reply_text a) = Some v
              /\ is_undefined (property v (js "content")) = false.

(** The lookup of [path] finds a revision token. *)
Definition token_found (path : jsstring) (w : World) : bool :=
  match fst (getFileContent path w) with
  | Ok f => truthy (sha_of f)
  | Throw _ => false
  end.

(** The invariant of a push that has changed nothing so far. *)
Definition untouched (R0 : Repo) (c : GitConfig) (w : World) : Prop :=
  remote w = R0 /\ wf w /\ config w = Some c.

(** [response.ok] of what came back, a failed exchange included *)
Definition answered_ok (a : option Reply) : bool :=
  match a with
  | Some y => accepted y
  | None => false
  end.

Definition contents_path (c : GitConfig) (path : jsstring) : jsstring :=
  js "repos/" ++ owner c ++ js "/" ++ repo c ++ js "/contents/" ++ path.

Definition write_request (c : GitConfig) (method : Method) (path : jsstring)
    (fields : list (jsstring * Value)) : Request :=
  request_of c (contents_path c path) method (Some (JSON_stringify 0 (VObj fields))).

(** The requests of the creation strategies of provider B, in the
    words of the design: (a) a direct creation call, (b) an empty
    placeholder, then an update that carries the token the placeholder
    was given, (c) a write with an explicitly empty token. *)
Definition creation_request (c : GitConfig) (path message e : jsstring) : Request :=
  write_request c POST path
    [(js "message", VStr message); (js "content", VStr e);
     (js "branch", VStr (or_default (branch c) (js "master")))].

Definition placeholder_request (c : GitConfig) (path : jsstring) : Request :=
  write_request c PUT path
    [(js "message", VStr ([21021; 22987; 21270; 25991; 20214; 58; 32] ++ path));
     (js "content", VStr []);
     (js "branch", VStr (or_default (branch c) (js "master")))].

Definition update_request (c : GitConfig) (path message e : jsstring) (t : Value)
  : Request :=
  write_request c PUT path
    [(js "message", VStr message); (js "content", VStr e); (js "sha", t);
     (js "branch", VStr (or_default (branch c) (js "master")))].

Definition empty_token_request (c : GitConfig) (path message e : jsstring) : Request :=
  write_request c PUT path
    [(js "message", VStr message); (js "content", VStr e);
     (js "branch", VStr (or_default (branch c) (js "master")));
     (js "sha", VStr [])].

(** The token an accepted placeholder was given, [undefined] if none. *)
Definition placeholder_token (a : option Reply) : Value :=
  match a with
  | Some y =>
      if accepted y then
        match JSON_parse (reply_text y) with
        | Some v => property (property v (js "content")) (js "sha")
        | None => VUndefined
        end
      else VUndefined
  | None => VUndefined
  end.

(** Strategy (b): outcome, requests sent, repository afterwards. *)
Definition placeholder_then_update (c : GitConfig) (path message e : jsstring)
    (st : Repo) : bool * list Request * Repo :=
  let placeholder := placeholder_request c path in
  let '(a, st1) := exchange placeholder st in
  let t := placeholder_token a in
  if truthy t then
    let update := update_request c path message e t in
    let '(a', st2) := exchange update st1 in
    (answered_ok a', [placeholder; update], st2)
  else (false, [placeholder], st1).

(** The fallback chain: the strategies in their order, stopping at the
    first that succeeds; the outcome, the requests sent and the
    repository afterwards. *)
Definition fallback_chain (c : GitConfig) (path message e : jsstring) (st : Repo)
  : bool * list Request * Repo :=
  let post := creation_request c path message e in
  let '(a, st1) := exchange post st in
  if answered_ok a then (true, [post], st1)
  else
    let '(b, sent_b, st2) := placeholder_then_update c path message e st1 in
    if b then (true, post :: sent_b, st2)
    else
      let put := empty_token_request c path message e in
      let '(a', st3) := exchange put st2 in
      (answered_ok a', post :: sent_b ++ [put], st3).

(** What [createOrUpdateFile] reports for the answer to a write:
    accepted, and with a [content] in the record. *)
Definition acknowledged (a : option Reply) : bool :=
  match a with
  | Some y =>
      accepted y &&
      match JSON_parse (reply_text y) with
      | Some v => negb (is_undefined (property v (js "content")))
      | None => false
      end
  | None => false
  end.

(** The conflict signal of the retry: provider B, a reply that is not
    a success, and ['sha'] in its text. *)
Definition retry_signal (c : GitConfig) (a : option Reply) : bool :=
  match a with
  | Some y =>
      negb (accepted y) && bool_decide (provider c = gitee)
      && includes (reply_text y) (js "sha")
  | None => false
  end.

(** The fields of the write: the token goes in when it is a string
    that is not blank; a token that is no string ends the write with a
    TypeError ([None]). *)
Definition write_fields (c : GitConfig) (message e : jsstring) (sha : Value)
  : option (list (jsstring * Value)) :=
  let fields :=
    [(js "message", VStr message); (js "content", VStr e);
     (js "branch",
      VStr (or_default (branch c)
              (match provider c with gitee => js "master" | github => js "main" end)))] in
  if truthy sha then
    match sha with
    | VStr s => Some (if trim_is_empty s then fields else fields ++ [(js "sha", sha)])
    | _ => None
    end
  else Some fields.

Definition is_write (e : Event) : bool :=
  match e with
  | EvFetch r => negb (is_get (req_method r))
  | EvSetData _ _ => false
  end.

(** The number of write requests in a trace *)
Definition writes (t : list Event) : nat := length (List.filter is_write t).

(** A raised exception counts as the [false] of the [catch]. *)
Definition collapse (P : bool -> World -> Prop) (r : Res bool) (w : World) : Prop :=
  P (match r with Ok b => b | Throw _ => false end) w.

(** A repository that cannot be reached: every exchange fails. *)
Definition unreachable : Prop := forall r st, fst (fst (serve r st)) = None.

(** No answer is held in the request cache. *)
Definition all_rejected (w : World) : Prop :=
  forall k p, requestCache w !! k = Some p -> outcome p = None.

(** The status of a module that was never synced: its local hash
    against an empty remote hash. *)
Definition never_synced (module : DataModule) (h : jsstring) : SyncStatus :=
  mkSyncStatus (filename module) h (VStr []) (negb (bool_decide (h = []))) VUndefined.

(** The entry of [module] in the status list computed from [w]. *)
Definition entry_of (w : World) (module : DataModule) (s : SyncStatus) : Prop :=
  st_filename s = filename module
  /\ match getData module (now w) (localStorage w) with
     | Throw _ => s = failed_status module
     | Ok d =>
         s = failed_status module
         \/ (localHash s = generateDataHash d
             /\ needsSync s = negb (is_string (cloudHash s) (generateDataHash d))
             /\ (cloudHash s = VStr [] \/ truthy (cloudHash s) = true))
     end
  /\ (unreachable -> all_rejected w ->
      match getData module (now w) (localStorage w) with
      | Throw _ => True
      | Ok d => s = never_synced module (generateDataHash d)
      end).

(** A write request whose body has [e] as its [content]. *)
Definition carries (e : jsstring) (r : Request) : Prop :=
  is_get (req_method r) = false
  /\ exists fields,
       req_body r = Some (JSON_stringify 0 (VObj fields))
       /\ own_property (js "content") fields = Some (VStr e).

(** A successful reply whose record has [e] as its [content], white
    space apart. *)
Definition returns_content (reply : Reply) (e : jsstring) : Prop :=
  accepted reply = true
  /\ exists data spaced,
       JSON_parse (reply_text reply) = Some data
       /\ property data (js "content") = VStr spaced
       /\ remove_spaces spaced = e.

(** [w'] is a later world of the same client in front of the same
    repository, in which a read of [path] is not answered from the
    request cache. *)
Definition fresh_read (c : GitConfig) (path : jsstring) (w w' : World) : Prop :=
  remote w' = remote w /\ config w' = Some c /\ wf w'
  /\ requestCache w' !! cache_key (read_request c path) = None.

(** What the first phase keeps: the clock, the local storage, and a
    cache without answers if the repository cannot be reached. *)
Definition started_from (w w' : World) : Prop :=
  now w' = now w /\ localStorage w' = localStorage w
  /\ (unreachable -> all_rejected w -> all_rejected w').

Definition start_of (w : World) (module : DataModule) (mc : DataModule * Check) : Prop :=
  fst mc = module
  /\ match getData module (now w) (localStorage w) with
     | Throw _ => snd mc = CheckFailed
     | Ok d =>
         exists o, snd mc = CheckWaiting (generateDataHash d) o
                   /\ (unreachable -> all_rejected w ->
                       forall p, o = Some p -> outcome p = None)
     end.

Definition finish_of (mc : DataModule * Check) (s : SyncStatus) : Prop :=
  st_filename s = filename (fst mc)
  /\ match snd mc with
     | CheckFailed => s = failed_status (fst mc)
     | CheckWaiting h o =>
         (s = failed_status (fst mc)
          \/ (localHash s = h /\ needsSync s = negb (is_string (cloudHash s) h)
              /\ (cloudHash s = VStr [] \/ truthy (cloudHash s) = true)))
         /\ ((forall p, o = Some p -> outcome p = None) ->
             s = never_synced (fst mc) h)
     end.

(** The client sent [reqs], nothing else reached the outside, and the
    repository is [st]. *)
Record sent (reqs : list Request) (st : Repo) (w w' : World) : Prop := mkSent {
  sent_config : config w' = config w;
  sent_hashes : localHashCache w' = localHashCache w;
  sent_storage : localStorage w' = localStorage w;
  sent_wf : wf w -> wf w';
  sent_trace : trace w' = trace w ++ List.map EvFetch reqs;
  sent_remote : remote w' = st
}.

(** A computation that never raises. *)
Definition returns {A} (m : M A) : Prop :=
  forall w, exists a w', m w = (Ok a, w').

(** The data of [module] can be read in [w]. *)
Definition readable (w : World) (module : DataModule) : Prop :=
  exists d, getData module (now w) (localStorage w) = Ok d.

(** The client's own state is the same in [w'] as in [w]. *)
Definition same_local (w w' : World) : Prop :=
  config w' = config w /\ localHashCache w' = localHashCache w
  /\ localStorage w' = localStorage w.

(** A computation that leaves the client's own state as it is. *)
Definition keeps {A} (m : M A) : Prop :=
  forall w, same_local w (snd (m w)).

(** A computation that sends nothing but reads, and calls no
    [setData]. *)
Definition only_reads {A} (m : M A) : Prop :=
  forall w, exists evs, trace (snd (m w)) = trace w ++ evs /\ Forall is_read evs.

(** The request of [getRepoInfo] and [checkRepositoryExists] *)
Definition repo_request (c : GitConfig) : Request :=
  request_of c (js "repos/" ++ owner c ++ js "/" ++ repo c) GET None.

(** The timer of a cache entry is still to come, or the entry is
    gone. *)
Definition expiring (k : jsstring) (d : Z) (w : World) : Prop :=
  (d, k) ∈ timers w \/ requestCache w !! k = None.

(** The JSON text of [v] is not empty and gives [v] back. *)
Definition json_stable (v : Value) : Prop :=
  JSON_stringify 0 v <> [] /\ JSON_parse (JSON_stringify 0 v) = Some v.

(** A value whose properties can be read. *)
Definition is_record (v : Value) : bool :=
  match v with
  | VUndefined | VNull => false
  | _ => true
  end.

(** The files of a directory listing, as [listFiles] returns them:
    the entries whose [type] is ['file'], each cut down to five
    properties; nothing when the listing is no array, or has an entry
    that is [null]. *)
Definition is_file_entry (item : Value) : bool :=
  is_string (property item (js "type")) (js "file").

Definition file_entry (item : Value) : Value :=
  VObj [(js "name", property item (js "name"));
        (js "sha", property item (js "sha"));
        (js "size", property item (js "size"));
        (js "download_url", property item (js "download_url"));
        (js "path", property item (js "path"))].

Definition directory (body : jsstring) : list Value :=
  match JSON_parse body with
  | Some (VArr items) =>
      if forallb is_record items
      then List.map file_entry (List.filter is_file_entry items)
      else []
  | _ => []
  end.

(** The request of [listFiles] *)
Definition list_request (c : GitConfig) (path : jsstring) : Request :=
  request_of c (contents_path c path) GET None.

(** What the result of a batch says about the modules [l]: it has an
    entry under the name of each, and no other; all entries are [true]
    when [success] is, and the other way round when the names differ. *)
Definition reports (l : list DataModule) (r : SyncResult) : Prop :=
  (forall k, is_Some (results r !! k) <-> k ∈ List.map name l)
  /\ (success r = true -> forall k b, results r !! k = Some b -> b = true)
  /\ (NoDup (List.map name l) ->
      (forall k b, results r !! k = Some b -> b = true) -> success r = true).

End Logic.

(** ** The direction policy of [autoSync], in the words of the design *)

Section Policy.

Context {platform : Platform} {remote_end : Remote}.
Variable dataModules : list DataModule.

Inductive Direction : Type := Push | Pull.

(** Push when the local data changed since its baseline or the remote
    has no recorded hash, otherwise pull. *)
Definition direction (localChanged : bool) (remoteHash : Value) : Direction :=
  if localChanged then Push
  else if truthy remoteHash then Pull
  else Push.

Definition module_of (status : SyncStatus) : option DataModule :=
  List.find (fun m => bool_decide (filename m = st_filename status)) dataModules.

Definition record (acc : SyncResult) (module : DataModule) (r : bool) : SyncResult :=
  mkSyncResult (success acc && r) (<[name module := r]> (results acc)).

(** One module that needs a sync is synced in its direction. *)
Definition sync_one (status : SyncStatus) (acc : SyncResult) : M SyncResult :=
  match module_of status with
  | None => ret acc
  | Some module =>
      let* localChanged := hasDataChanged module in
      let* r :=
        match direction localChanged (cloudHash status) with
        | Push => syncModuleToCloud module
        | Pull => syncModuleFromCloud module
        end in
      ret (record acc module r)
  end.

Fixpoint sync_each (statusList : list SyncStatus) (acc : SyncResult) : M SyncResult :=
  match statusList with
  | [] => ret acc
  | status :: rest =>
      let* acc' := sync_one status acc in
      sync_each rest acc'
  end.

(** The baselines are seeded on the first call, the status is
    computed, and every module whose status needs a sync is synced. *)
Definition autoSync_policy : M SyncResult :=
  let* w := get in
  match config w with
  | None => ret (mkSyncResult false ∅)
  | Some _ =>
      let* _ :=
        if bool_decide (localHashCache w = ∅) then initializeHashCache dataModules
        else ret tt in
      let* statusList := checkSyncStatus dataModules in
      sync_each (List.filter needsSync statusList) (mkSyncResult true ∅)
  end.

End Policy.

(** ** Scenarios *)

Module Scenario.
Import Reference.

(** The bookmarks of the user, with a title in Chinese and an emoji. *)
Definition bookmarks_text : jsstring :=
  jsq "{'bookmarks':[{'title':'" ++ [20320; 22909; 32; 55357; 56832]
    ++ jsq "'}],'groups':[]}".

Definition storage : Storage := <[js "bookmarks-data" := bookmarks_text]> ∅.

(** A client with a saved configuration in front of a repository. *)
Definition configured {remote_end : Remote} (c : GitConfig) (st : Repo) : World :=
  after (saveConfig c) (fresh storage 1000 st).

Definition sync_path : jsstring := sync_filename bookmarksModule.

(** The value the bookmarks module holds. *)
Definition bookmarks_value : Value :=
  match getData bookmarksModule 1000 storage with
  | Ok d => d
  | Throw _ => VNull
  end.

(** The base64 text of the bookmarks. *)
Definition bookmarks_encoded : jsstring := default [] (encodeContent bookmarks_text).

(** What a push of the bookmarks puts into its file, and its base64
    text. *)
Definition bookmarks_envelope : Value := envelope bookmarks_value 1000.

Definition envelope_encoded : jsstring :=
  default [] (encodeContent (JSON_stringify 2 bookmarks_envelope)).

(** Whether a trace has a call of [setData]. *)
Definition calls_setData (t : list Event) : bool :=
  existsb (fun e => match e with
                    | EvSetData _ _ => true
                    | EvFetch _ => false
                    end) t.

(** A repository that accepts nothing longer than ten characters. *)
Definition tight_store : Store := mkStore ∅ 0 true 10 40.

(** A repository that cannot be reached. *)
Definition offline_store : Store := mkStore ∅ 0 false 1000000 40.

(** A repository in which the file of the bookmarks exists and is
    empty, as a placeholder leaves it. *)
Definition placeholder_store : Store :=
  mkStore (<[api_base gitee_config ++ js "/" ++ contents_path gitee_config sync_path
             := ([], 1)]> ∅) 1 true 1000000 40.

(** A repository in which the file of the bookmarks holds [{}]. *)
Definition stocked_store : Store :=
  mkStore (<[api_base gitee_config ++ js "/" ++ contents_path gitee_config sync_path
             := (js "e30=", 1)]> ∅) 1 true 1000000 40.

(** A repository in which the file of the bookmarks holds an envelope
    whose hash is not the hash of its data. *)
Definition forged_text : jsstring :=
  jsq "{'data':{'bookmarks':[],'groups':[]},'hash':'bogus'}".

Definition forged_store : Store :=
  mkStore (<[api_base gitee_config ++ js "/" ++ contents_path gitee_config sync_path
             := (default [] (encodeContent forged_text), 1)]> ∅) 1 true 1000000 40.

(** A client whose stored bookmarks are no JSON text. *)
Definition broken_storage : Storage := <[js "bookmarks-data" := js "not json"]> ∅.

Definition broken : World :=
  after (saveConfig github_config) (fresh broken_storage 1000 empty_store).

(** The saved configurations with their branch filled in *)
Definition github_saved : GitConfig := fill_branch github_config.
Definition gitee_saved : GitConfig := fill_branch gitee_config.

(** The world after a push to an empty repository on github, and the
    same world five seconds later. *)
Definition pushed : World :=
  after (syncModuleToCloud bookmarksModule) (configured github_config empty_store).

Definition pushed_later : World := after (sleep 5000) pushed.

Definition reply_or_nothing (a : option Reply) : Reply :=
  match a with
  | Some y => y
  | None => mkReply 0 []
  end.

Definition methods (t : list Event) : list Method :=
  omap (fun e => match e with
                 | EvFetch r => Some (req_method r)
                 | EvSetData _ _ => None
                 end) t.

End Scenario.
(** * Properties *)

(** ** The content encoding *)

Module Base64Facts.
Import Base64.


Lemma char_of_sextet_inv n : sextet n -> sextet_of_char (char_of_sextet n) = Some n.
Proof.
  unfold sextet, sextet_of_char, char_of_sextet. intros Hn.
  repeat match goal with
         | |- context [?a <? ?b] => destruct (Z.ltb_spec a b)
         | |- context [?a <=? ?b] => destruct (Z.leb_spec a b)
         | |- context [?a =? ?b] => destruct (Z.eqb_spec a b)
         end; simpl; try lia; f_equal; lia.
Qed.

Lemma char_of_sextet_plain n :
  sextet n -> char_of_sextet n <> pad /\ is_space (char_of_sextet n) = false.
Proof.
  unfold sextet, char_of_sextet, pad, is_space. intros Hn.
  repeat match goal with
         | |- context [?a <? ?b] => destruct (Z.ltb_spec a b)
         | |- context [?a =? ?b] => destruct (Z.eqb_spec a b)
         end; simpl; split; try lia; reflexivity.
Qed.

Lemma list_ind3 {A} (P : list A -> Prop) :
  P [] -> (forall a, P [a]) -> (forall a b, P [a; b]) ->
  (forall a b c l, P l -> P (a :: b :: c :: l)) ->
  forall l, P l.
Proof.
  intros H0 H1 H2 H3.
  fix IH 1. intros [|a [|b [|c l]]]; [apply H0 | apply H1 | apply H2 | apply H3, IH].
Qed.

Lemma sextets_range l : Forall octet l -> Forall sextet (sextets l).
Proof.
  induction l as [|a|a b|a b c l IH] using list_ind3; intros H; simpl.
  - constructor.
  - inversion_clear H. unfold octet, sextet in *.
    repeat constructor; Z.div_mod_to_equations; lia.
  - inversion_clear H as [|? ? Ha H']. inversion_clear H'. unfold octet, sextet in *.
    repeat constructor; Z.div_mod_to_equations; lia.
  - inversion_clear H as [|? ? Ha H']. inversion_clear H' as [|? ? Hb H''].
    inversion_clear H'' as [|? ? Hc Hl]. unfold octet, sextet in *.
    repeat (constructor; [Z.div_mod_to_equations; lia|]). auto.
Qed.

Lemma octets_sextets l : Forall octet l -> octets (sextets l) = l.
Proof.
  induction l as [|a|a b|a b c l IH] using list_ind3; intros H.
  - reflexivity.
  - inversion_clear H. unfold octet in *. cbn [sextets octets].
    f_equal. Z.div_mod_to_equations; lia.
  - inversion_clear H as [|? ? Ha H']. inversion_clear H'. unfold octet in *.
    cbn [sextets octets].
    f_equal; [|f_equal]; Z.div_mod_to_equations; lia.
  - inversion_clear H as [|? ? Ha H']. inversion_clear H' as [|? ? Hb H''].
    inversion_clear H'' as [|? ? Hc Hl]. unfold octet in *.
    cbn [sextets octets]. rewrite IH by assumption.
    f_equal; [|f_equal; [|f_equal]]; Z.div_mod_to_equations; lia.
Qed.

Lemma all_sextets_chars sx :
  Forall sextet sx -> all_sextets (List.map char_of_sextet sx) = Some sx.
Proof.
  induction 1 as [|n sx Hn _ IH]; simpl; [reflexivity|].
  now rewrite char_of_sextet_inv, IH.
Qed.

Lemma sextets_length l :
  exists k, (length (sextets l) = 4 * k \/ length (sextets l) = 4 * k + 2
             \/ length (sextets l) = 4 * k + 3)%nat.
Proof.
  induction l as [|a|a b|a b c l [k IH]] using list_ind3.
  - exists 0%nat. simpl. lia.
  - exists 0%nat. simpl. lia.
  - exists 0%nat. simpl. lia.
  - exists (S k). cbn [sextets length]. lia.
Qed.

Lemma mod4 k j : (j < 4 -> (4 * k + j) mod 4 = j)%nat.
Proof.
  intros Hj. rewrite Nat.add_comm, Nat.mul_comm, Nat.Div0.mod_add.
  now apply Nat.mod_small.
Qed.


Lemma chars_plain sx : Forall sextet sx -> Forall plain (List.map char_of_sextet sx).
Proof.
  induction 1; simpl; constructor; [now apply char_of_sextet_plain | assumption].
Qed.

Lemma remove_spaces_plain cs : Forall plain cs -> remove_spaces cs = cs.
Proof.
  induction 1 as [|c cs [_ Hc] _ IH]; simpl; [reflexivity|].
  unfold remove_spaces in *. simpl. now rewrite Hc, IH.
Qed.

Lemma remove_spaces_app a b : remove_spaces (a ++ b) = remove_spaces a ++ remove_spaces b.
Proof. unfold remove_spaces. apply List.filter_app. Qed.

Lemma remove_spaces_padding n : remove_spaces (padding n) = padding n.
Proof. unfold padding. now destruct (n mod 4)%nat as [|[|[|[|?]]]]. Qed.

Lemma strip_padding_chars cs :
  Forall plain cs ->
  (exists k, length cs = 4 * k \/ length cs = 4 * k + 2 \/ length cs = 4 * k + 3)%nat ->
  strip_padding (cs ++ padding (length cs)) = cs
  /\ (length cs mod 4 =? 1)%nat = false.
Proof.
  intros Hcs [k Hlen].
  assert (Hrev : Forall plain (rev cs)) by now apply Forall_rev.
  unfold strip_padding, padding.
  destruct Hlen as [Hlen | [Hlen | Hlen]]; rewrite Hlen.
  - replace (4 * k)%nat with (4 * k + 0)%nat by lia. rewrite (mod4 k 0) by lia.
    rewrite app_nil_r, Hlen.
    replace (4 * k)%nat with (4 * k + 0)%nat by lia. rewrite (mod4 k 0) by lia.
    split; [|reflexivity]. simpl.
    destruct (rev cs) as [|a [|b r]]; [reflexivity| |].
    + inversion_clear Hrev as [|? ? [Ha _] _].
      now destruct (Z.eqb_spec a pad).
    + inversion_clear Hrev as [|? ? [Ha _] _].
      now destruct (Z.eqb_spec a pad).
  - rewrite (mod4 k 2) by lia. split; [|reflexivity].
    rewrite length_app, Hlen. simpl length.
    replace (4 * k + 2 + 2)%nat with (4 * (S k) + 0)%nat by lia.
    rewrite (mod4 (S k) 0) by lia. simpl.
    rewrite rev_app_distr. simpl. now rewrite rev_involutive.
  - rewrite (mod4 k 3) by lia. split; [|reflexivity].
    rewrite length_app, Hlen. simpl length.
    replace (4 * k + 3 + 1)%nat with (4 * (S k) + 0)%nat by lia.
    rewrite (mod4 (S k) 0) by lia. simpl.
    rewrite rev_app_distr. simpl.
    destruct (rev cs) as [|b r] eqn:E.
    + apply (f_equal (@length Z)) in E. rewrite length_rev in E. simpl in E. lia.
    + inversion_clear Hrev as [|? ? [Hb _] _].
      destruct (Z.eqb_spec b pad); [contradiction|].
      change (rev r ++ [b]) with (rev (b :: r)).
      rewrite <- E. now rewrite rev_involutive.
Qed.

Lemma forallb_is_octet l : forallb is_octet l = true -> Forall octet l.
Proof.
  rewrite forallb_forall, List.Forall_forall. intros H b Hb.
  specialize (H b Hb). unfold is_octet, octet in *. lia.
Qed.

(** What [btoa] writes, [atob] reads back, also after white space was
    put between the characters. *)
Lemma atob_btoa bin text spaced :
  btoa bin = Some text -> remove_spaces spaced = text -> atob spaced = Some bin.
Proof.
  unfold btoa. destruct (forallb is_octet bin) eqn:Hoct; [|discriminate].
  intros [= <-] Hsp. apply forallb_is_octet in Hoct.
  pose proof (sextets_range _ Hoct) as Hsx.
  pose proof (chars_plain _ Hsx) as Hplain.
  unfold atob. rewrite Hsp.
  destruct (strip_padding_chars (List.map char_of_sextet (sextets bin)) Hplain) as [Hstrip H1].
  { rewrite length_map. apply sextets_length. }
  rewrite length_map in Hstrip.
  rewrite Hstrip, H1, all_sextets_chars by assumption.
  now rewrite octets_sextets.
Qed.
End Base64Facts.

Module Utf8Facts.
Import Utf8.

Lemma decode_cons b0 r0 :
  decode (b0 :: r0) =
    if (0 <=? b0) && (b0 <? 128) then
      match decode r0 with Some t => Some (b0 :: t) | None => None end
    else if (192 <=? b0) && (b0 <? 224) then
      match r0 with
      | b1 :: r1 =>
          let c := (b0 - 192) * 64 + (b1 - 128) in
          if is_cont b1 && (128 <=? c) then
            match decode r1 with Some t => Some (c :: t) | None => None end
          else None
      | _ => None
      end
    else if (224 <=? b0) && (b0 <? 240) then
      match r0 with
      | b1 :: b2 :: r2 =>
          let c := (b0 - 224) * 4096 + (b1 - 128) * 64 + (b2 - 128) in
          if is_cont b1 && is_cont b2 && (2048 <=? c)
             && negb ((55296 <=? c) && (c <=? 57343)) then
            match decode r2 with Some t => Some (c :: t) | None => None end
          else None
      | _ => None
      end
    else if (240 <=? b0) && (b0 <? 248) then
      match r0 with
      | b1 :: b2 :: b3 :: r3 =>
          let c := (b0 - 240) * 262144 + (b1 - 128) * 4096
                   + (b2 - 128) * 64 + (b3 - 128) in
          if is_cont b1 && is_cont b2 && is_cont b3
             && (65536 <=? c) && (c <=? 1114111) then
            match decode r3 with
            | Some t => Some (units_of_cp c ++ t)
            | None => None
            end
          else None
      | _ => None
      end
    else None.
Proof. reflexivity. Qed.

(** A code point that is no surrogate is read back from its octets. *)
Lemma decode_encode_cp c r :
  0 <= c <= 1114111 -> ~ (55296 <= c <= 57343) ->
  decode (encode_cp c ++ r) = prepend (units_of_cp c) (decode r).
Proof.
  intros Hc Hs. unfold encode_cp, units_of_cp.
  destruct (Z.ltb_spec c 128); [|destruct (Z.ltb_spec c 2048); [|destruct (Z.ltb_spec c 65536)]].
  - cbn [app]. rewrite decode_cons. cmp.
    destruct (Z.ltb_spec c 65536); [|lia]. now destruct (decode r).
  - cbn [app].
    remember (192 + c / 64) as b0 eqn:E0. remember (128 + c mod 64) as b1 eqn:E1.
    assert (192 <= b0 < 224) by (subst; Z.div_mod_to_equations; lia).
    assert (128 <= b1 < 192) by (subst; Z.div_mod_to_equations; lia).
    assert (Hv : (b0 - 192) * 64 + (b1 - 128) = c) by (subst; Z.div_mod_to_equations; lia).
    rewrite decode_cons. unfold is_cont. cbv zeta. rewrite Hv. cmp.
    destruct (Z.ltb_spec c 65536); [|lia]. now destruct (decode r).
  - cbn [app].
    remember (224 + c / 4096) as b0 eqn:E0.
    remember (128 + (c / 64) mod 64) as b1 eqn:E1.
    remember (128 + c mod 64) as b2 eqn:E2.
    assert (224 <= b0 < 240) by (subst; Z.div_mod_to_equations; lia).
    assert (128 <= b1 < 192) by (subst; Z.div_mod_to_equations; lia).
    assert (128 <= b2 < 192) by (subst; Z.div_mod_to_equations; lia).
    assert (Hv : (b0 - 224) * 4096 + (b1 - 128) * 64 + (b2 - 128) = c)
      by (subst; Z.div_mod_to_equations; lia).
    rewrite decode_cons. unfold is_cont. cbv zeta. rewrite Hv. cmp; now destruct (decode r).
  - cbn [app].
    remember (240 + c / 262144) as b0 eqn:E0.
    remember (128 + (c / 4096) mod 64) as b1 eqn:E1.
    remember (128 + (c / 64) mod 64) as b2 eqn:E2.
    remember (128 + c mod 64) as b3 eqn:E3.
    assert (240 <= b0 < 248) by (subst; Z.div_mod_to_equations; lia).
    assert (128 <= b1 < 192) by (subst; Z.div_mod_to_equations; lia).
    assert (128 <= b2 < 192) by (subst; Z.div_mod_to_equations; lia).
    assert (128 <= b3 < 192) by (subst; Z.div_mod_to_equations; lia).
    assert (Hv : (b0 - 240) * 262144 + (b1 - 128) * 4096 + (b2 - 128) * 64 + (b3 - 128) = c)
      by (subst; Z.div_mod_to_equations; lia).
    rewrite decode_cons. unfold is_cont. cbv zeta. rewrite Hv. cmp; unfold units_of_cp.
    destruct (Z.ltb_spec c 65536); [lia|]. now destruct (decode r).
Qed.

Lemma decode_encode_upto n :
  forall s bin, (length s <= n)%nat -> encode s = Some bin -> decode bin = Some s.
Proof.
  induction n as [|n IH]; intros [|u r] bin Hlen; simpl in Hlen; try lia.
  - now intros [= <-].
  - now intros [= <-].
  - cbn [encode]. unfold is_low, is_high.
    destruct (Z.leb_spec 0 u); [|discriminate].
    destruct (Z.ltb_spec u 65536); [|discriminate]. cbn [andb negb].
    destruct (Z.leb_spec 56320 u); cbn [andb].
    + destruct (Z.leb_spec u 57343); [discriminate|]. cbn [andb].
      destruct (Z.leb_spec 55296 u); [|lia]. destruct (Z.leb_spec u 56319); [lia|].
      cbn [andb].
      destruct (encode r) as [bs|] eqn:Er; [|discriminate]. intros [= <-].
      rewrite decode_encode_cp by lia.
      rewrite (IH r bs) by (auto; lia). unfold units_of_cp, prepend.
      destruct (Z.ltb_spec u 65536); [|lia]. reflexivity.
    + destruct (Z.leb_spec 55296 u); cbn [andb].
      * destruct (Z.leb_spec u 56319); [|lia].
        destruct r as [|v r']; [discriminate|].
        destruct (Z.leb_spec 56320 v); [|discriminate]. cbn [andb].
        destruct (Z.leb_spec v 57343); [|discriminate].
        destruct (encode r') as [bs|] eqn:Er; [|discriminate]. intros [= <-].
        rewrite decode_encode_cp by lia.
        rewrite (IH r' bs) by (auto; simpl in Hlen; lia).
        unfold units_of_cp, prepend.
        destruct (Z.ltb_spec ((u - 55296) * 1024 + (v - 56320) + 65536) 65536); [lia|].
        cbn [app]. do 3 f_equal; Z.div_mod_to_equations; lia.
      * destruct (encode r) as [bs|] eqn:Er; [|discriminate]. intros [= <-].
        rewrite decode_encode_cp by lia.
        rewrite (IH r bs) by (auto; lia). unfold units_of_cp, prepend.
        destruct (Z.ltb_spec u 65536); [|lia]. reflexivity.
Qed.

(** [decodeURIComponent(escape(_))] undoes
    [unescape(encodeURIComponent(_))]. *)
Lemma decode_encode s bin : encode s = Some bin -> decode bin = Some s.
Proof. apply (decode_encode_upto (length s)). lia. Qed.

Lemma encode_cp_octets c :
  0 <= c <= 1114111 -> Forall (fun b => 0 <= b < 256) (encode_cp c).
Proof.
  intros Hc. unfold encode_cp.
  destruct (Z.ltb_spec c 128); [|destruct (Z.ltb_spec c 2048); [|destruct (Z.ltb_spec c 65536)]];
    repeat (constructor; [Z.div_mod_to_equations; lia|]); constructor.
Qed.
End Utf8Facts.

(** ** Reasoning about computations *)

Section Logic.

Context {platform : Platform} {remote_end : Remote}.

Lemma wp_intro {A} (m : M A) Q w :
  (forall r w', m w = (r, w') -> Q r w') -> wp m Q w.
Proof. intros H. unfold wp. apply H. now destruct (m w). Qed.

Lemma wp_elim {A} (m : M A) Q w r w' : wp m Q w -> m w = (r, w') -> Q r w'.
Proof. unfold wp. intros H E. now rewrite E in H. Qed.

Lemma wp_mono {A} (m : M A) (Q Q' : Res A -> World -> Prop) w :
  wp m Q w -> (forall r w', Q r w' -> Q' r w') -> wp m Q' w.
Proof. unfold wp. auto. Qed.

Lemma wp_ret {A} (a : A) Q w : Q (Ok a) w -> wp (ret a) Q w.
Proof. auto. Qed.

Lemma wp_throw {A} e (Q : Res A -> World -> Prop) w : Q (Throw e) w -> wp (throw e) Q w.
Proof. auto. Qed.

Lemma wp_get Q w : Q (Ok w) w -> wp get Q w.
Proof. auto. Qed.

Lemma wp_modify f Q w : Q (Ok tt) (f w) -> wp (modify f) Q w.
Proof. auto. Qed.

Lemma wp_lift {A} (r : Res A) Q w : Q r w -> wp (lift r) Q w.
Proof. auto. Qed.

Lemma wp_bind {A B} (m : M A) (f : A -> M B) Q w :
  wp m (fun r w' => match r with
                    | Ok a => wp (f a) Q w'
                    | Throw e => Q (Throw e) w'
                    end) w ->
  wp (bind m f) Q w.
Proof. unfold wp, bind. now destruct (m w) as [[a|e] w']. Qed.

Lemma wp_try_catch {A} (m : M A) (h : Exn -> M A) Q w :
  wp m (fun r w' => match r with
                    | Ok a => Q (Ok a) w'
                    | Throw e => wp (h e) Q w'
                    end) w ->
  wp (try_catch m h) Q w.
Proof. unfold wp, try_catch. now destruct (m w) as [[a|e] w']. Qed.

Lemma wp_or_throw {A} e (o : option A) Q w :
  match o with Some a => Q (Ok a) w | None => Q (Throw e) w end ->
  wp (or_throw e o) Q w.
Proof. now destruct o. Qed.

Lemma returns_try_catch {A} (m : M A) (a : A) :
  returns (try_catch m (fun _ => ret a)).
Proof.
  intros w. unfold try_catch. destruct (m w) as [[x|e] w']; eauto.
Qed.

Lemma returns_bind {A B} (m : M A) (f : A -> M B) :
  returns m -> (forall a, returns (f a)) -> returns (bind m f).
Proof.
  intros Hm Hf w. unfold bind. destruct (Hm w) as (a & w' & ->). apply Hf.
Qed.

Lemma returns_ret {A} (a : A) : returns (ret a).
Proof. intros w. unfold ret. eauto. Qed.

Lemma returns_map_M {A B} (f : A -> M B) l :
  (forall a, returns (f a)) -> returns (map_M f l).
Proof.
  intros Hf. induction l as [|a l IH]; simpl.
  - apply returns_ret.
  - apply returns_bind; [apply Hf|]. intros b.
    apply returns_bind; [apply IH|]. intros bs. apply returns_ret.
Qed.

Lemma returns_for_modules f l acc :
  (forall m, returns (f m)) -> returns (for_modules f l acc).
Proof.
  intros Hf. revert acc. induction l as [|m l IH]; intros acc; simpl.
  - apply returns_ret.
  - apply returns_bind; [apply Hf|]. intros r. apply IH.
Qed.

End Logic.

(** ** Configuration, change detection and the propagation of errors *)

Section Policies.

Context {platform : Platform} {remote_end : Remote}.
Variable dataModules : list DataModule.

Lemma fill_branch_nonempty c : branch_nonempty (fill_branch c).
Proof.
  unfold fill_branch, branch_nonempty.
  destruct (branch c) as [[|u b]|] eqn:E; simpl; eauto.
  - destruct (provider c); compute; eauto.
  - destruct (provider c); compute; eauto.
Qed.

Lemma fill_branch_default c :
  branch_omitted c ->
  branch (fill_branch c) = Some (match provider c with
                                 | github => js "main"
                                 | gitee => js "master"
                                 end).
Proof.
  unfold branch_omitted, fill_branch. intros [-> | ->]; simpl; now destruct (provider c).
Qed.

Lemma fill_branch_keeps c : branch_nonempty c -> fill_branch c = c.
Proof. unfold branch_nonempty, fill_branch. now intros (u & b & ->). Qed.


Lemma callGetData_eq module w :
  callGetData module w = (getData module (now w) (localStorage w), w).
Proof. reflexivity. Qed.

Lemma hasDataChanged_eq module w d :
  getData module (now w) (localStorage w) = Ok d ->
  hasDataChanged module w =
    let h := generateDataHash d in
    let cached := hashCache_get (name module) w in
    if negb (truthy cached) then
      (Ok false, set_localHashCache (<[name module := VStr h]> (localHashCache w)) w)
    else if negb (is_string cached h) then
      (Ok true, set_localHashCache (<[name module := VStr h]> (localHashCache w)) w)
    else (Ok false, w).
Proof.
  intros Hd. unfold hasDataChanged, try_catch, getLocalDataHash, bind.
  rewrite callGetData_eq, Hd. cbn [ret get].
  destruct (negb (truthy (hashCache_get (name module) w))); [reflexivity|].
  now destruct (negb (is_string (hashCache_get (name module) w) (generateDataHash d))).
Qed.

Lemma hasDataChanged_throw module w e :
  getData module (now w) (localStorage w) = Throw e ->
  hasDataChanged module w = (Ok false, w).
Proof.
  intros Hd. unfold hasDataChanged, try_catch, getLocalDataHash, bind.
  now rewrite callGetData_eq, Hd.
Qed.

Lemma hasDataChanged_reads module w :
  now (snd (hasDataChanged module w)) = now w /\
  localStorage (snd (hasDataChanged module w)) = localStorage w.
Proof.
  destruct (getData module (now w) (localStorage w)) as [d|e] eqn:Hd.
  - rewrite (hasDataChanged_eq _ _ _ Hd). cbv zeta.
    destruct (negb (truthy _)); [now split|].
    destruct (negb (is_string _ _)); now split.
  - now rewrite (hasDataChanged_throw _ _ _ Hd).
Qed.

Lemma is_string_refl s : is_string (VStr s) s = true.
Proof. unfold is_string. now rewrite bool_decide_eq_true. Qed.

Lemma is_string_differs s t : s <> t -> is_string (VStr s) t = false.
Proof. unfold is_string. intros H. now rewrite bool_decide_eq_false. Qed.

Lemma is_string_eq v s : is_string v s = true -> v = VStr s.
Proof.
  destruct v; try discriminate. unfold is_string.
  intros H. apply bool_decide_eq_true in H. now subst.
Qed.

Lemma after_observation module w d :
  getData module (now w) (localStorage w) = Ok d ->
  hashCache_get (name module) (snd (hasDataChanged module w))
  = VStr (generateDataHash d).
Proof.
  intros Hd. rewrite (hasDataChanged_eq _ _ _ Hd). cbv zeta.
  destruct (negb (truthy _)) eqn:T.
  - unfold hashCache_get. simpl. now rewrite lookup_insert_eq.
  - destruct (negb (is_string _ _)) eqn:S.
    + unfold hashCache_get. simpl. now rewrite lookup_insert_eq.
    + simpl. apply negb_false_iff in S. now apply is_string_eq.
Qed.

Lemma observation_same module w d :
  getData module (now w) (localStorage w) = Ok d ->
  hashCache_get (name module) w = VStr (generateDataHash d) ->
  hasDataChanged module w = (Ok false, w).
Proof.
  intros Hd Hc. rewrite (hasDataChanged_eq _ _ _ Hd). cbv zeta.
  rewrite Hc, is_string_refl. simpl.
  destruct (generateDataHash d) as [|u r]; simpl; [|reflexivity].
  f_equal. unfold hashCache_get in Hc.
  destruct (localHashCache w !! name module) as [v|] eqn:L; simpl in Hc; [|discriminate].
  subst v. rewrite insert_id by assumption. now destruct w.
Qed.


End Policies.

Section Propagation.

Context {platform : Platform} {remote_end : Remote}.
Variable dataModules : list DataModule.

Lemma returns_getFileContent path : returns (getFileContent path).
Proof.
  apply returns_bind; [apply returns_try_catch|].
  intros [p|]; [apply returns_try_catch | apply returns_ret].
Qed.

Lemma returns_checkSyncStatus : returns (checkSyncStatus dataModules).
Proof.
  apply returns_bind.
  - apply returns_map_M. intros module.
    apply returns_bind; [apply returns_try_catch|]. intros c. apply returns_ret.
  - intros started. apply returns_map_M. intros [module c]. apply returns_try_catch.
Qed.

(** C9, as the code has it. The operations that talk to the remote
    repository, and those built from them, return a boolean, an optional
    value or a status list on every input and in every state; they
    never raise. *)
Theorem remote_operations_never_raise :
  (forall path, returns (getFileContent path))
  /\ (forall path content message sha,
         returns (createOrUpdateFile path content message sha))
  /\ (forall path message, returns (deleteFile path message))
  /\ (forall module, returns (syncModuleToCloud module))
  /\ (forall module, returns (syncModuleFromCloud module))
  /\ (forall module, returns (hasDataChanged module))
  /\ returns (checkSyncStatus dataModules)
  /\ returns (syncAllToCloud dataModules)
  /\ returns (syncAllFromCloud dataModules)
  /\ returns (cleanupCloudFiles dataModules).
Proof.
  repeat split; intros.
  - apply returns_getFileContent.
  - apply returns_try_catch.
  - apply returns_try_catch.
  - apply returns_try_catch.
  - apply returns_try_catch.
  - apply returns_try_catch.
  - apply returns_checkSyncStatus.
  - apply returns_for_modules. intros m. apply returns_try_catch.
  - apply returns_for_modules. intros m. apply returns_try_catch.
  - apply returns_for_modules. intros m. apply returns_try_catch.
Qed.

End Propagation.


(** ** Requests *)

Section Requests.

Context {platform : Platform} {remote_end : Remote}.

Lemma reads_refl w : reads w w.
Proof.
  constructor; auto. exists []. now rewrite app_nil_r.
Qed.

Lemma reads_trans w1 w2 w3 : reads w1 w2 -> reads w2 w3 -> reads w1 w3.
Proof.
  intros [c1 h1 s1 f1 i1 (e1 & t1 & r1) m1] [c2 h2 s2 f2 i2 (e2 & t2 & r2) m2].
  constructor; try congruence; auto.
  - lia.
  - exists (e1 ++ e2). rewrite t2, t1, app_assoc. split; [reflexivity|].
    now apply Forall_app.
  - intros q. now rewrite m2, m1.
Qed.

Lemma wf_run_timers t w : wf w -> wf (set_now t (run_timers t w)).
Proof.
  intros [Hu Hc]. split; [exact Hu|].
  intros k p r Hk. simpl in Hk. revert Hk.
  generalize (List.filter (fun '(d, _) => d <=? t) (timers w)).
  intros due. revert Hc. generalize (requestCache w).
  induction due as [|[d k'] due IH]; intros cache Hc; simpl.
  - apply Hc.
  - apply IH. intros k0 p0 r0 Hk0. apply (Hc k0 p0 r0).
    apply lookup_delete_Some in Hk0. tauto.
Qed.

Lemma reads_advance t w : reads w (snd (advance_to t w)).
Proof.
  unfold advance_to, modify. simpl.
  constructor; auto.
  - apply wf_run_timers.
  - exists []. now rewrite app_nil_r.
Qed.

Lemma wp_advance_to t Q w :
  (forall w', reads w w' -> trace w' = trace w -> remote w' = remote w ->
              bodyUsed w' = bodyUsed w -> nextId w' = nextId w ->
              Q (Ok tt) w') ->
  wp (advance_to t) Q w.
Proof.
  intros H. unfold wp. change (fst (advance_to t w)) with (Ok tt).
  apply H; [apply reads_advance|reflexivity..].
Qed.

(** A write goes to the repository whatever the cache holds. *)
Lemma wp_apiRequest_write endpoint method body c Q w :
  config w = Some c -> is_get method = false ->
  (forall w',
      written (request_of c endpoint method body) w w' ->
      Q (received (nextId w)
           (fst (exchange (request_of c endpoint method body) (remote w)))) w') ->
  wp (apiRequest endpoint method body) Q w.
Proof.
  intros Hc Hm H. unfold wp.
  assert (E : apiRequest endpoint method body w =
              let req := request_of c endpoint method body in
              let w1 := mkWorld (config w) (localHashCache w) (requestCache w) (timers w)
                          (bodyUsed w) (S (nextId w)) (localStorage w) (now w)
                          (snd (serve req (remote w))) (trace w ++ [EvFetch req]) in
              (received (nextId w) (fst (fst (serve req (remote w)))),
               snd (advance_to (now w + snd (fst (serve req (remote w)))) w1))).
  { unfold apiRequest, apiRequest_start, getApiBase, await.
    cbv beta iota delta [bind get ret throw].
    rewrite Hc. cbv beta iota. rewrite Hc. cbv beta iota. rewrite Hm.
    unfold fetch. fold (api_base c).
    change (mkRequest method (api_base c ++ js "/" ++ endpoint) (js "token " ++ token c) body)
      with (request_of c endpoint method body).
    destruct (serve (request_of c endpoint method body) (remote w))
      as [[reply latency] repo'] eqn:S.
    cbv beta iota delta [bind get ret throw fst snd advance_to modify or_throw].
    cbn [settleAt outcome].
    rewrite ?Hc. now destruct reply. }
  rewrite E. cbv zeta. cbn [fst snd]. apply H.
  match goal with
  | |- written _ _ (snd (advance_to ?t ?w0)) =>
      pose proof (reads_advance t w0) as R
  end.
  destruct R as [c1 h1 s1 f1 i1 _ _].
  constructor; try assumption; try reflexivity.
  intros Hwf. apply f1. destruct Hwf as [Hu Hk]. split; simpl.
  - intros i Hi. specialize (Hu i Hi). lia.
  - intros k p r Hp Hr. specialize (Hk k p r Hp Hr). lia.
Qed.


Lemma getFileContent_start_none path w :
  config w = None -> getFileContent_start path w = (Ok None, w).
Proof.
  intros Hc. unfold getFileContent_start, getRepoPath.
  cbv beta iota delta [try_catch bind get ret throw]. now rewrite Hc.
Qed.

Lemma getFileContent_start_eq path w c :
  config w = Some c ->
  getFileContent_start path w =
    match requestCache w !! cache_key (read_request c path) with
    | Some cached => (Ok (Some cached), w)
    | None => (Ok (Some (promise_of w (read_request c path))),
               launched w (read_request c path))
    end.
Proof.
  intros Hc. unfold getFileContent_start, getRepoPath, apiRequest_start, getApiBase.
  cbv beta iota delta [try_catch bind get ret throw].
  rewrite Hc. cbv beta iota. rewrite Hc. cbv beta iota.
  rewrite Hc. cbv beta iota. unfold branch_or. rewrite Hc.
  fold (api_base c). cbn [is_get mbind option_bind].
  unfold cache_key, read_request, request_of. cbn [req_method req_url method_name].
  rewrite <- !app_assoc.
  destruct (requestCache w !! _) as [cached|]; [reflexivity|].
  unfold fetch, launched, promise_of, modify, cache_key.
  cbn [req_method req_url method_name].
  rewrite <- ?app_assoc.
  match goal with
  | |- context [serve ?r (remote w)] => destruct (serve r (remote w)) as [[reply latency] repo']
  end.
  cbn [fst snd]. rewrite ?Hc. reflexivity.
Qed.

Lemma getFileContent_finish_eq p w :
  getFileContent_finish (Some p) w =
    match outcome p with
    | Some r =>
        if ok r then
          if bool_decide (rid r ∈ bodyUsed (awaited p w)) then (Ok None, awaited p w)
          else (Ok (file_of_body (text r)),
                set_bodyUsed (rid r :: bodyUsed (awaited p w)) (awaited p w))
        else (Ok None, awaited p w)
    | None => (Ok None, awaited p w)
    end.
Proof.
  unfold getFileContent_finish, await, json, read_body, awaited.
  cbv beta iota delta [try_catch bind get ret throw or_throw].
  destruct (advance_to (settleAt p) w) as [[[]|e] w1] eqn:A; [|discriminate A].
  cbn [fst snd]. destruct (outcome p) as [r|]; [|reflexivity].
  cbv beta iota. destruct (ok r); [|reflexivity].
  destruct (bool_decide (rid r ∈ bodyUsed w1)); [reflexivity|].
  unfold modify. cbv beta iota. unfold file_of_body.
  destruct (JSON_parse (text r)) as [data|]; [|reflexivity].
  cbv beta iota.
  destruct data as [| |b|n|s|items|fields]; try reflexivity.
  unfold getProp, property, decode_property.
  cbv beta iota delta [try_catch bind get ret throw or_throw].
  destruct (default VUndefined (own_property (js "content") fields))
    as [| |b|n|[|u t]|items|fs]; try reflexivity.
  - now destruct b.
  - cbn [truthy negb]. now destruct (n =? 0).
  - cbn [truthy].
    destruct (Base64.atob (remove_spaces (u :: t))) as [bin|]; [|reflexivity].
    now destruct (Utf8.decode bin).
Qed.


Lemma reads_launched w r : req_method r = GET -> reads w (launched w r).
Proof.
  intros Hr. constructor; simpl; auto.
  - intros [Hu Hk]. split; simpl.
    + intros i Hi. specialize (Hu i Hi). lia.
    + intros k p x Hp Hx. apply lookup_insert_Some in Hp.
      destruct Hp as [[_ <-] | [_ Hp]].
      * unfold promise_of in Hx. simpl in Hx.
        destruct (fst (fst (serve r (remote w)))); [|discriminate].
        injection Hx as <-. simpl. lia.
      * specialize (Hk k p x Hp Hx). lia.
  - exists [EvFetch r]. split; [reflexivity|]. now constructor.
Qed.

(** The promise, if any, holds a response the world knows. *)
Lemma getFileContent_start_spec path w :
  exists o w',
    getFileContent_start path w = (Ok o, w')
    /\ reads w w' /\ now w' = now w /\ bodyUsed w' = bodyUsed w
    /\ (wf w -> forall p r, o = Some p -> outcome p = Some r -> (rid r < nextId w')%nat).
Proof.
  destruct (config w) as [c|] eqn:Hc.
  - rewrite (getFileContent_start_eq path w c Hc).
    destruct (requestCache w !! cache_key (read_request c path)) as [cached|] eqn:L.
    + exists (Some cached), w.
      split; [reflexivity|]. split; [apply reads_refl|].
      split; [reflexivity|]. split; [reflexivity|].
      intros [_ Hk] p r [= <-] Hr. exact (Hk _ _ _ L Hr).
    + eexists _, _. split; [reflexivity|].
      split; [now apply reads_launched|].
      split; [reflexivity|]. split; [reflexivity|].
      intros _ p r [= <-] Hr. unfold promise_of in Hr. simpl in Hr.
      destruct (fst (fst (serve _ _))); [|discriminate].
      injection Hr as <-. simpl. lia.
  - rewrite (getFileContent_start_none path w Hc).
    exists None, w.
    split; [reflexivity|]. split; [apply reads_refl|].
    split; [reflexivity|]. split; [reflexivity|]. discriminate.
Qed.

Lemma reads_awaited p w : reads w (awaited p w).
Proof. apply reads_advance. Qed.

Lemma getFileContent_finish_spec o w :
  exists f w',
    getFileContent_finish o w = (Ok f, w')
    /\ (forall w0, reads w0 w ->
                   (wf w0 -> forall p r, o = Some p -> outcome p = Some r ->
                                         (rid r < nextId w)%nat) ->
                   reads w0 w')
    /\ trace w' = trace w /\ remote w' = remote w /\ now w <= now w'
    /\ localStorage w' = localStorage w /\ localHashCache w' = localHashCache w
    /\ config w' = config w.
Proof.
  destruct o as [p|]; cycle 1.
  { exists None, w. split; [reflexivity|]. split; [auto|]. repeat split; lia. }
  rewrite getFileContent_finish_eq.
  pose proof (reads_awaited p w) as R.
  assert (T : trace (awaited p w) = trace w) by reflexivity.
  assert (M : remote (awaited p w) = remote w) by reflexivity.
  assert (N : nextId (awaited p w) = nextId w) by reflexivity.
  assert (L : now w <= now (awaited p w)) by (simpl; lia).
  assert (Same : exists f w', (Ok None, awaited p w) = (@Ok (option FileInfo) f, w')
                   /\ (forall w0, reads w0 w ->
                                  (wf w0 -> forall p0 r, Some p = Some p0 ->
                                     outcome p0 = Some r -> (rid r < nextId w)%nat) ->
                                  reads w0 w')
                   /\ trace w' = trace w /\ remote w' = remote w /\ now w <= now w'
                   /\ localStorage w' = localStorage w
                   /\ localHashCache w' = localHashCache w /\ config w' = config w).
  { exists None, (awaited p w). split; [reflexivity|].
    split; [intros w0 R0 _; exact (reads_trans _ _ _ R0 R)|].
    repeat split; auto. }
  destruct (outcome p) as [r|] eqn:Hr; [|exact Same].
  destruct (ok r); [|exact Same].
  destruct (bool_decide _); [exact Same|]. clear Same.
  eexists _, _. split; [reflexivity|].
  split; [|repeat split; auto].
  intros w0 R0 Hb. pose proof (reads_trans _ _ _ R0 R) as R1.
  destruct R1 as [c1 h1 s1 f1 i1 t1 m1].
  constructor; simpl; auto.
  intros Hwf. destruct (f1 Hwf) as [Hu Hk]. split; simpl; [|exact Hk].
  intros i Hi. apply elem_of_cons in Hi. destruct Hi as [-> | Hi]; [|auto].
  exact (Hb Hwf p r eq_refl Hr).
Qed.

(** [getFileContent] returns, and what it does is a sequence of reads. *)
Lemma getFileContent_spec path w :
  exists f w', getFileContent path w = (Ok f, w') /\ reads w w'.
Proof.
  unfold getFileContent, bind.
  destruct (getFileContent_start_spec path w) as (o & w1 & -> & R1 & _ & _ & B).
  destruct (getFileContent_finish_spec o w1) as (f & w2 & -> & R2 & _).
  exists f, w2. split; [reflexivity|]. apply (R2 w R1 B).
Qed.

Lemma wp_getFileContent path Q w :
  (forall f w', reads w w' -> Q (Ok f) w') -> wp (getFileContent path) Q w.
Proof.
  intros H. unfold wp.
  destruct (getFileContent_spec path w) as (f & w' & -> & R). now apply H.
Qed.

End Requests.

(** ** Files without content *)

Section EmptyFiles.

Context {platform : Platform} {remote_end : Remote}.

Lemma file_of_body_no_content body data :
  JSON_parse body = Some data ->
  truthy (property data (js "content")) = false ->
  file_of_body body = None.
Proof.
  intros Hp Ht. unfold file_of_body. rewrite Hp.
  destruct data; try reflexivity;
    destruct (property _ _) as [| |b|n|[|u t]|items|fs]; try reflexivity;
    discriminate Ht.
Qed.

(** A read that is not answered from the cache. *)
Lemma getFileContent_fresh path w c :
  config w = Some c ->
  requestCache w !! cache_key (read_request c path) = None ->
  getFileContent path w =
    getFileContent_finish (Some (promise_of w (read_request c path)))
      (launched w (read_request c path)).
Proof.
  intros Hc Hk. unfold getFileContent, bind.
  now rewrite (getFileContent_start_eq path w c Hc), Hk.
Qed.

(** C10. A successful response whose record has no [content], or an
    empty one, gives [null] like an absent file or a failed request;
    [deleteFile] then reports success and sends nothing but the read:
    the file stays in the repository. *)
Theorem empty_file_is_no_file path message w c reply :
  config w = Some c ->
  requestCache w !! cache_key (read_request c path) = None ->
  fst (exchange (read_request c path) (remote w)) = Some reply ->
  ((200 <=? reply_status reply) && (reply_status reply <? 300) = false
   \/ exists data, JSON_parse (reply_text reply) = Some data
                   /\ truthy (property data (js "content")) = false) ->
  fst (getFileContent path w) = Ok None
  /\ fst (deleteFile path message w) = Ok true
  /\ trace (snd (deleteFile path message w))
     = trace w ++ [EvFetch (read_request c path)]
  /\ remote (snd (deleteFile path message w))
     = snd (exchange (read_request c path) (remote w)).
Proof.
  intros Hc Hk Hr Hbody.
  assert (E : exists w', getFileContent path w = (Ok None, w')
                         /\ trace w' = trace w ++ [EvFetch (read_request c path)]
                         /\ remote w' = snd (exchange (read_request c path) (remote w))).
  { rewrite (getFileContent_fresh path w c Hc Hk), getFileContent_finish_eq.
    unfold promise_of at 1. cbn [outcome]. unfold exchange in Hr. simpl in Hr.
    rewrite Hr. unfold ok. cbn [status text rid].
    destruct Hbody as [-> | (data & Hp & Ht)].
    - eexists. split; [reflexivity|]. now split.
    - destruct (_ && _); [|eexists; split; [reflexivity|now split]].
      destruct (bool_decide _); [eexists; split; [reflexivity|now split]|].
      rewrite (file_of_body_no_content _ _ Hp Ht).
      eexists. split; [reflexivity|]. now split. }
  destruct E as (w' & E & T & M).
  split; [now rewrite E|].
  unfold deleteFile, try_catch, bind. rewrite E. cbn [ret fst snd]. auto.
Qed.

End EmptyFiles.

(** ** Failed pushes *)

Section FailedPush.

Context {platform : Platform} {remote_end : Remote}.

Hypothesis Hquiet : quiet_reads.
Hypothesis Hrej : rejections_change_nothing.
Hypothesis Hack : writes_acknowledged.

Lemma untouched_reads R0 c w w' : untouched R0 c w -> reads w w' -> untouched R0 c w'.
Proof.
  intros (Hr & Hwf & Hc) [c1 h1 s1 f1 i1 t1 m1]. repeat split.
  - now rewrite m1.
  - now apply f1.
  - apply f1, Hwf.
  - congruence.
Qed.

Lemma ok_received id a :
  ok (mkResponse id (reply_status a) (reply_text a)) = accepted a.
Proof. reflexivity. Qed.

(** Reading the body of a response that was not read before. *)
Lemma read_body_eq r w :
  rid r ∉ bodyUsed w ->
  read_body r w = (Ok (text r), set_bodyUsed (rid r :: bodyUsed w) w).
Proof.
  intros H. unfold read_body. cbv beta iota delta [bind get ret throw modify].
  now rewrite bool_decide_eq_false_2.
Qed.

Lemma wf_read r w : wf w -> (rid r < nextId w)%nat -> wf (set_bodyUsed (rid r :: bodyUsed w) w).
Proof.
  intros [Hu Hk] Hr. split; simpl; [|exact Hk].
  intros i Hi. apply elem_of_cons in Hi. destruct Hi as [-> | Hi]; auto.
Qed.

Lemma write_acknowledged_eq r w :
  rid r ∉ bodyUsed w ->
  write_acknowledged r w =
    (match JSON_parse (text r) with
     | Some VUndefined | Some VNull => Throw TypeError
     | Some v => Ok (negb (is_undefined (property v (js "content"))))
     | None => Throw SyntaxError
     end, set_bodyUsed (rid r :: bodyUsed w) w).
Proof.
  intros H. unfold write_acknowledged, json.
  cbv beta iota delta [bind]. rewrite (read_body_eq r w H).
  cbv beta iota delta [or_throw ret throw].
  destruct (JSON_parse (text r)) as [v|]; [|reflexivity].
  now destruct v.
Qed.

(** One write: it fails and the repository is as before, or it is
    accepted and its answer carries the record of the file. *)
Lemma wp_put R0 c endpoint body (Q : Res Response -> World -> Prop) w :
  untouched R0 c w ->
  (forall e w', untouched R0 c w' -> Q (Throw e) w') ->
  (forall r w', ok r = false -> untouched R0 c w' -> rid r ∉ bodyUsed w' ->
                (rid r < nextId w')%nat -> Q (Ok r) w') ->
  (forall r w', ok r = true -> wf w' -> config w' = Some c -> rid r ∉ bodyUsed w' ->
                (rid r < nextId w')%nat ->
                (exists v, JSON_parse (text r) = Some v
                           /\ is_undefined (property v (js "content")) = false) ->
                Q (Ok r) w') ->
  wp (apiRequest endpoint PUT body) Q w.
Proof.
  intros (Hr & Hwf & Hc) Hfail Hno Hyes.
  apply (wp_apiRequest_write _ _ _ c); [assumption|reflexivity|].
  intros w' W. destruct W as [c1 h1 s1 u1 i1 f1 t1 m1].
  set (req := request_of c endpoint PUT body) in *.
  pose proof (Hrej req (remote w)) as Rej.
  pose proof (Hack req (remote w)) as Ack.
  unfold exchange in *. cbn [fst snd] in *.
  assert (Hfresh : nextId w ∉ bodyUsed w').
  { rewrite u1. intros Hin. destruct Hwf as [Hu _]. specialize (Hu _ Hin). lia. }
  destruct (fst (fst (serve req (remote w)))) as [a|] eqn:Ha; cbn [received].
  - destruct (accepted a) eqn:Hacc.
    + apply Hyes; cbn [rid text];
        [exact Hacc | apply f1, Hwf | congruence | exact Hfresh | lia
        | apply (Ack a); [reflexivity|reflexivity|assumption]].
    + apply Hno; cbn [rid]; [exact Hacc | | exact Hfresh | lia].
      repeat split; [rewrite m1, Rej by reflexivity; exact Hr|apply f1, Hwf..|congruence].
  - apply Hfail.
    repeat split; [rewrite m1, Rej; exact Hr|apply f1, Hwf..|congruence].
Qed.

Lemma encode_content_world content w : exists r, encode_content content w = (r, w).
Proof.
  unfold encode_content. destruct (Utf8.encode content) as [bin|]; [|now eexists].
  destruct (Base64.btoa bin); now eexists.
Qed.

Lemma has_sha_world sha w : exists r, has_sha sha w = (r, w).
Proof.
  unfold has_sha. destruct (truthy sha); [|now eexists]. destruct sha; now eexists.
Qed.

Lemma contents_endpoint_eq path c w :
  config w = Some c ->
  contents_endpoint path w
  = (Ok (js "repos/" ++ owner c ++ js "/" ++ repo c ++ js "/contents/" ++ path), w).
Proof.
  intros Hc. unfold contents_endpoint, getRepoPath.
  cbv beta iota delta [bind get ret throw]. rewrite Hc. cbv beta iota.
  now rewrite <- !app_assoc.
Qed.

Lemma wp_same {A} (m : M A) Q w :
  (exists r, m w = (r, w)) -> (forall r, Q r w) -> wp m Q w.
Proof. intros [r E] H. unfold wp. rewrite E. apply H. Qed.

Lemma provider_is_gitee c w :
  config w = Some c -> provider_is gitee w = bool_decide (provider c = gitee).
Proof. intros Hc. unfold provider_is. now rewrite Hc. Qed.

(** The answer to an accepted write is read and found acknowledged. *)
Lemma wp_acknowledged r (Q : Res bool -> World -> Prop) w :
  rid r ∉ bodyUsed w ->
  (exists v, JSON_parse (text r) = Some v
             /\ is_undefined (property v (js "content")) = false) ->
  (forall w', Q (Ok true) w') ->
  wp (write_acknowledged r) Q w.
Proof.
  intros Hfresh (v & Hv & Hd) H. unfold wp.
  rewrite (write_acknowledged_eq r w Hfresh), Hv.
  destruct v; try discriminate Hd; cbn [fst snd]; rewrite ?Hd; apply H.
Qed.

(** A write that carries a token, or goes to github, and is reported
    as failed has left the repository as it was. *)
Lemma createOrUpdateFile_frame R0 c path content message existingSha w :
  untouched R0 c w ->
  provider c = github \/ truthy existingSha = true ->
  wp (createOrUpdateFile path content message existingSha)
     (fun r w' => r = Ok true \/ remote w' = R0) w.
Proof.
  intros U Hpath. unfold createOrUpdateFile.
  set (P := fun (r : Res bool) (w' : World) =>
              match r with Ok true => True | _ => remote w' = R0 end).
  apply wp_try_catch.
  apply (wp_mono _ P); cycle 1.
  { intros [[|]|e] w'; unfold P; cbn; auto. intros H. apply wp_ret. now right. }
  apply wp_bind. apply wp_same; [apply encode_content_world|].
  intros [encodedContent|e]; [|apply U].
  apply wp_bind.
  apply (wp_mono _ (fun r w' => untouched R0 c w' /\
                      match r with
                      | Ok sha => provider c = github \/ truthy sha = true
                      | Throw _ => True
                      end)).
  { destruct (truthy existingSha) eqn:Ht; cbn [negb].
    - apply wp_ret. auto.
    - destruct Hpath as [Hg|]; [|discriminate].
      apply wp_bind. apply wp_getFileContent. intros f w1 R.
      apply wp_ret. split; [exact (untouched_reads _ _ _ _ U R)|now left]. }
  clear U w. intros [sha|e] w [U Hsha]; [|apply U].
  apply wp_bind, wp_get.
  pose proof U as (Hr & Hwf & Hc).
  rewrite (provider_is_gitee c w Hc).
  assert (Hchain : negb (truthy sha) && bool_decide (provider c = gitee) = false).
  { destruct Hsha as [Hg | ->]; [|reflexivity].
    rewrite Hg. rewrite bool_decide_eq_false_2 by discriminate. apply andb_false_r. }
  rewrite Hchain.
  apply wp_bind. apply wp_same; [apply has_sha_world|].
  intros [with_sha|e]; [|exact Hr].
  apply wp_bind. unfold wp at 1. rewrite (contents_endpoint_eq path c w Hc). cbn [fst snd].
  apply wp_bind. apply (wp_put R0 c); [exact U| |  |].
  - intros e w' U'. apply U'.
  - intros r w' Hok U' Hfresh Hid. rewrite Hok.
    apply wp_bind. unfold wp at 1. rewrite (read_body_eq r w' Hfresh). cbn [fst snd].
    assert (U1 : untouched R0 c (set_bodyUsed (rid r :: bodyUsed w') w')).
    { destruct U' as (Hr' & Hwf' & Hc'). repeat split; try assumption; apply wf_read; assumption. }
    apply wp_bind, wp_get.
    destruct (provider_is gitee _ && includes (text r) (js "sha")); [|apply wp_ret; apply U1].
    apply wp_bind. apply wp_getFileContent. intros freshFile w2 R2.
    pose proof (untouched_reads _ _ _ _ U1 R2) as U2.
    destruct freshFile as [f|]; [|apply wp_ret; apply U2].
    apply wp_bind. apply (wp_put R0 c); [exact U2| | |].
    + intros e w3 U3. apply U3.
    + intros r3 w3 Hok3 U3 _ _. rewrite Hok3. apply wp_ret. apply U3.
    + intros r3 w3 Hok3 _ _ Hfresh3 _ Hv3. rewrite Hok3.
      apply wp_acknowledged; auto. intros; exact I.
  - intros r w' Hok _ _ Hfresh _ Hv. rewrite Hok.
    apply wp_acknowledged; auto. intros; exact I.
Qed.

Lemma syncModuleToCloud_frame R0 c module w :
  untouched R0 c w ->
  provider c = github \/ token_found (sync_filename module) w = true ->
  wp (syncModuleToCloud module) (fun r w' => r = Ok true \/ remote w' = R0) w.
Proof.
  intros U Hpath. unfold syncModuleToCloud.
  set (P := fun (r : Res bool) (w' : World) =>
              match r with Ok true => True | _ => remote w' = R0 end).
  apply wp_try_catch.
  apply (wp_mono _ P); cycle 1.
  { intros [[|]|e] w'; unfold P; cbn; auto. intros H. apply wp_ret. now right. }
  apply wp_bind. unfold wp at 1. rewrite callGetData_eq. cbn [fst snd].
  destruct (getData module (now w) (localStorage w)) as [data|e]; [|apply U].
  apply wp_bind, wp_get.
  apply wp_bind.
  unfold token_found in Hpath.
  destruct (getFileContent_spec (sync_filename module) w) as (f & w1 & E & R).
  unfold wp at 1. rewrite E in *. cbn [fst snd] in *.
  pose proof (untouched_reads _ _ _ _ U R) as U1.
  apply wp_bind, wp_get. apply wp_bind.
  eapply wp_mono; [apply (createOrUpdateFile_frame R0 c); [exact U1|exact Hpath]|].
  intros [[|]|e] w2 [H|H]; try discriminate H; try exact H.
  - apply wp_bind. unfold hashCache_set. apply wp_modify, wp_ret. exact I.
  - apply wp_bind. unfold hashCache_set. apply wp_modify, wp_ret. exact I.
Qed.


End FailedPush.

(** ** The creation strategies of provider B *)

Section Creation.

Context {platform : Platform} {remote_end : Remote}.

Lemma sent_nil w : sent [] (remote w) w w.
Proof. constructor; auto. simpl. now rewrite app_nil_r. Qed.

Lemma sent_app r1 r2 st1 st2 w1 w2 w3 :
  sent r1 st1 w1 w2 -> sent r2 st2 w2 w3 -> sent (r1 ++ r2) st2 w1 w3.
Proof.
  intros [c1 h1 s1 f1 t1 m1] [c2 h2 s2 f2 t2 m2].
  constructor; try congruence; auto.
  now rewrite t2, t1, map_app, app_assoc.
Qed.

Lemma sent_written req w w' :
  written req w w' -> sent [req] (snd (exchange req (remote w))) w w'.
Proof. intros [c1 h1 s1 u1 i1 f1 t1 m1]. constructor; auto. Qed.

Lemma sent_read_body reqs st w w' r :
  sent reqs st w w' -> (wf w' -> (rid r < nextId w')%nat) ->
  sent reqs st w (set_bodyUsed (rid r :: bodyUsed w') w').
Proof.
  intros [c1 h1 s1 f1 t1 m1] Hr. constructor; auto.
  intros Hwf. apply wf_read; auto.
Qed.

Lemma branch_or_eq d c w : config w = Some c -> branch_or d w = or_default (branch c) d.
Proof. intros Hc. unfold branch_or. now rewrite Hc. Qed.

(** A write request, as seen from the repository. *)
Lemma wp_write c method path fields (Q : Res Response -> World -> Prop) w :
  config w = Some c -> is_get method = false ->
  (forall w',
      written (write_request c method path fields) w w' ->
      Q (received (nextId w)
           (fst (exchange (write_request c method path fields) (remote w)))) w') ->
  wp (let* endpoint := contents_endpoint path in
      apiRequest endpoint method (Some (JSON_stringify 0 (VObj fields)))) Q w.
Proof.
  intros Hc Hm H. apply wp_bind. unfold wp at 1.
  rewrite (contents_endpoint_eq path c w Hc). cbn [fst snd].
  now apply (wp_apiRequest_write _ _ _ c).
Qed.

Lemma ok_of_received id a r :
  received id a = Ok r -> ok r = answered_ok a /\ rid r = id
                          /\ exists y, a = Some y /\ text r = reply_text y.
Proof.
  destruct a as [y|]; [|discriminate]. intros [= <-]. repeat split. eauto.
Qed.

Lemma tryPostCreate_spec c path message e w :
  config w = Some c ->
  let req := creation_request c path message e in
  wp (tryPostCreate path message e)
     (fun r w' => r = Ok (answered_ok (fst (exchange req (remote w))))
                  /\ sent [req] (snd (exchange req (remote w))) w w') w.
Proof.
  intros Hc req. unfold tryPostCreate.
  apply wp_try_catch, wp_bind, wp_get. cbv zeta.
  rewrite (branch_or_eq _ c w Hc).
  apply wp_bind. unfold wp at 1. rewrite (contents_endpoint_eq path c w Hc). cbn [fst snd].
  apply wp_bind. apply (wp_apiRequest_write _ _ _ c); [assumption|reflexivity|].
  intros w' W. fold (contents_path c path).
  change (request_of c (contents_path c path) POST _) with req in *.
  destruct (fst (exchange req (remote w))) as [a|]; cbn [received answered_ok].
  - change (ok _) with (accepted a).
    destruct (accepted a); apply wp_ret; split; auto using sent_written.
  - apply wp_ret. split; auto using sent_written.
Qed.

Lemma tryPutWithEmptySha_spec c path message e w :
  config w = Some c ->
  let req := empty_token_request c path message e in
  wp (tryPutWithEmptySha path message e)
     (fun r w' => r = Ok (answered_ok (fst (exchange req (remote w))))
                  /\ sent [req] (snd (exchange req (remote w))) w w') w.
Proof.
  intros Hc req. unfold tryPutWithEmptySha.
  apply wp_try_catch, wp_bind, wp_get. cbv zeta.
  rewrite (branch_or_eq _ c w Hc).
  apply wp_bind. unfold wp at 1. rewrite (contents_endpoint_eq path c w Hc). cbn [fst snd].
  apply wp_bind. apply (wp_apiRequest_write _ _ _ c); [assumption|reflexivity|].
  intros w' W. fold (contents_path c path).
  change (request_of c (contents_path c path) PUT _) with req in *.
  destruct (fst (exchange req (remote w))) as [a|]; cbn [received answered_ok].
  - change (ok _) with (accepted a).
    destruct (accepted a); apply wp_ret; split; auto using sent_written.
  - apply wp_ret. split; auto using sent_written.
Qed.

Lemma tryCreateThenUpdate_spec c path message e w :
  wf w -> config w = Some c ->
  wp (tryCreateThenUpdate path message e)
     (fun r w' =>
        r = Ok (fst (fst (placeholder_then_update c path message e (remote w))))
        /\ sent (snd (fst (placeholder_then_update c path message e (remote w))))
                (snd (placeholder_then_update c path message e (remote w))) w w') w.
Proof.
  intros Hwf Hc. unfold tryCreateThenUpdate, placeholder_then_update.
  set (ph := placeholder_request c path).
  apply wp_try_catch.
  change (Base64.btoa []) with (Some (@nil Z)). cbn [or_throw].
  apply wp_bind, wp_ret, wp_bind, wp_get. cbv zeta.
  rewrite (branch_or_eq _ c w Hc).
  apply wp_bind. unfold wp at 1. rewrite (contents_endpoint_eq path c w Hc). cbn [fst snd].
  apply wp_bind. apply (wp_apiRequest_write _ _ _ c); [assumption|reflexivity|].
  intros w1 W1. fold (contents_path c path) in *.
  change (request_of c (contents_path c path) PUT _) with ph in *.
  pose proof (sent_written _ _ _ W1) as S1.
  destruct W1 as [c1 h1 s1 u1 i1 f1 t1 m1].
  destruct (exchange ph (remote w)) as [a st1] eqn:X. cbn [fst snd] in *.
  assert (Hfresh : nextId w ∉ bodyUsed w1).
  { rewrite u1. intros Hin. destruct Hwf as [Hu _]. specialize (Hu _ Hin). lia. }
  destruct a as [y|]; cbn [received placeholder_token]; cycle 1.
  { apply wp_ret. auto. }
  rewrite ok_received.
  destruct (accepted y) eqn:Hacc; cycle 1.
  { apply wp_bind, wp_ret, wp_ret. auto. }
  apply wp_bind, wp_bind. unfold json. apply wp_bind. unfold wp at 1.
  rewrite read_body_eq by exact Hfresh. cbn [fst snd rid text].
  set (w2 := set_bodyUsed _ w1).
  assert (S2 : sent [ph] st1 w w2).
  { apply (sent_read_body _ _ _ _ (mkResponse (nextId w) (reply_status y) (reply_text y)));
      [exact S1|]. cbn [rid]. lia. }
  destruct (JSON_parse (reply_text y)) as [v|]; cbn [or_throw]; cycle 1.
  { apply wp_throw, wp_ret. auto. }
  apply wp_ret.
  assert (Hv : wp (getProp v (js "content"))
                 (fun r w' => w' = w2 /\
                    match r with
                    | Ok x => x = property v (js "content")
                    | Throw _ => property (property v (js "content")) (js "sha") = VUndefined
                    end) w2).
  { destruct v; unfold wp; split; reflexivity. }
  apply wp_bind. eapply wp_mono; [exact Hv|]. clear Hv.
  intros [x|err] w' [-> Hx].
  2:{ rewrite Hx. cbn [truthy]. apply wp_ret. auto. }
  subst x.
  assert (Hs : wp (getPropOpt (property v (js "content")) (js "sha"))
                 (fun r w' => w' = w2 /\
                    r = Ok (property (property v (js "content")) (js "sha"))) w2).
  { destruct (property v (js "content")); unfold wp; split; reflexivity. }
  apply wp_bind. eapply wp_mono; [exact Hs|]. clear Hs.
  intros r w' [-> ->].
  set (t := property (property v (js "content")) (js "sha")).
  destruct (truthy t); cycle 1.
  { apply wp_ret, wp_ret. auto. }
  apply wp_bind, wp_get. cbv zeta.
  assert (Hc2 : config w2 = Some c) by (unfold w2; simpl; congruence).
  rewrite (branch_or_eq _ c w2 Hc2).
  apply wp_bind. apply (wp_apiRequest_write _ _ _ c); [assumption|reflexivity|].
  intros w3 W3. fold (contents_path c path) in *.
  change (request_of c (contents_path c path) PUT _)
    with (update_request c path message e t) in *.
  pose proof (sent_written _ _ _ W3) as S3.
  replace (remote w2) with st1 in * by (symmetry; apply S2).
  destruct (exchange (update_request c path message e t) st1) as [a' st2] eqn:X'.
  cbn [fst snd] in *.
  pose proof (sent_app _ _ _ _ _ _ _ S2 S3) as S23. cbn [app] in S23.
  destruct a' as [y'|]; cbn [received answered_ok].
  - apply wp_ret, wp_ret. change (ok _) with (accepted y'). auto.
  - apply wp_ret. auto.
Qed.

Lemma encode_content_eq content e w :
  encodeContent content = Some e -> encode_content content w = (Ok e, w).
Proof.
  unfold encodeContent, encode_content.
  destruct (Utf8.encode content) as [bin|]; [|discriminate]. now intros ->.
Qed.

Lemma createNewFileForGitee_spec c path content message e w :
  wf w -> config w = Some c -> encodeContent content = Some e ->
  wp (createNewFileForGitee path content message)
     (fun r w' =>
        r = Ok (fst (fst (fallback_chain c path message e (remote w))))
        /\ sent (snd (fst (fallback_chain c path message e (remote w))))
                (snd (fallback_chain c path message e (remote w))) w w') w.
Proof.
  intros Hwf Hc He. unfold createNewFileForGitee, fallback_chain.
  apply wp_try_catch.
  apply wp_bind. unfold wp at 1. rewrite (encode_content_eq content e w He). cbn [fst snd].
  apply wp_bind. eapply wp_mono; [apply (tryPostCreate_spec c); exact Hc|].
  cbv zeta. intros r w1 [-> S1].
  destruct (exchange (creation_request c path message e) (remote w)) as [a st1].
  cbn [fst snd] in *.
  destruct (answered_ok a); [apply wp_ret; auto|].
  assert (Hwf1 : wf w1) by (apply S1, Hwf).
  assert (Hc1 : config w1 = Some c) by (destruct S1; congruence).
  assert (Hr1 : remote w1 = st1) by apply S1.
  apply wp_bind. eapply wp_mono; [apply (tryCreateThenUpdate_spec c); assumption|].
  cbv beta. rewrite Hr1. intros r w2 [-> S2].
  destruct (placeholder_then_update c path message e st1) as [[b sent_b] st2].
  cbn [fst snd] in *.
  pose proof (sent_app _ _ _ _ _ _ _ S1 S2) as S12. cbn [app] in S12.
  destruct b; [apply wp_ret; auto|].
  assert (Hc2 : config w2 = Some c) by (destruct S2; congruence).
  assert (Hr2 : remote w2 = st2) by apply S2.
  apply wp_bind. eapply wp_mono; [apply (tryPutWithEmptySha_spec c); assumption|].
  cbv zeta. rewrite Hr2. intros r w3 [-> S3].
  destruct (exchange (empty_token_request c path message e) st2) as [a' st3].
  cbn [fst snd] in *.
  pose proof (sent_app _ _ _ _ _ _ _ S12 S3) as S123. cbn [app] in S123.
  destruct (answered_ok a'); apply wp_ret; auto.
Qed.

Lemma creation_chain_run path content message existingSha w c e f w1 :
  wf w -> config w = Some c -> provider c = gitee ->
  truthy existingSha = false ->
  encodeContent content = Some e ->
  getFileContent path w = (Ok f, w1) ->
  truthy (sha_of f) = false ->
  let chain := fallback_chain c path message e (remote w1) in
  exists w',
    createOrUpdateFile path content message existingSha w = (Ok (fst (fst chain)), w')
    /\ sent (snd (fst chain)) (snd chain) w1 w'.
Proof.
  intros Hwf Hc Hp Hex He Hf Hsha chain.
  destruct (getFileContent_spec path w) as (f' & w1' & E & R).
  rewrite Hf in E. injection E as <- <-.
  assert (Hwf1 : wf w1) by (apply R, Hwf).
  assert (Hc1 : config w1 = Some c) by (destruct R; congruence).
  assert (H : wp (createOrUpdateFile path content message existingSha)
                (fun r w' => r = Ok (fst (fst chain))
                             /\ sent (snd (fst chain)) (snd chain) w1 w') w).
  { unfold createOrUpdateFile. apply wp_try_catch.
    apply wp_bind. unfold wp at 1. rewrite (encode_content_eq content e w He).
    cbn [fst snd]. rewrite Hex. cbn [negb].
    apply wp_bind, wp_bind. unfold wp at 1. rewrite Hf. cbn [fst snd].
    apply wp_ret, wp_bind, wp_get.
    rewrite Hsha, (provider_is_gitee c w1 Hc1), Hp. cbn [negb andb].
    rewrite bool_decide_eq_true_2 by reflexivity.
    eapply wp_mono; [apply (createNewFileForGitee_spec c _ _ _ e); assumption|].
    intros r w' [-> S]. auto. }
  unfold wp in H.
  destruct (createOrUpdateFile path content message existingSha w) as [r w'].
  cbn [fst snd] in H. destruct H as [-> S]. now exists w'.
Qed.

(** C4. On gitee, a write for which no token was given and none was
    found goes through the fallback chain: the creation call, then the
    placeholder and its update, then the write with the empty token,
    in this order and no further than the first success; the outcome
    is that of the chain. *)
Theorem gitee_creation_chain path content message existingSha w c e f w1 :
  wf w -> config w = Some c -> provider c = gitee ->
  truthy existingSha = false ->
  encodeContent content = Some e ->
  getFileContent path w = (Ok f, w1) ->
  truthy (sha_of f) = false ->
  let chain := fallback_chain c path message e (remote w1) in
  exists w',
    createOrUpdateFile path content message existingSha w = (Ok (fst (fst chain)), w')
    /\ trace w' = trace w1 ++ List.map EvFetch (snd (fst chain))
    /\ remote w' = snd chain.
Proof.
  intros Hwf Hc Hp Hex He Hf Hsha chain.
  destruct (creation_chain_run path content message existingSha w c e f w1
              Hwf Hc Hp Hex He Hf Hsha) as (w' & E & S).
  exists w'. split; [exact E|]. split; apply S.
Qed.

End Creation.

(** ** The retry of a rejected write *)

Section Retry.

Context {platform : Platform} {remote_end : Remote}.

Lemma has_sha_eq c message e sha w :
  has_sha sha w =
    (match write_fields c message e sha with
     | Some _ =>
         Ok (match sha with
             | VStr s => truthy sha && negb (trim_is_empty s)
             | _ => false
             end)
     | None => Throw TypeError
     end, w).
Proof.
  unfold has_sha, write_fields.
  destruct sha as [| |b|n|s|items|fs]; cbn [truthy]; try reflexivity.
  - now destruct b.
  - now destruct (negb (n =? 0)).
  - destruct s; [reflexivity|]. cbn. now destruct (is_space z && forallb is_space s).
Qed.

Lemma wp_collapse (m : M bool) P w :
  wp m (collapse P) w ->
  wp (try_catch m (fun _ => ret false)) (fun r w' => exists b, r = Ok b /\ P b w') w.
Proof.
  intros H. apply wp_try_catch. eapply wp_mono; [exact H|].
  intros [b|e] w' Hp; unfold collapse in Hp; [eauto|]. apply wp_ret. eauto.
Qed.

(** A write, and what is reported for it when it is accepted. *)
Lemma wp_report c path fields (k : Response -> M bool) P w :
  wf w -> config w = Some c ->
  let req := write_request c PUT path fields in
  let a := fst (exchange req (remote w)) in
  let st := snd (exchange req (remote w)) in
  (answered_ok a = true -> forall w', sent [req] st w w' -> P (acknowledged a) w') ->
  (a = None -> forall w', sent [req] st w w' -> P false w') ->
  (forall y w', a = Some y -> accepted y = false -> sent [req] st w w' ->
                nextId w ∉ bodyUsed w' -> (nextId w < nextId w')%nat ->
                wp (k (mkResponse (nextId w) (reply_status y) (reply_text y)))
                   (collapse P) w') ->
  wp (let* response :=
        apiRequest (contents_path c path) PUT (Some (JSON_stringify 0 (VObj fields))) in
      if ok response then write_acknowledged response else k response)
     (collapse P) w.
Proof.
  intros Hwf Hc req a st Hyes Hnet Hno.
  apply wp_bind. apply (wp_apiRequest_write _ _ _ c); [assumption|reflexivity|].
  intros w' W. change (request_of c _ PUT _) with req in *.
  pose proof (sent_written _ _ _ W) as S. fold st in S.
  destruct W as [c1 h1 s1 u1 i1 f1 t1 m1].
  assert (Hfresh : nextId w ∉ bodyUsed w').
  { rewrite u1. intros Hin. destruct Hwf as [Hu _]. specialize (Hu _ Hin). lia. }
  fold a. fold a in Hyes, Hnet, Hno.
  destruct a as [y|] eqn:Ha; cbn [received].
  - rewrite ok_received. destruct (accepted y) eqn:Hacc.
    + unfold wp. rewrite write_acknowledged_eq by exact Hfresh. cbn [fst snd text rid].
      assert (S' : sent [req] st w (set_bodyUsed (nextId w :: bodyUsed w') w')).
      { apply (sent_read_body _ _ _ _ (mkResponse (nextId w) (reply_status y) (reply_text y)));
          [exact S|]. cbn [rid]. lia. }
      specialize (Hyes Hacc _ S'). cbn [acknowledged] in Hyes. rewrite Hacc in Hyes.
      cbn [andb] in Hyes. unfold collapse.
      destruct (JSON_parse (reply_text y)) as [v|]; [|exact Hyes].
      destruct v; exact Hyes.
    + apply (Hno y); auto. lia.
  - unfold collapse. now apply Hnet.
Qed.

Lemma write_with_retry_run path content message existingSha w c e sha w0 :
  wf w -> config w = Some c -> encodeContent content = Some e ->
  (truthy existingSha = true /\ sha = existingSha /\ w0 = w)
  \/ (truthy existingSha = false
      /\ exists f, getFileContent path w = (Ok f, w0) /\ sha = sha_of f) ->
  truthy sha = true \/ provider c = github ->
  exists b w',
    createOrUpdateFile path content message existingSha w = (Ok b, w')
    /\ match write_fields c message e sha with
       | None => b = false /\ w' = w0
       | Some fields =>
           let first := write_request c PUT path fields in
           let a := fst (exchange first (remote w0)) in
           let st := snd (exchange first (remote w0)) in
           if answered_ok a then b = acknowledged a /\ sent [first] st w0 w'
           else if retry_signal c a then
             exists w1 f w2,
               sent [first] st w0 w1 /\ getFileContent path w1 = (Ok f, w2)
               /\ match f with
                  | None => b = false /\ w' = w2
                  | Some fi =>
                      let second :=
                        write_request c PUT path
                          (assign_property (js "sha") (file_sha fi) fields) in
                      b = acknowledged (fst (exchange second (remote w2)))
                      /\ sent [second] (snd (exchange second (remote w2))) w2 w'
                  end
           else b = false /\ sent [first] st w0 w'
       end.
Proof.
  intros Hwf Hc He Hres Hmain.
  set (Post := fun (b : bool) (w' : World) =>
    match write_fields c message e sha with
    | None => b = false /\ w' = w0
    | Some fields =>
        let first := write_request c PUT path fields in
        let a := fst (exchange first (remote w0)) in
        let st := snd (exchange first (remote w0)) in
        if answered_ok a then b = acknowledged a /\ sent [first] st w0 w'
        else if retry_signal c a then
          exists w1 f w2,
            sent [first] st w0 w1 /\ getFileContent path w1 = (Ok f, w2)
            /\ match f with
               | None => b = false /\ w' = w2
               | Some fi =>
                   let second :=
                     write_request c PUT path
                       (assign_property (js "sha") (file_sha fi) fields) in
                   b = acknowledged (fst (exchange second (remote w2)))
                   /\ sent [second] (snd (exchange second (remote w2))) w2 w'
               end
        else b = false /\ sent [first] st w0 w'
    end).
  assert (H : wp (createOrUpdateFile path content message existingSha)
                (fun r w' => exists b, r = Ok b /\ Post b w') w).
  { unfold createOrUpdateFile. apply wp_collapse.
    apply wp_bind. unfold wp at 1. rewrite (encode_content_eq content e w He).
    cbn [fst snd].
    assert (Hw0 : wf w0 /\ config w0 = Some c).
    { destruct Hres as [(_ & _ & ->) | (_ & f & Hf & _)]; [auto|].
      destruct (getFileContent_spec path w) as (f' & w1' & E & R).
      rewrite Hf in E. injection E as <- <-.
      split; [apply R, Hwf|destruct R; congruence]. }
    destruct Hw0 as [Hwf0 Hc0].
    apply wp_bind.
    apply (wp_mono _ (fun r w' => r = Ok sha /\ w' = w0)).
    { destruct Hres as [(Ht & -> & ->) | (Ht & f & Hf & ->)]; rewrite Ht; cbn [negb].
      - now apply wp_ret.
      - apply wp_bind. unfold wp at 1. rewrite Hf. cbn [fst snd]. now apply wp_ret. }
    intros r w' [-> ->].
    apply wp_bind, wp_get.
    rewrite (provider_is_gitee c w0 Hc0).
    assert (Hchain : negb (truthy sha) && bool_decide (provider c = gitee) = false).
    { destruct Hmain as [-> | Hg]; [reflexivity|].
      rewrite Hg. rewrite bool_decide_eq_false_2 by discriminate. apply andb_false_r. }
    rewrite Hchain.
    assert (Hbranch : branch_or (if bool_decide (provider c = gitee)
                                 then js "master" else js "main") w0
                      = or_default (branch c)
                          (match provider c with
                           | gitee => js "master"
                           | github => js "main"
                           end)).
    { rewrite (branch_or_eq _ c w0 Hc0). now destruct (provider c). }
    rewrite Hbranch.
    apply wp_bind. unfold wp at 1. rewrite (has_sha_eq c message e sha w0).
    cbn [fst snd]. unfold Post.
    destruct (write_fields c message e sha) as [fields|] eqn:Hfields; cycle 1.
    { unfold collapse. auto. }
    assert (Hf' : (if match sha with
                      | VStr s => truthy sha && negb (trim_is_empty s)
                      | _ => false
                      end
                   then [(js "message", VStr message); (js "content", VStr e);
                         (js "branch",
                          VStr (or_default (branch c)
                                  match provider c with
                                  | github => js "main"
                                  | gitee => js "master"
                                  end))] ++ [(js "sha", sha)]
                   else [(js "message", VStr message); (js "content", VStr e);
                         (js "branch",
                          VStr (or_default (branch c)
                                  match provider c with
                                  | github => js "main"
                                  | gitee => js "master"
                                  end))]) = fields).
    { unfold write_fields in Hfields.
      destruct sha as [| |b|n|s|items|fs]; cbn [truthy] in *;
        try discriminate Hfields;
        try (injection Hfields as <-; reflexivity).
      - destruct b; [discriminate|]. now injection Hfields as <-.
      - destruct (negb (n =? 0)); [discriminate|]. now injection Hfields as <-.
      - destruct s as [|u s]; [now injection Hfields as <-|].
        cbn [andb]. destruct (trim_is_empty (u :: s)); now injection Hfields as <-. }
    rewrite Hf'. clear Hf'.
    apply wp_bind. unfold wp at 1. rewrite (contents_endpoint_eq path c w0 Hc0).
    cbn [fst snd]. fold (contents_path c path).
    apply (wp_report c path fields); [assumption..| | |].
    - intros Hok w' S. cbv zeta. now rewrite Hok.
    - intros Hn w' S. cbv zeta. rewrite Hn. cbn [answered_ok retry_signal]. auto.
    - intros y w1 Hy Hacc S1 Hfresh Hid. cbv zeta. rewrite Hy.
      cbn [answered_ok retry_signal]. rewrite Hacc. cbn [negb andb].
      apply wp_bind. unfold wp at 1.
      rewrite read_body_eq by exact Hfresh. cbn [fst snd rid text].
      set (w1' := set_bodyUsed _ w1).
      assert (S1' : sent [write_request c PUT path fields]
                      (snd (exchange (write_request c PUT path fields) (remote w0)))
                      w0 w1').
      { apply (sent_read_body _ _ _ _ (mkResponse (nextId w0) (reply_status y) (reply_text y)));
          [exact S1|]. cbn [rid]. lia. }
      assert (Hc1 : config w1' = Some c) by (destruct S1'; congruence).
      assert (Hwf1 : wf w1') by (apply S1', Hwf0).
      apply wp_bind, wp_get. rewrite (provider_is_gitee c w1' Hc1).
      destruct (bool_decide (provider c = gitee) && includes (reply_text y) (js "sha"));
        [|apply wp_ret; unfold collapse; auto].
      destruct (getFileContent_spec path w1') as (f & w2 & E & R).
      apply wp_bind. unfold wp at 1. rewrite E. cbn [fst snd].
      destruct f as [fi|]; cycle 1.
      { apply wp_ret. unfold collapse. exists w1', None, w2. auto. }
      assert (Hc2 : config w2 = Some c) by (destruct R; congruence).
      assert (Hwf2 : wf w2) by (apply R, Hwf1).
      apply (wp_mono _ (collapse (fun b w' =>
               b = acknowledged
                     (fst (exchange
                             (write_request c PUT path
                                (assign_property (js "sha") (file_sha fi) fields))
                             (remote w2)))
               /\ sent [write_request c PUT path
                          (assign_property (js "sha") (file_sha fi) fields)]
                       (snd (exchange
                               (write_request c PUT path
                                  (assign_property (js "sha") (file_sha fi) fields))
                               (remote w2))) w2 w'))).
      2:{ intros r w' Hr. unfold collapse in *. exists w1', (Some fi), w2. auto. }
      apply (wp_report c path _ (fun _ => ret false)); [assumption..| | |].
      + intros _ w' S. auto.
      + intros Hn w' S. rewrite Hn. auto.
      + intros y2 w3 Hy2 Hacc2 S3 _ _. apply wp_ret. unfold collapse.
        rewrite Hy2. cbn [acknowledged]. rewrite Hacc2. auto. }
  unfold wp in H.
  destruct (createOrUpdateFile path content message existingSha w) as [r w'].
  cbn [fst snd] in H. destruct H as (b & -> & HP). now exists b, w'.
Qed.


End Retry.

(** ** The status list *)

Section Status.

Context {platform : Platform} {remote_end : Remote}.
Variable dataModules : list DataModule.

Lemma bind_eq {A B} (m : M A) (f : A -> M B) w a w1 :
  m w = (Ok a, w1) -> bind m f w = f a w1.
Proof. intros E. unfold bind. now rewrite E. Qed.

Lemma map_M_spec {A B} (f : A -> M B) (I : World -> Prop) (Q : A -> B -> Prop) l :
  (forall a w, I w -> exists b w', f a w = (Ok b, w') /\ I w' /\ Q a b) ->
  forall w, I w ->
    exists bs w', map_M f l w = (Ok bs, w') /\ I w' /\ Forall2 Q l bs.
Proof.
  intros Hf. induction l as [|a l IH]; intros w Hw; simpl.
  - exists [], w. repeat split; auto.
  - unfold bind. destruct (Hf a w Hw) as (b & w1 & -> & Hw1 & Hq).
    destruct (IH w1 Hw1) as (bs & w2 & -> & Hw2 & Hqs).
    exists (b :: bs), w2. repeat split; auto.
Qed.

Lemma check_start_spec w0 module w :
  started_from w0 w ->
  exists mc w',
    (let* c := check_start module in ret (module, c)) w = (Ok mc, w')
    /\ started_from w0 w' /\ start_of w0 module mc.
Proof.
  intros (Hn & Hs & Hr). unfold check_start, getLocalDataHash.
  cbv beta iota delta [bind try_catch]. rewrite callGetData_eq, Hn, Hs.
  destruct (getData module (now w0) (localStorage w0)) as [d|e] eqn:Hd; cbn [ret]; cycle 1.
  { eexists (module, CheckFailed), w. split; [reflexivity|].
    split; [now repeat split|]. split; [reflexivity|]. now rewrite Hd. }
  destruct (config w) as [c|] eqn:Hc.
  - rewrite (getFileContent_start_eq _ w c Hc).
    destruct (requestCache w !! _) as [cached|] eqn:L; cbv beta iota.
    + eexists (module, _), w. split; [reflexivity|].
      split; [now repeat split|]. split; [reflexivity|]. rewrite Hd.
      eexists. split; [reflexivity|]. intros Hu Ha p [= <-]. exact (Hr Hu Ha _ _ L).
    + eexists (module, _), _. split; [reflexivity|]. split; [|split; [reflexivity|]].
      * split; [exact Hn|]. split; [exact Hs|].
        intros Hu Ha k p Hk. cbn in Hk. apply lookup_insert_Some in Hk.
        destruct Hk as [[_ <-] | [_ Hk]]; [|exact (Hr Hu Ha _ _ Hk)].
        unfold promise_of. cbn. now rewrite Hu.
      * rewrite Hd. eexists. split; [reflexivity|].
        intros Hu Ha p [= <-]. unfold promise_of. cbn. now rewrite Hu.
  - rewrite (getFileContent_start_none _ w Hc). cbv beta iota.
    eexists (module, _), w. split; [reflexivity|].
    split; [now repeat split|]. split; [reflexivity|]. rewrite Hd.
    eexists. split; [reflexivity|]. discriminate.
Qed.

Lemma never_synced_eq module h :
  mkSyncStatus (filename module) h (VStr []) (negb (is_string (VStr []) h)) VUndefined
  = never_synced module h.
Proof.
  unfold never_synced, is_string. do 2 f_equal.
  destruct (decide (h = [])) as [->|Hne].
  - now rewrite !bool_decide_eq_true_2.
  - rewrite !bool_decide_eq_false_2; congruence.
Qed.

Lemma or_empty_cases v : or_empty v = VStr [] \/ truthy (or_empty v) = true.
Proof. unfold or_empty. destruct (truthy v) eqn:E; auto. Qed.

Lemma check_finish_spec mc w :
  exists s w',
    (let '(module, c) := mc in settled module (check_finish module c)) w = (Ok s, w')
    /\ finish_of mc s.
Proof.
  destruct mc as [module c]. unfold settled, check_finish.
  destruct c as [|h o].
  { exists (failed_status module), w. split; [reflexivity|]. now split. }
  cbv beta iota delta [try_catch bind].
  destruct (getFileContent_finish_spec o w) as (f & w1 & E & _).
  rewrite E. cbv beta iota.
  destruct f as [fi|]; cycle 1.
  { cbn [ret]. eexists _, w1. split; [reflexivity|]. split; [reflexivity|].
    cbn [fst snd]. split.
    - right. cbn. auto.
    - intros _. apply never_synced_eq. }
  assert (Hsome : (forall p, o = Some p -> outcome p = None) -> False).
  { intros Hnone. destruct o as [p|].
    - rewrite getFileContent_finish_eq, (Hnone p eq_refl) in E. discriminate.
    - discriminate E. }
  destruct (JSON_parse (file_content fi)) as [syncData|]; cbn [or_throw throw ret]; cycle 1.
  { eexists _, w1. split; [reflexivity|]. split; [reflexivity|]. cbn [fst snd].
    split; [now left|]. intros H. destruct (Hsome H). }
  destruct syncData as [| |b|n|s|items|fields];
    cbn [getProp ret throw];
    (eexists _, w1; split; [reflexivity|]; split; [reflexivity|]; cbn [fst snd];
     split; [|intros H; destruct (Hsome H)]);
    try (now left);
    right; cbn [localHash needsSync cloudHash];
    (split; [reflexivity|]; split; [reflexivity|]; apply or_empty_cases).
Qed.

Lemma Forall2_compose {A B C} (P : A -> B -> Prop) (Q : B -> C -> Prop)
      (R : A -> C -> Prop) la lb lc :
  (forall a b c, P a b -> Q b c -> R a c) ->
  Forall2 P la lb -> Forall2 Q lb lc -> Forall2 R la lc.
Proof.
  intros H HP. revert lc. induction HP as [|a b la lb Hab _ IH]; intros lc HQ.
  - inversion HQ. constructor.
  - inversion HQ as [|? c ? lc' Hbc HQ']; subst. constructor; eauto.
Qed.


End Status.

(** ** The direction of [autoSync] *)

Section AutoSync.

Context {platform : Platform} {remote_end : Remote}.
Variable dataModules : list DataModule.

Lemma bind_ret_r {A} (m : M A) w : bind m ret w = m w.
Proof. unfold bind, ret. now destruct (m w) as [[a|e] w']. Qed.

Lemma bind_assoc {A B C} (m : M A) (f : A -> M B) (g : B -> M C) w :
  bind (bind m f) g w = bind m (fun a => bind (f a) g) w.
Proof. unfold bind. now destruct (m w) as [[a|e] w']. Qed.

Lemma bind_ext {A B} (m : M A) (f g : A -> M B) w :
  (forall a w', f a w' = g a w') -> bind m f w = bind m g w.
Proof. intros H. unfold bind. destruct (m w) as [[a|e] w']; auto. Qed.

Lemma autoSync_loop_policy statusList acc w :
  autoSync_loop dataModules statusList acc w
  = sync_each dataModules (List.filter needsSync statusList) acc w.
Proof.
  revert acc w. induction statusList as [|status rest IH]; intros acc w; [reflexivity|].
  cbn [autoSync_loop List.filter].
  destruct (needsSync status) eqn:Hn; cbn [negb].
  - cbn [sync_each]. unfold sync_one, module_of.
    destruct (List.find _ dataModules) as [module|].
    + rewrite bind_assoc. apply bind_ext. intros localChanged w1.
      rewrite bind_assoc.
      assert (E : (if localChanged || negb (truthy (cloudHash status))
                   then syncModuleToCloud module
                   else syncModuleFromCloud module)
                  = match direction localChanged (cloudHash status) with
                    | Push => syncModuleToCloud module
                    | Pull => syncModuleFromCloud module
                    end).
      { unfold direction. destruct localChanged; [reflexivity|].
        now destruct (truthy (cloudHash status)). }
      rewrite E. apply bind_ext. intros r w2. cbn [bind ret]. apply IH.
    + cbn [bind ret]. apply IH.
  - destruct (List.find _ dataModules); apply IH.
Qed.

Lemma size_zero_empty (m : gmap jsstring Value) :
  bool_decide (size m = 0%nat) = bool_decide (m = ∅).
Proof.
  apply bool_decide_ext. apply map_size_empty_iff.
Qed.


End AutoSync.

(** ** Push, then pull *)

Section RoundTrip.

Context {platform : Platform} {remote_end : Remote}.

Lemma remove_spaces_idem s : remove_spaces (remove_spaces s) = remove_spaces s.
Proof.
  unfold remove_spaces. induction s as [|u s IH]; [reflexivity|].
  simpl. destruct (negb (is_space u)) eqn:E; simpl; rewrite ?E, IH; reflexivity.
Qed.

(** The content that was encoded for a write is what the decoding of a
    read gives back. *)
Lemma decode_encoded text e spaced :
  encodeContent text = Some e -> remove_spaces spaced = e ->
  decodeContent spaced = Some text.
Proof.
  unfold encodeContent, decodeContent.
  destruct (Utf8.encode text) as [bin|] eqn:Hbin; [|discriminate].
  intros Hb Hs.
  rewrite (Base64Facts.atob_btoa bin e (remove_spaces spaced) Hb)
    by (now rewrite remove_spaces_idem).
  now apply Utf8Facts.decode_encode.
Qed.

Lemma encoded_nonempty text e :
  encodeContent text = Some e -> text <> [] -> e <> [].
Proof.
  unfold encodeContent. destruct text as [|u r]; [contradiction|]. intros H _.
  destruct (Utf8.encode (u :: r)) as [bin|] eqn:Hbin; [|discriminate].
  assert (Hne : bin <> []).
  { cbn [Utf8.encode] in Hbin.
    destruct (negb _); [discriminate|]. destruct (Utf8.is_low u); [discriminate|].
    assert (Hcp : forall c l, Utf8.encode_cp c ++ l <> []).
    { intros c l. unfold Utf8.encode_cp.
      destruct (c <? 128); [discriminate|]. destruct (c <? 2048); [discriminate|].
      destruct (c <? 65536); discriminate. }
    destruct (Utf8.is_high u).
    - destruct r as [|v r']; [discriminate|]. destruct (Utf8.is_low v); [|discriminate].
      destruct (Utf8.encode r'); [|discriminate]. injection Hbin as <-. apply Hcp.
    - destruct (Utf8.encode r); [|discriminate]. injection Hbin as <-. apply Hcp. }
  unfold Base64.btoa in H. destruct (forallb Base64.is_octet bin); [|discriminate].
  injection H as <-. destruct bin as [|a [|b [|c l]]]; [contradiction|discriminate..].
Qed.

Lemma file_of_returned reply e text :
  returns_content reply e -> encodeContent text = Some e -> text <> [] ->
  exists sha, file_of_body (reply_text reply) = Some (mkFileInfo text sha).
Proof.
  intros (_ & data & spaced & Hp & Hc & Hs) He Hne.
  pose proof (decode_encoded text e spaced He Hs) as Hd.
  pose proof (encoded_nonempty text e He Hne) as Hen.
  unfold file_of_body. rewrite Hp.
  destruct data as [| |b|n|s|items|fields]; try discriminate Hc.
  rewrite Hc. destruct spaced as [|u t].
  { cbn in Hs. congruence. }
  unfold decodeContent in Hd.
  destruct (Base64.atob (remove_spaces (u :: t))) as [bin|]; [|discriminate].
  rewrite Hd. eauto.
Qed.

Lemma own_property_assign_other k k' v fields :
  k <> k' ->
  own_property k (assign_property k' v fields) = own_property k fields.
Proof.
  intros Hne. induction fields as [|[k0 v0] rest IH]; cbn [assign_property own_property].
  - rewrite bool_decide_eq_false_2; [reflexivity|congruence].
  - destruct (bool_decide (k0 = k')) eqn:E; cbn [own_property].
    + apply bool_decide_eq_true in E. subst k0.
      destruct (own_property k rest); [reflexivity|].
      rewrite bool_decide_eq_false_2; [reflexivity|congruence].
    + now rewrite IH.
Qed.

Lemma write_fields_content c message e sha fields :
  write_fields c message e sha = Some fields ->
  own_property (js "content") fields = Some (VStr e).
Proof.
  unfold write_fields. destruct (truthy sha).
  - destruct sha; try discriminate. destruct (trim_is_empty s); now intros [= <-].
  - now intros [= <-].
Qed.

Lemma carries_write c path fields e :
  own_property (js "content") fields = Some (VStr e) ->
  carries e (write_request c PUT path fields).
Proof. intros H. split; [reflexivity|]. exists fields. now split. Qed.

Lemma chain_success c path message e st :
  fst (fst (fallback_chain c path message e st)) = true ->
  exists req, last (snd (fst (fallback_chain c path message e st))) = Some req
              /\ carries e req.
Proof.
  unfold fallback_chain.
  destruct (exchange (creation_request c path message e) st) as [a st1].
  destruct (answered_ok a).
  { intros _. eexists. split; [reflexivity|]. split; [reflexivity|].
    eexists. split; [reflexivity|]. reflexivity. }
  unfold placeholder_then_update.
  destruct (exchange (placeholder_request c path) st1) as [a1 st2].
  destruct (truthy (placeholder_token a1)).
  - destruct (exchange (update_request c path message e (placeholder_token a1)) st2)
      as [a2 st3].
    destruct (answered_ok a2).
    + intros _. eexists. split; [reflexivity|]. split; [reflexivity|].
      eexists. split; [reflexivity|]. reflexivity.
    + destruct (exchange (empty_token_request c path message e) st3) as [a3 st4].
      cbn [fst snd]. intros _. eexists. split; [reflexivity|]. split; [reflexivity|].
      eexists. split; [reflexivity|]. reflexivity.
  - destruct (exchange (empty_token_request c path message e) st2) as [a3 st4].
    cbn [fst snd]. intros _. eexists. split; [reflexivity|]. split; [reflexivity|].
    eexists. split; [reflexivity|]. reflexivity.
Qed.

Lemma encode_content_none content w :
  encodeContent content = None -> exists e, encode_content content w = (Throw e, w).
Proof.
  unfold encodeContent, encode_content.
  destruct (Utf8.encode content) as [bin|]; [|eauto]. intros ->. cbn. eauto.
Qed.

Lemma sent_last req st w w' : sent [req] st w w' -> last (trace w') = Some (EvFetch req).
Proof. intros [_ _ _ _ T _]. rewrite T. cbn [List.map]. apply last_snoc. Qed.

(** A write that is reported as done ends with a request that carries
    the encoded content. *)
Lemma createOrUpdateFile_success path content message existingSha w c w' :
  wf w -> config w = Some c ->
  createOrUpdateFile path content message existingSha w = (Ok true, w') ->
  exists e req, encodeContent content = Some e
                /\ last (trace w') = Some (EvFetch req) /\ carries e req
                /\ wf w' /\ config w' = Some c.
Proof.
  intros Hwf Hc E.
  destruct (encodeContent content) as [e|] eqn:He; cycle 1.
  { exfalso. destruct (encode_content_none content w He) as (err & X).
    unfold createOrUpdateFile in E. cbv beta iota delta [try_catch bind] in E.
    rewrite X in E. discriminate E. }
  exists e.
  enough (exists req, last (trace w') = Some (EvFetch req) /\ carries e req
                      /\ wf w' /\ config w' = Some c)
    as (req & Hl & Hcar) by (exists req; auto).
  assert (Hcases :
            exists sha w0,
              ((truthy existingSha = true /\ sha = existingSha /\ w0 = w)
               \/ (truthy existingSha = false
                   /\ exists f, getFileContent path w = (Ok f, w0) /\ sha = sha_of f))).
  { destruct (truthy existingSha) eqn:Ht.
    - exists existingSha, w. now left.
    - destruct (getFileContent_spec path w) as (f & w0 & Hf & _).
      exists (sha_of f), w0. right. split; [reflexivity|]. now exists f. }
  destruct Hcases as (sha & w0 & Hres).
  assert (Hw0 : wf w0 /\ config w0 = Some c).
  { destruct Hres as [(_ & _ & ->) | (_ & f & Hf & _)]; [auto|].
    destruct (getFileContent_spec path w) as (f' & w1' & X & R).
    rewrite Hf in X. injection X as <- <-.
    split; [apply R, Hwf|destruct R; congruence]. }
  destruct Hw0 as [Hwf0 Hc0].
  destruct (truthy sha) eqn:Hsha; [|destruct (provider c) eqn:Hp].
  1,2: destruct (write_with_retry_run path content message existingSha w c e sha w0
                   Hwf Hc He Hres) as (b & w'' & E' & Hpost);
       [first [now left | now right]|];
       rewrite E' in E; injection E as -> ->.
  1,2: destruct (write_fields c message e sha) as [fields|] eqn:Hfields;
       [|destruct Hpost; discriminate];
       pose proof (write_fields_content _ _ _ _ _ Hfields) as Hcontent;
       cbv zeta in Hpost;
       destruct (answered_ok _);
       [destruct Hpost as [_ S]; eexists; split; [exact (sent_last _ _ _ _ S)|];
        split; [now apply carries_write|];
        split; [apply S, Hwf0|destruct S; congruence]|];
       destruct (retry_signal c _); [|destruct Hpost; discriminate];
       destruct Hpost as (w1 & f & w2 & S1 & Hg & Hf);
       destruct f as [fi|]; [|destruct Hf; discriminate];
       destruct Hf as [_ S]; eexists; split; [exact (sent_last _ _ _ _ S)|];
       (split; [apply carries_write; rewrite own_property_assign_other by discriminate;
                exact Hcontent|]);
       destruct (getFileContent_spec path w1) as (f' & w2' & X & R);
       rewrite Hg in X; injection X as <- <-;
       (split; [apply S, R, S1, Hwf0
               |destruct S, R, S1; congruence]).
  destruct Hres as [(Ht & -> & _) | (Ht & f & Hf & ->)]; [congruence|].
  destruct (creation_chain_run path content message existingSha w c e f w0
              Hwf Hc Hp Ht He Hf Hsha) as (w'' & E' & S).
  rewrite E' in E. injection E as Hb ->.
  destruct (chain_success _ _ _ _ _ Hb) as (req & Hl & Hcar).
  exists req. split; [|split; [exact Hcar|]].
  - destruct S as [_ _ _ _ T _]. rewrite T, last_app, fmap_last, Hl. reflexivity.
  - split; [apply S, Hwf0|destruct S; congruence].
Qed.

(** A push that is reported as done ends with a request that carries
    the encoded envelope of the module's data. *)
Lemma push_last_write module w c d w1 :
  wf w -> config w = Some c ->
  getData module (now w) (localStorage w) = Ok d ->
  syncModuleToCloud module w = (Ok true, w1) ->
  exists e req,
    encodeContent (JSON_stringify 2 (envelope d (now w))) = Some e
    /\ last (trace w1) = Some (EvFetch req) /\ carries e req
    /\ wf w1 /\ config w1 = Some c.
Proof.
  intros Hwf Hc Hd E.
  unfold syncModuleToCloud in E. cbv beta iota delta [try_catch bind get] in E.
  rewrite callGetData_eq, Hd in E.
  destruct (getFileContent_spec (sync_filename module) w) as (f & wa & Hf & R).
  rewrite Hf in E.
  match type of E with
  | context [createOrUpdateFile ?p ?j ?m ?s wa] =>
      destruct (createOrUpdateFile p j m s wa) as [[[|]|err] wb] eqn:X
  end; try discriminate E.
  apply createOrUpdateFile_success with (c := c) in X;
    [|apply R, Hwf|destruct R; congruence].
  destruct X as (e & req & He & Hl & Hcar & Hwfb & Hcb).
  exists e, req. split; [exact He|].
  cbn in E. injection E as <-. cbn. auto.
Qed.

Lemma envelope_data d t : property (envelope d t) (js "data") = d.
Proof. reflexivity. Qed.

(** A pull that reads the envelope of [d] from the repository hands
    [d] to the module. *)
Lemma pull_fresh module w c reply jsonText sha d t :
  config w = Some c -> wf w ->
  requestCache w !! cache_key (read_request c (sync_filename module)) = None ->
  fst (exchange (read_request c (sync_filename module)) (remote w)) = Some reply ->
  accepted reply = true ->
  file_of_body (reply_text reply) = Some (mkFileInfo jsonText sha) ->
  JSON_parse jsonText = Some (envelope d t) ->
  exists w',
    syncModuleFromCloud module w
    = (Ok (match setData module d (localStorage w) with Ok _ => true | Throw _ => false end),
       w')
    /\ trace w' = trace w ++ [EvFetch (read_request c (sync_filename module));
                              EvSetData (name module) d].
Proof.
  intros Hc Hwf Hk Hr Hacc Hfile Hparse.
  unfold syncModuleFromCloud. cbv beta iota delta [try_catch bind].
  rewrite (getFileContent_fresh _ w c Hc Hk), getFileContent_finish_eq.
  unfold promise_of at 1. cbn [outcome]. unfold exchange in Hr. cbn [fst] in Hr.
  rewrite Hr. rewrite ok_received, Hacc. cbn [rid text].
  rewrite bool_decide_eq_false_2; cycle 1.
  { cbn. intros Hin. destruct Hwf as [Hu _]. specialize (Hu _ Hin). lia. }
  rewrite Hfile. cbv beta iota. cbn [file_content]. rewrite Hparse.
  cbn [or_throw ret]. cbv beta iota.
  unfold envelope at 1 2. cbn [getProp ret]. cbv beta iota.
  fold (envelope d t). change (default VUndefined (own_property (js "data") _)) with d.
  unfold callSetData. cbv beta iota delta [bind modify get lift].
  cbn [localStorage log set_bodyUsed awaited].
  assert (Hs : forall p r, localStorage (awaited p (launched w r)) = localStorage w)
    by reflexivity.
  rewrite Hs. unfold hashCache_set, modify.
  destruct (setData module d (localStorage w)) as [s|e]; cbv beta iota.
  - eexists. split; [reflexivity|]. cbn. now rewrite <- app_assoc.
  - eexists. split; [reflexivity|]. cbn. now rewrite <- app_assoc.
Qed.


(** After [clearCache] no read is answered from the request cache. *)
Lemma fresh_after_clearCache c path w :
  wf w -> config w = Some c -> fresh_read c path w (snd (clearCache w)).
Proof.
  intros [Hu Hk] Hc. unfold fresh_read. cbn.
  split; [reflexivity|]. split; [exact Hc|]. split; [|apply lookup_empty].
  split; [exact Hu|]. intros k p r Hp. cbn in Hp. now rewrite lookup_empty in Hp.
Qed.

End RoundTrip.

(** ** The reference repository keeps the laws *)

Module ReferenceFacts.
Import Reference.

Lemma quiet : quiet_reads.
Proof.
  intros r st Hm. cbn. unfold store_serve, react. rewrite Hm.
  destruct (online st); [|reflexivity].
  now destruct (files st !! resource (req_url r)) as [[c rev]|].
Qed.

Lemma rejections : rejections_change_nothing.
Proof.
  intros r st. cbn. unfold store_serve. destruct (online st); [|reflexivity].
  unfold react.
  destruct (req_method r);
    repeat match goal with
           | |- context [match ?x with _ => _ end] =>
               match x with
               | context [match _ with _ => _ end] => fail 1
               | _ => destruct x eqn:?
               end
           end; cbn; try reflexivity; try discriminate.
  all: match goal with
       | H : _ = Some ?y |- accepted ?y = false -> _ =>
           cbn in H; injection H as <-; discriminate
       end.
Qed.

Lemma read_only_quiet : @quiet_reads read_only.
Proof.
  intros r st Hm. cbn. rewrite Hm. now apply quiet.
Qed.

Lemma read_only_rejections : @rejections_change_nothing read_only.
Proof.
  intros r st. pose proof (rejections r st) as H. cbn in *.
  destruct (req_method r); try exact H; cbn; auto.
Qed.

Lemma read_only_acknowledged : @writes_acknowledged platform read_only.
Proof.
  intros r st a Hm Ha Hacc. cbn in Ha. rewrite Hm in Ha. cbn in Ha.
  injection Ha as <-. discriminate Hacc.
Qed.
End ReferenceFacts.

(** * Further properties of the client *)

(** ** The encoding of file contents *)

Section Content.

Lemma encode_upto n :
  forall s, (length s <= n)%nat ->
    match Utf8.encode s with
    | Some bin => well_formed s = true /\ forallb Base64.is_octet bin = true
    | None => well_formed s = false
    end.
Proof.
  induction n as [|n IH]; intros [|u r] Hlen; simpl in Hlen; try lia;
    try (cbn; now split).
  cbn [Utf8.encode well_formed].
  destruct ((0 <=? u) && (u <? 65536)) eqn:Hu; cbn [negb andb]; [|reflexivity].
  destruct (Utf8.is_low u) eqn:Hl; cbn [negb andb]; [reflexivity|].
  assert (Hoct : forall c, 0 <= c <= 1114111 ->
                           forallb Base64.is_octet (Utf8.encode_cp c) = true).
  { intros c Hc. apply forallb_forall. intros b Hb.
    pose proof (Utf8Facts.encode_cp_octets c Hc) as F.
    rewrite Forall_forall in F. apply list_elem_of_In, F in Hb.
    unfold Base64.is_octet. apply andb_true_iff. split; [apply Z.leb_le|apply Z.ltb_lt]; lia. }
  apply andb_true_iff in Hu. destruct Hu as [Hu0 Hu1].
  apply Z.leb_le in Hu0. apply Z.ltb_lt in Hu1.
  destruct (Utf8.is_high u) eqn:Hh.
  - destruct r as [|v r']; [reflexivity|].
    destruct (Utf8.is_low v) eqn:Hv; cbn [andb]; [|reflexivity].
    specialize (IH r' ltac:(simpl in Hlen; lia)).
    destruct (Utf8.encode r') as [bs|]; [|exact IH].
    destruct IH as [-> Hbs]. split; [reflexivity|].
    rewrite forallb_app, Hbs, andb_true_r. apply Hoct.
    unfold Utf8.is_high, Utf8.is_low in Hh, Hv.
    apply andb_true_iff in Hh, Hv. rewrite !Z.leb_le in Hh, Hv. lia.
  - specialize (IH r ltac:(lia)).
    destruct (Utf8.encode r) as [bs|]; [|exact IH].
    destruct IH as [-> Hbs]. split; [reflexivity|].
    rewrite forallb_app, Hbs, andb_true_r. apply Hoct. lia.
Qed.


(** The encoding of a content raises exactly on the strings with a lone
    surrogate, where [encodeURIComponent] raises; [btoa] never raises on
    what [unescape] hands to it. *)
Theorem encodeContent_defined s :
  (well_formed s = true -> exists e, encodeContent s = Some e)
  /\ (well_formed s = false -> encodeContent s = None).
Proof.
  pose proof (encode_upto (length s) s (le_n _)) as H. unfold encodeContent.
  destruct (Utf8.encode s) as [bin|].
  - destruct H as [-> Hb]. split; [|discriminate]. intros _.
    unfold Base64.btoa. rewrite Hb. eauto.
  - rewrite H. split; [discriminate|reflexivity].
Qed.

End Content.

(** ** A client without a configuration *)

Section Unconfigured.

Context {platform : Platform} {remote_end : Remote}.
Variable dataModules : list DataModule.

Lemma getFileContent_none path w :
  config w = None -> getFileContent path w = (Ok None, w).
Proof.
  intros Hc. unfold getFileContent, bind.
  now rewrite (getFileContent_start_none path w Hc).
Qed.

Lemma contents_endpoint_none path w :
  config w = None -> contents_endpoint path w = (Throw NotConfigured, w).
Proof.
  intros Hc. unfold contents_endpoint, getRepoPath.
  cbv beta iota delta [bind get ret throw]. now rewrite Hc.
Qed.

Lemma bind_throw {A B} (m : M A) (f : A -> M B) w e w1 :
  m w = (Throw e, w1) -> bind m f w = (Throw e, w1).
Proof. intros E. unfold bind. now rewrite E. Qed.

Lemma createOrUpdateFile_none path content message sha w :
  config w = None -> createOrUpdateFile path content message sha w = (Ok false, w).
Proof.
  intros Hc. unfold createOrUpdateFile, try_catch.
  destruct (encode_content_world content w) as [[e|x] E];
    [rewrite (bind_eq _ _ _ _ _ E)|now rewrite (bind_throw _ _ _ _ _ E)].
  assert (Hsha : exists s,
             (if negb (truthy sha)
              then let* existingFile := getFileContent path in ret (sha_of existingFile)
              else ret sha) w = (Ok s, w)).
  { destruct (truthy sha); cbn [negb]; [now exists sha|].
    exists VUndefined. unfold bind. now rewrite (getFileContent_none path w Hc). }
  destruct Hsha as (s & Hs). rewrite (bind_eq _ _ _ _ _ Hs).
  rewrite (bind_eq get _ w w w eq_refl).
  assert (Hp : provider_is gitee w = false) by (unfold provider_is; now rewrite Hc).
  rewrite Hp, andb_false_r.
  destruct (has_sha_world s w) as [[b|x] Hb];
    [rewrite (bind_eq _ _ _ _ _ Hb)|now rewrite (bind_throw _ _ _ _ _ Hb)].
  now rewrite (bind_throw _ _ _ _ _ (contents_endpoint_none path w Hc)).
Qed.

Lemma deleteFile_none path message w :
  config w = None -> deleteFile path message w = (Ok true, w).
Proof.
  intros Hc. unfold deleteFile. cbv beta iota delta [try_catch bind].
  now rewrite (getFileContent_none _ w Hc).
Qed.

Lemma check_none w :
  config w = None ->
  checkRepositoryExists w = (Ok false, w) /\ getRepoInfo w = (Ok VNull, w).
Proof.
  intros Hc. unfold checkRepositoryExists, getRepoInfo, getRepoPath.
  cbv beta iota delta [try_catch bind get ret throw]. now rewrite Hc.
Qed.

Lemma listFiles_none path w :
  config w = None -> listFiles path w = (Ok [], w).
Proof.
  intros Hc. unfold listFiles. cbv beta iota delta [try_catch bind].
  now rewrite (contents_endpoint_none path w Hc).
Qed.

(** Without a configuration nothing is sent: every operation on the
    repository comes back at once, the world as it was; reads give
    [null] or the empty list, writes and syncs give [false], and
    [deleteFile], for which a file that cannot be read does not exist,
    gives [true]. *)
Theorem unconfigured_sends_nothing w :
  config w = None ->
  (forall path, getFileContent path w = (Ok None, w))
  /\ (forall path content message sha,
         createOrUpdateFile path content message sha w = (Ok false, w))
  /\ (forall path message, deleteFile path message w = (Ok true, w))
  /\ (forall module,
         fst (syncModuleToCloud module w) = Ok false
         /\ snd (syncModuleToCloud module w) = w)
  /\ (forall module, syncModuleFromCloud module w = (Ok false, w))
  /\ autoSync dataModules w = (Ok (mkSyncResult false ∅), w)
  /\ checkRepositoryExists w = (Ok false, w)
  /\ getRepoInfo w = (Ok VNull, w)
  /\ (forall path, listFiles path w = (Ok [], w))
  /\ getSyncFiles w = (Ok [], w).
Proof.
  intros Hc.
  split; [intros; now apply getFileContent_none|].
  split; [intros; now apply createOrUpdateFile_none|].
  split; [intros; now apply deleteFile_none|].
  split.
  { intros module. unfold syncModuleToCloud, callGetData.
    cbv beta iota delta [try_catch bind get lift].
    destruct (getData module (now w) (localStorage w)) as [d|x]; [|now split].
    rewrite (getFileContent_none _ w Hc). cbv beta iota.
    rewrite (createOrUpdateFile_none _ _ _ _ w Hc). now split. }
  split.
  { intros module. unfold syncModuleFromCloud. cbv beta iota delta [try_catch bind].
    now rewrite (getFileContent_none _ w Hc). }
  split.
  { unfold autoSync. cbv beta iota delta [bind get]. now rewrite Hc. }
  split; [apply (check_none w Hc)|]. split; [apply (check_none w Hc)|].
  split; [intros; now apply listFiles_none|].
  unfold getSyncFiles. cbv beta iota delta [try_catch bind].
  now rewrite (listFiles_none [] w Hc).
Qed.

(** [clearConfig] removes the stored configuration with the active one:
    a [loadConfig] after it finds nothing, and the client stays without
    a configuration. *)
Theorem clearConfig_forgets w :
  let w' := snd (clearConfig w) in
  fst (clearConfig w) = Ok tt
  /\ config w' = None
  /\ localStorage w' = delete STORAGE_KEY (localStorage w)
  /\ loadConfig w' = (Ok None, w')
  /\ fst (initializeSync dataModules w') = Ok false.
Proof.
  cbv zeta. unfold clearConfig. cbv beta iota delta [bind modify].
  cbn [fst snd]. split; [reflexivity|]. split; [reflexivity|]. split; [reflexivity|].
  assert (E : forall v, loadConfig v = (Ok None, v) -> config v = None ->
                        fst (initializeSync dataModules v) = Ok false).
  { intros v Hl Hv. unfold initializeSync. cbv beta iota delta [bind get].
    rewrite Hv, Hl. reflexivity. }
  assert (L : forall v, localStorage v !! STORAGE_KEY = None -> loadConfig v = (Ok None, v)).
  { intros v Hv. unfold loadConfig. cbv beta iota delta [bind get]. now rewrite Hv. }
  split; [apply L|apply E; [apply L|reflexivity]]; cbn; apply lookup_delete_eq.
Qed.

End Unconfigured.

(** ** The stored configuration *)

Section StoredConfig.

Context {platform : Platform} {remote_end : Remote}.

Lemma config_of_value_of c : config_of_value (value_of_config c) = Some c.
Proof.
  destruct c as [[|] t o r [b|]]; reflexivity.
Qed.

(** What [saveConfig] stores is what [loadConfig] finds, in this client
    or in another one over the same local storage, on a platform whose
    AES and JSON give back what they were given and whose ciphertext is
    not the empty string: the configuration that was saved, with its
    branch filled in. *)
Theorem saved_config_loads c w w1 :
  let c' := fill_branch c in
  AES_decrypt (AES_encrypt (JSON_stringify 0 (value_of_config c')) SECRET_KEY) SECRET_KEY
  = Some (JSON_stringify 0 (value_of_config c')) ->
  JSON_parse (JSON_stringify 0 (value_of_config c')) = Some (value_of_config c') ->
  encryptConfig c' <> [] ->
  localStorage w1 = localStorage (snd (saveConfig c w)) ->
  loadConfig w1 = (Ok (Some c'), set_config (Some c') w1).
Proof.
  intros c' Haes Hjson Hne Hs.
  unfold loadConfig. cbv beta iota delta [bind get]. rewrite Hs.
  unfold saveConfig. cbv beta iota delta [bind modify]. cbn [snd localStorage set_config
    set_localStorage]. rewrite lookup_insert_eq. fold c'.
  destruct (encryptConfig c') as [|u x] eqn:E; [contradiction|].
  rewrite <- E. unfold decryptConfig, encryptConfig. rewrite Haes, Hjson.
  rewrite config_of_value_of.
  rewrite (fill_branch_keeps c') by apply fill_branch_nonempty.
  reflexivity.
Qed.

End StoredConfig.

(** ** Operations that never raise, and one that does *)

Section Raising.

Context {platform : Platform} {remote_end : Remote}.

Lemma returns_loadConfig : returns loadConfig.
Proof.
  intros w. unfold loadConfig. cbv beta iota delta [bind get].
  destruct (localStorage w !! STORAGE_KEY) as [[|u x]|]; try (unfold ret; eauto).
  destruct (decryptConfig (u :: x)); unfold ret, modify; eauto.
Qed.


End Raising.

(** ** The hash baselines *)

Section Baselines.

Context {platform : Platform} {remote_end : Remote}.

Lemma seed_step module w d :
  getData module (now w) (localStorage w) = Ok d ->
  (let* h := getLocalDataHash module in hashCache_set (name module) (VStr h)) w
  = (Ok tt, set_localHashCache
              (<[name module := VStr (generateDataHash d)]> (localHashCache w)) w).
Proof.
  intros Hd. unfold getLocalDataHash, hashCache_set, bind, modify.
  now rewrite callGetData_eq, Hd.
Qed.

Lemma seed_raises module w e :
  getData module (now w) (localStorage w) = Throw e ->
  (let* h := getLocalDataHash module in hashCache_set (name module) (VStr h)) w
  = (Throw e, w).
Proof.
  intros Hd. unfold getLocalDataHash, bind. now rewrite callGetData_eq, Hd.
Qed.

Lemma initializeHashCache_run l :
  forall w,
    Forall (readable w) l ->
    exists w',
      initializeHashCache l w = (Ok tt, w')
      /\ now w' = now w /\ localStorage w' = localStorage w
      /\ config w' = config w /\ trace w' = trace w /\ remote w' = remote w
      /\ (forall k, k ∉ List.map name l -> localHashCache w' !! k = localHashCache w !! k)
      /\ (NoDup (List.map name l) ->
          forall m d, m ∈ l -> getData m (now w) (localStorage w) = Ok d ->
                      hashCache_get (name m) w' = VStr (generateDataHash d)).
Proof.
  unfold initializeHashCache.
  induction l as [|a l IH]; intros w Hall.
  - exists w. cbn. repeat split; auto. intros _ m d Hm. inversion Hm.
  - inversion Hall as [|? ? [d Hd] Hl]; subst.
    cbn [for_each]. rewrite (bind_eq _ _ _ _ _ (seed_step a w d Hd)).
    set (w1 := set_localHashCache _ w).
    destruct (IH w1 Hl) as (w' & E & Hn & Hs & Hc & Ht & Hr & Hk & Hh).
    exists w'. split; [exact E|]. split; [exact Hn|]. split; [exact Hs|].
    split; [exact Hc|]. split; [exact Ht|]. split; [exact Hr|]. split.
    + intros k Hk'. cbn [List.map] in Hk'. rewrite not_elem_of_cons in Hk'.
      destruct Hk' as [Hka Hkl]. rewrite (Hk k Hkl). unfold w1. cbn.
      now rewrite lookup_insert_ne.
    + intros Hnd m d' Hm Hd'. cbn [List.map] in Hnd. apply NoDup_cons in Hnd.
      destruct Hnd as [Hna Hnd]. apply elem_of_cons in Hm. destruct Hm as [-> | Hm].
      * unfold hashCache_get. rewrite (Hk _ Hna). unfold w1. cbn.
        rewrite lookup_insert_eq. cbn. congruence.
      * apply (Hh Hnd m d' Hm). exact Hd'.
Qed.


Lemma initializeHashCache_raises pre module rest w e :
  Forall (readable w) pre ->
  getData module (now w) (localStorage w) = Throw e ->
  exists w', initializeHashCache (pre ++ module :: rest) w = (Throw e, w')
             /\ config w' = config w /\ trace w' = trace w /\ remote w' = remote w
             /\ localStorage w' = localStorage w.
Proof.
  unfold initializeHashCache. revert w.
  induction pre as [|a pre IH]; intros w Hall Hd; cbn [app for_each].
  - rewrite (bind_throw _ _ _ _ _ (seed_raises module w e Hd)). exists w. auto.
  - inversion Hall as [|? ? [d Ha] Hl]; subst.
    rewrite (bind_eq _ _ _ _ _ (seed_step a w d Ha)).
    set (w1 := set_localHashCache _ w).
    destruct (IH w1 Hl Hd) as (w' & E & H). exists w'. split; [exact E|exact H].
Qed.

(** A module whose data cannot be read is left alone: it is reported
    as unchanged, with its baseline as it was, and a push of it fails
    before anything is sent. *)
Theorem unreadable_module_is_skipped module w e :
  getData module (now w) (localStorage w) = Throw e ->
  hasDataChanged module w = (Ok false, w)
  /\ syncModuleToCloud module w = (Ok false, w).
Proof.
  intros Hd. split; [now apply (hasDataChanged_throw module w e)|].
  unfold syncModuleToCloud, try_catch.
  rewrite (bind_throw _ _ w e w); [reflexivity|]. now rewrite callGetData_eq, Hd.
Qed.

(** [autoSync] seeds the baselines outside of any [try]: with a
    configuration, no baseline yet and a module whose data cannot be
    read, it raises the module's exception and sends nothing;
    [initializeSync], which seeds them inside a [try], returns
    [false]. *)
Theorem autoSync_raises pre module rest w c e :
  config w = Some c ->
  size (localHashCache w) = 0%nat ->
  Forall (readable w) pre ->
  getData module (now w) (localStorage w) = Throw e ->
  fst (autoSync (pre ++ module :: rest) w) = Throw e
  /\ trace (snd (autoSync (pre ++ module :: rest) w)) = trace w
  /\ remote (snd (autoSync (pre ++ module :: rest) w)) = remote w
  /\ fst (initializeSync (pre ++ module :: rest) w) = Ok false.
Proof.
  intros Hc Hz Hall Hd.
  destruct (initializeHashCache_raises pre module rest w e Hall Hd)
    as (w' & E & _ & Ht & Hr & _).
  unfold autoSync, initializeSync. cbv beta iota delta [bind get try_catch].
  rewrite Hc, bool_decide_eq_true_2 by exact Hz. cbn [ret]. cbv beta iota.
  rewrite E. cbn [fst snd]. auto.
Qed.

End Baselines.

(** ** The batches *)

Section Batches.

Context {platform : Platform} {remote_end : Remote}.

Lemma for_modules_run f l :
  (forall m, returns (f m)) ->
  forall acc w,
    exists r w',
      for_modules f l acc w = (Ok r, w')
      /\ (forall k, k ∉ List.map name l -> results r !! k = results acc !! k)
      /\ (forall k, k ∈ List.map name l -> is_Some (results r !! k))
      /\ (success r = true ->
          success acc = true
          /\ forall k, k ∈ List.map name l -> results r !! k = Some true)
      /\ (NoDup (List.map name l) -> success acc = true ->
          (forall k, k ∈ List.map name l -> results r !! k = Some true) ->
          success r = true).
Proof.
  intros Hf. induction l as [|m l IH]; intros acc w; cbn [for_modules List.map].
  - exists acc, w. split; [reflexivity|]. split; [auto|].
    split; [intros k Hk; inversion Hk|]. split; [|auto].
    intros Hs. split; [exact Hs|]. intros k Hk. inversion Hk.
  - destruct (Hf m w) as (b & w1 & E). rewrite (bind_eq _ _ _ _ _ E).
    set (acc1 := mkSyncResult (success acc && b) (<[name m := b]> (results acc))).
    destruct (IH acc1 w1) as (r & w' & E' & Hout & Hin & Hall & Hconv).
    exists r, w'. split; [exact E'|].
    assert (Hm : name m ∉ List.map name l -> results r !! name m = Some b).
    { intros Hn. rewrite (Hout _ Hn). unfold acc1. cbn. apply lookup_insert_eq. }
    split; [|split; [|split]].
    + intros k Hk. rewrite not_elem_of_cons in Hk. destruct Hk as [Hkm Hkl].
      rewrite (Hout k Hkl). unfold acc1. cbn. now rewrite lookup_insert_ne.
    + intros k Hk. apply elem_of_cons in Hk.
      destruct (decide (k ∈ List.map name l)) as [Hl|Hl]; [now apply Hin|].
      destruct Hk as [-> | Hk]; [|contradiction]. rewrite (Hm Hl). eauto.
    + intros Hs. destruct (Hall Hs) as [Ha Hk]. unfold acc1 in Ha. cbn in Ha.
      apply andb_true_iff in Ha. destruct Ha as [Ha ->]. split; [exact Ha|].
      intros k Hin'. apply elem_of_cons in Hin'.
      destruct (decide (k ∈ List.map name l)) as [Hl|Hl]; [now apply Hk|].
      destruct Hin' as [-> | Hin']; [|contradiction]. now apply Hm.
    + intros Hnd Hs Ht. apply NoDup_cons in Hnd. destruct Hnd as [Hnm Hnd].
      apply (Hconv Hnd).
      * unfold acc1. cbn. rewrite Hs. cbn.
        specialize (Ht (name m) ltac:(apply elem_of_cons; now left)).
        rewrite (Hm Hnm) in Ht. congruence.
      * intros k Hk. apply Ht. apply elem_of_cons. now right.
Qed.

Lemma for_modules_reports f l w :
  (forall m, returns (f m)) ->
  exists r w', for_modules f l (mkSyncResult true ∅) w = (Ok r, w') /\ reports l r.
Proof.
  intros Hf.
  destruct (for_modules_run f l Hf (mkSyncResult true ∅) w)
    as (r & w' & E & Hout & Hin & Hall & Hconv).
  exists r, w'. split; [exact E|]. cbn in *.
  assert (Hdom : forall k, is_Some (results r !! k) -> k ∈ List.map name l).
  { intros k Hk. destruct (decide (k ∈ List.map name l)) as [Hl|Hl]; [exact Hl|].
    rewrite (Hout k Hl), lookup_empty in Hk. now destruct Hk. }
  split; [|split].
  - intros k. split; [apply Hdom|apply Hin].
  - intros Hs k b Hk. destruct (Hall Hs) as [_ Ht].
    rewrite (Ht k) in Hk; [congruence|]. apply Hdom. eauto.
  - intros Hnd Ht. apply (Hconv Hnd eq_refl).
    intros k Hk. destruct (Hin k Hk) as [b Hb]. now rewrite Hb, (Ht k b Hb).
Qed.


End Batches.

(** ** What the operations on the repository leave alone *)

Section Local.

Context {platform : Platform} {remote_end : Remote}.

Lemma same_local_refl w : same_local w w.
Proof. now repeat split. Qed.

Lemma same_local_trans w1 w2 w3 :
  same_local w1 w2 -> same_local w2 w3 -> same_local w1 w3.
Proof. intros (a & b & c) (d & e & f). repeat split; congruence. Qed.

Lemma same_local_reads w w' : reads w w' -> same_local w w'.
Proof. intros [c h s _ _ _ _]. now repeat split. Qed.

Lemma keeps_ret {A} (a : A) : keeps (ret a).
Proof. intros w. apply same_local_refl. Qed.

Lemma keeps_throw {A} e : keeps (@throw _ A e).
Proof. intros w. apply same_local_refl. Qed.

Lemma keeps_get : keeps get.
Proof. intros w. apply same_local_refl. Qed.

Lemma keeps_lift {A} (r : Res A) : keeps (lift r).
Proof. intros w. apply same_local_refl. Qed.

Lemma keeps_or_throw {A} e (o : option A) : keeps (or_throw e o).
Proof. destruct o; [apply keeps_ret|apply keeps_throw]. Qed.

Lemma keeps_bind {A B} (m : M A) (f : A -> M B) :
  keeps m -> (forall a, keeps (f a)) -> keeps (bind m f).
Proof.
  intros Hm Hf w. unfold bind. specialize (Hm w).
  destruct (m w) as [[a|e] w1]; cbn [snd] in *; [|exact Hm].
  exact (same_local_trans _ _ _ Hm (Hf a w1)).
Qed.

Lemma keeps_try_catch {A} (m : M A) (h : Exn -> M A) :
  keeps m -> (forall e, keeps (h e)) -> keeps (try_catch m h).
Proof.
  intros Hm Hh w. unfold try_catch. specialize (Hm w).
  destruct (m w) as [[a|e] w1]; cbn [snd] in *; [exact Hm|].
  exact (same_local_trans _ _ _ Hm (Hh e w1)).
Qed.

Lemma keeps_modify f : (forall w, same_local w (f w)) -> keeps (modify f).
Proof. intros H w. apply H. Qed.

Lemma keeps_advance_to t : keeps (advance_to t).
Proof. intros w. apply same_local_reads, reads_advance. Qed.

Lemma keeps_fetch r : keeps (fetch r).
Proof.
  intros w. unfold fetch. destruct (serve r (remote w)) as [[reply latency] repo'].
  now repeat split.
Qed.

Lemma keeps_map_M {A B} (f : A -> M B) l : (forall a, keeps (f a)) -> keeps (map_M f l).
Proof.
  intros Hf. induction l as [|a l IH]; cbn [map_M]; [apply keeps_ret|].
  apply keeps_bind; [apply Hf|]. intros b.
  apply keeps_bind; [apply IH|]. intros bs. apply keeps_ret.
Qed.

Lemma keeps_filter_M {A} (f : A -> M bool) l :
  (forall a, keeps (f a)) -> keeps (filter_M f l).
Proof.
  intros Hf. induction l as [|a l IH]; cbn [filter_M]; [apply keeps_ret|].
  apply keeps_bind; [apply Hf|]. intros b.
  apply keeps_bind; [apply IH|]. intros bs. apply keeps_ret.
Qed.

Lemma keeps_getProp v k : keeps (getProp v k).
Proof. destruct v; first [apply keeps_ret|apply keeps_throw]. Qed.

Lemma keeps_getPropOpt v k : keeps (getPropOpt v k).
Proof. destruct v; first [apply keeps_ret|apply keeps_throw]. Qed.

End Local.

Ltac keeps_step :=
  first
    [ apply keeps_ret | apply keeps_throw | apply keeps_get | apply keeps_lift
    | apply keeps_or_throw | apply keeps_advance_to | apply keeps_fetch
    | apply keeps_getProp | apply keeps_getPropOpt
    | apply keeps_bind; [|intros ?]
    | apply keeps_try_catch; [|intros ?]
    | apply keeps_map_M; intros ?
    | apply keeps_filter_M; intros ?
    | apply keeps_modify; intros ?; now repeat split
    | match goal with
      | |- keeps (if ?b then _ else _) => destruct b
      | |- keeps (match ?x with _ => _ end) => destruct x
      | |- keeps (let (_, _) := ?x in _) => destruct x
      end ].

Section LocalOperations.

Context {platform : Platform} {remote_end : Remote}.

Lemma keeps_getRepoPath : keeps getRepoPath.
Proof. unfold getRepoPath. repeat keeps_step. Qed.

Lemma keeps_apiRequest endpoint method body : keeps (apiRequest endpoint method body).
Proof.
  unfold apiRequest, apiRequest_start, getApiBase, await. repeat keeps_step.
Qed.

Lemma keeps_json r : keeps (json r).
Proof. unfold json, read_body. repeat keeps_step. Qed.

Lemma keeps_read_body r : keeps (read_body r).
Proof. unfold read_body. repeat keeps_step. Qed.

Lemma keeps_getFileContent path : keeps (getFileContent path).
Proof.
  intros w. destruct (getFileContent_spec path w) as (f & w' & -> & R).
  now apply same_local_reads.
Qed.

Lemma keeps_contents_endpoint path : keeps (contents_endpoint path).
Proof. unfold contents_endpoint. apply keeps_bind; [apply keeps_getRepoPath|]. intros; apply keeps_ret. Qed.

Lemma keeps_encode_content content : keeps (encode_content content).
Proof. unfold encode_content. repeat keeps_step. Qed.

Lemma keeps_has_sha sha : keeps (has_sha sha).
Proof. unfold has_sha. repeat keeps_step. Qed.

End LocalOperations.

Ltac keeps_op :=
  repeat first
    [ apply keeps_apiRequest | apply keeps_json | apply keeps_read_body
    | apply keeps_getFileContent | apply keeps_contents_endpoint
    | apply keeps_encode_content | apply keeps_has_sha | apply keeps_getRepoPath
    | keeps_step ].

Section LocalFrame.

Context {platform : Platform} {remote_end : Remote}.

Lemma keeps_createOrUpdateFile path content message sha :
  keeps (createOrUpdateFile path content message sha).
Proof.
  unfold createOrUpdateFile, createNewFileForGitee, tryPostCreate, tryCreateThenUpdate,
    tryPutWithEmptySha, write_acknowledged.
  keeps_op.
Qed.

Lemma keeps_deleteFile path message : keeps (deleteFile path message).
Proof. unfold deleteFile. keeps_op. Qed.

Lemma keeps_checkSyncStatus dataModules : keeps (checkSyncStatus dataModules).
Proof.
  unfold checkSyncStatus, check_start, check_finish, settled, getLocalDataHash, callGetData.
  keeps_op.
  - unfold getFileContent_start, apiRequest_start, getApiBase. keeps_op.
  - unfold getFileContent_finish, await, decode_property. keeps_op.
Qed.

End LocalFrame.

Section LocalState.

Context {platform : Platform} {remote_end : Remote}.

(** The reads and writes of the repository, the status check and the
    clean-up change neither the configuration, nor the hash baselines,
    nor the local storage, whatever the repository answers. *)
Theorem repository_operations_keep_local dataModules :
  (forall path, keeps (getFileContent path))
  /\ (forall path content message sha, keeps (createOrUpdateFile path content message sha))
  /\ (forall path message, keeps (deleteFile path message))
  /\ keeps (checkSyncStatus dataModules)
  /\ keeps (cleanupCloudFiles dataModules)
  /\ keeps getRepoInfo
  /\ keeps checkRepositoryExists
  /\ (forall path, keeps (listFiles path))
  /\ keeps getSyncFiles.
Proof.
  split; [apply keeps_getFileContent|]. split; [apply keeps_createOrUpdateFile|].
  split; [apply keeps_deleteFile|]. split; [apply keeps_checkSyncStatus|].
  assert (Hl : forall path, keeps (listFiles path)).
  { intros path. unfold listFiles, git_file. keeps_op. }
  split.
  { unfold cleanupCloudFiles. generalize (mkSyncResult true ∅).
    induction dataModules as [|m l IH]; intros acc; cbn [for_modules]; [apply keeps_ret|].
    apply keeps_bind; [apply keeps_deleteFile|]. intros r. apply IH. }
  split; [unfold getRepoInfo; keeps_op|].
  split; [unfold checkRepositoryExists; keeps_op|].
  split; [exact Hl|].
  unfold getSyncFiles, name_starts_with. apply keeps_try_catch; [|intros; apply keeps_ret].
  apply keeps_bind; [apply Hl|]. intros files. keeps_op.
Qed.

(** A pull that reports failure has changed neither the local storage,
    nor the baselines, nor the configuration; one that reports success
    has stored what the module's [setData] made of the [data] of the
    file, and taken the [hash] of the file as the baseline. *)
Theorem pull_all_or_nothing module w :
  let r := fst (syncModuleFromCloud module w) in
  let w' := snd (syncModuleFromCloud module w) in
  (r = Ok false -> same_local w w')
  /\ (r = Ok true ->
      exists data hash s,
        setData module data (localStorage w) = Ok s
        /\ localStorage w' = s
        /\ localHashCache w' = <[name module := hash]> (localHashCache w)
        /\ config w' = config w
        /\ last (trace w') = Some (EvSetData (name module) data)).
Proof.
  cbv zeta. unfold syncModuleFromCloud, try_catch.
  destruct (getFileContent_spec (sync_filename module) w) as (f & w1 & E & R).
  pose proof (same_local_reads _ _ R) as L.
  rewrite (bind_eq _ _ _ _ _ E).
  destruct f as [f|]; [|cbn; split; [auto|discriminate]].
  destruct (JSON_parse (file_content f)) as [syncData|]; cbn [or_throw];
    [|cbn; split; [auto|discriminate]].
  rewrite (bind_eq (ret syncData) _ w1 syncData w1 eq_refl).
  assert (Hp : forall k, (exists v, getProp syncData k w1 = (Ok v, w1))
                         \/ (exists e, forall k', getProp syncData k' w1 = (Throw e, w1))).
  { intros k. destruct syncData; cbn; eauto. }
  destruct (Hp (js "data")) as [(data & Hd) | (e & He)];
    [|rewrite (bind_throw _ _ _ _ _ (He (js "data"))); cbn; split; [auto|discriminate]].
  rewrite (bind_eq _ _ _ _ _ Hd).
  destruct (Hp (js "hash")) as [(hash & Hh) | (e & He)];
    [|rewrite (bind_throw _ _ _ _ _ (He (js "hash"))); cbn; split; [auto|discriminate]].
  rewrite (bind_eq _ _ _ _ _ Hh).
  unfold callSetData, hashCache_set. cbv beta iota delta [bind modify get lift ret].
  cbn [localStorage log]. destruct L as (Lc & Lh & Ls).
  destruct (setData module data (localStorage w1)) as [s|e] eqn:Hs; cbn [fst snd].
  - split; [discriminate|]. intros _. exists data, hash, s.
    rewrite <- Ls. split; [exact Hs|]. cbn. rewrite Lh, Lc.
    split; [reflexivity|]. split; [reflexivity|]. split; [reflexivity|].
    apply last_snoc.
  - split; [|discriminate]. intros _. now repeat split.
Qed.

End LocalState.

Section PushBaseline.

Context {platform : Platform} {remote_end : Remote}.

(** A push never touches the local storage or the configuration. When
    it reports success the hash of what was pushed is the module's
    baseline, so that the module is not reported as changed as long as
    its data stay the same; when it reports failure the baselines are
    as they were. *)
Theorem push_records_baseline module w d :
  getData module (now w) (localStorage w) = Ok d ->
  let r := fst (syncModuleToCloud module w) in
  let w' := snd (syncModuleToCloud module w) in
  (r = Ok true \/ r = Ok false)
  /\ localStorage w' = localStorage w
  /\ config w' = config w
  /\ (r = Ok true ->
      localHashCache w' = <[name module := VStr (generateDataHash d)]> (localHashCache w)
      /\ (getData module (now w') (localStorage w') = Ok d ->
          hasDataChanged module w' = (Ok false, w')))
  /\ (r = Ok false -> localHashCache w' = localHashCache w).
Proof.
  intros Hd. cbv zeta. unfold syncModuleToCloud, try_catch.
  rewrite (bind_eq (callGetData module) _ w d w)
    by (now rewrite callGetData_eq, Hd).
  rewrite (bind_eq get _ w w w eq_refl).
  destruct (getFileContent_spec (sync_filename module) w) as (f & w1 & E & R).
  pose proof (same_local_reads _ _ R) as (Lc & Lh & Ls).
  rewrite (bind_eq _ _ _ _ _ E). rewrite (bind_eq get _ w1 w1 w1 eq_refl).
  match goal with
  | |- context [bind (createOrUpdateFile ?p ?c ?m ?s) _ w1] =>
      pose proof (keeps_createOrUpdateFile p c m s w1) as (Kc & Kh & Ks);
      destruct (returns_try_catch
                  (A := bool) _ false w1 : exists b w2,
                   createOrUpdateFile p c m s w1 = (Ok b, w2)) as (b & w2 & E2);
      rewrite E2 in Kc, Kh, Ks; cbn [snd] in Kc, Kh, Ks;
      rewrite (bind_eq _ _ _ _ _ E2)
  end.
  destruct b; unfold hashCache_set; cbv beta iota delta [bind modify ret]; cbn [fst snd].
  - split; [now left|]. cbn. split; [congruence|]. split; [congruence|].
    split; [|discriminate]. intros _. split; [congruence|].
    intros Hd'. apply (observation_same module _ d); [exact Hd'|].
    unfold hashCache_get. cbn. now rewrite lookup_insert_eq.
  - split; [now right|]. split; [congruence|]. split; [congruence|].
    split; [discriminate|]. intros _. congruence.
Qed.

End PushBaseline.

(** ** The request cache *)

Section RequestCache.

Context {platform : Platform} {remote_end : Remote}.

Lemma lookup_after_timers (due : list (Z * jsstring)) :
  forall (m : gmap jsstring Promise) k v,
    fold_left (fun m '(_, k) => delete k m) due m !! k = Some v -> m !! k = Some v.
Proof.
  induction due as [|[t k'] due IH]; intros m k v; cbn [fold_left]; [auto|].
  intros H. apply IH in H. apply lookup_delete_Some in H. apply H.
Qed.

Lemma lookup_awaited p w k v :
  requestCache (awaited p w) !! k = Some v -> requestCache w !! k = Some v.
Proof. cbn. apply lookup_after_timers. Qed.

Lemma second_read_null path c p w0 :
  config w0 = Some c ->
  requestCache w0 !! cache_key (read_request c path) = Some p ->
  let w1 := snd (getFileContent_finish (Some p) w0) in
  is_Some (requestCache w1 !! cache_key (read_request c path)) ->
  exists w2, getFileContent path w1 = (Ok None, w2)
             /\ trace w2 = trace w1 /\ remote w2 = remote w1.
Proof.
  intros Hc Hp w1 [v Hv].
  assert (H1 : config w1 = Some c /\ requestCache w1 = requestCache (awaited p w0)
               /\ forall r, outcome p = Some r -> ok r = true -> rid r ∈ bodyUsed w1).
  { unfold w1. rewrite getFileContent_finish_eq.
    destruct (outcome p) as [r|]; [|split; [exact Hc|split; [reflexivity|discriminate]]].
    destruct (ok r) eqn:Hok;
      [|split; [exact Hc|split; [reflexivity|intros ? [= <-]; congruence]]].
    destruct (bool_decide (rid r ∈ bodyUsed (awaited p w0))) eqn:Hb.
    - split; [exact Hc|]. split; [reflexivity|]. intros r' [= <-] _.
      now apply bool_decide_eq_true in Hb.
    - split; [exact Hc|]. split; [reflexivity|]. intros r' [= <-] _.
      cbn [snd set_bodyUsed bodyUsed]. apply elem_of_cons. now left. }
  destruct H1 as (Hc1 & Hk1 & Hu1).
  assert (Hv' : requestCache w1 !! cache_key (read_request c path) = Some p).
  { rewrite Hv. f_equal. rewrite Hk1 in Hv. apply lookup_awaited in Hv. congruence. }
  unfold getFileContent, bind.
  rewrite (getFileContent_start_eq path w1 c Hc1), Hv', getFileContent_finish_eq.
  assert (T : trace (awaited p w1) = trace w1) by reflexivity.
  assert (R : remote (awaited p w1) = remote w1) by reflexivity.
  assert (B : bodyUsed (awaited p w1) = bodyUsed w1) by reflexivity.
  destruct (outcome p) as [r|]; [|eauto].
  destruct (ok r) eqn:Hok; [|eauto].
  rewrite B, bool_decide_eq_true_2 by (now apply Hu1). eauto.
Qed.

(** A file that is read a second time while the first request is still
    in the request cache is not found: nothing is sent, and the cached
    response either was a failure or has had its body read, so that the
    result is [null] whatever the repository holds. *)
Theorem repeated_read_is_null path w c :
  config w = Some c ->
  let w1 := snd (getFileContent path w) in
  is_Some (requestCache w1 !! cache_key (read_request c path)) ->
  exists w2, getFileContent path w1 = (Ok None, w2)
             /\ trace w2 = trace w1 /\ remote w2 = remote w1.
Proof.
  intros Hc. unfold getFileContent at 1, bind.
  rewrite (getFileContent_start_eq path w c Hc).
  destruct (requestCache w !! cache_key (read_request c path)) as [p|] eqn:K.
  - apply (second_read_null path c p w Hc K).
  - apply (second_read_null path c (promise_of w (read_request c path))
             (launched w (read_request c path))); [exact Hc|].
    cbn. apply lookup_insert_eq.
Qed.

(** A read that is not answered from the request cache sends its one
    request; after [clearCache] every read is such a read. *)
Theorem read_after_clearCache path w c :
  config w = Some c ->
  let w1 := snd (clearCache w) in
  config w1 = Some c
  /\ localHashCache w1 = ∅
  /\ trace (snd (getFileContent path w1))
     = trace w ++ [EvFetch (read_request c path)]
  /\ remote (snd (getFileContent path w1))
     = snd (exchange (read_request c path) (remote w)).
Proof.
  intros Hc w1. split; [exact Hc|]. split; [reflexivity|].
  assert (K : requestCache w1 !! cache_key (read_request c path) = None)
    by apply lookup_empty.
  rewrite (getFileContent_fresh path w1 c Hc K).
  destruct (getFileContent_finish_spec
              (Some (promise_of w1 (read_request c path)))
              (launched w1 (read_request c path)))
    as (f & w2 & -> & _ & T & R & _).
  cbn [snd]. rewrite T, R. split; reflexivity.
Qed.

End RequestCache.

(** ** What a pull takes from the file *)

Section PullFile.

Context {platform : Platform} {remote_end : Remote}.

(** A pull takes the [data] and the [hash] of the file as they are:
    the module is given the [data], and the [hash] becomes its baseline
    whether or not it is the hash of the [data]; a mismatch only leaves
    a warning on the console. *)
Theorem pull_takes_file_hash module w c reply jsonText sha fields :
  config w = Some c -> wf w ->
  requestCache w !! cache_key (read_request c (sync_filename module)) = None ->
  fst (exchange (read_request c (sync_filename module)) (remote w)) = Some reply ->
  accepted reply = true ->
  file_of_body (reply_text reply) = Some (mkFileInfo jsonText sha) ->
  JSON_parse jsonText = Some (VObj fields) ->
  let data := property (VObj fields) (js "data") in
  let hash := property (VObj fields) (js "hash") in
  exists w',
    syncModuleFromCloud module w
    = (Ok (match setData module data (localStorage w) with
           | Ok _ => true
           | Throw _ => false
           end), w')
    /\ trace w' = trace w ++ [EvFetch (read_request c (sync_filename module));
                              EvSetData (name module) data]
    /\ (forall s, setData module data (localStorage w) = Ok s ->
                  localStorage w' = s
                  /\ localHashCache w' = <[name module := hash]> (localHashCache w)).
Proof.
  intros Hc Hwf Hk Hr Hacc Hfile Hparse. cbv zeta. cbn [property].
  set (data := default VUndefined (own_property (js "data") fields)).
  set (hash := default VUndefined (own_property (js "hash") fields)).
  unfold syncModuleFromCloud. cbv beta iota delta [try_catch bind].
  rewrite (getFileContent_fresh _ w c Hc Hk), getFileContent_finish_eq.
  unfold promise_of at 1. cbn [outcome]. unfold exchange in Hr. cbn [fst] in Hr.
  rewrite Hr. rewrite ok_received, Hacc. cbn [rid text].
  rewrite bool_decide_eq_false_2; cycle 1.
  { cbn. intros Hin. destruct Hwf as [Hu _]. specialize (Hu _ Hin). lia. }
  rewrite Hfile. cbv beta iota. cbn [file_content]. rewrite Hparse.
  cbn [or_throw ret]. cbv beta iota. cbn [getProp ret]. cbv beta iota.
  fold data. fold hash.
  unfold callSetData. cbv beta iota delta [bind modify get lift].
  cbn [localStorage log set_bodyUsed awaited].
  assert (Hs : forall p r, localStorage (awaited p (launched w r)) = localStorage w)
    by reflexivity.
  rewrite Hs. unfold hashCache_set, modify.
  destruct (setData module data (localStorage w)) as [s|e]; cbv beta iota.
  - eexists. split; [reflexivity|]. cbn. rewrite <- app_assoc.
    split; [reflexivity|]. intros s' [= <-]. now split.
  - eexists. split; [reflexivity|]. cbn. rewrite <- app_assoc.
    split; [reflexivity|]. discriminate.
Qed.

End PullFile.

(** ** Deleting a file *)

Section Deletion.

Context {platform : Platform} {remote_end : Remote}.

(** [deleteFile] of a file that the read finds, with content: the read
    is followed by one DELETE request, which carries the token that was
    read and the branch, and the result is whether that request was
    accepted. *)
Theorem deleteFile_sends_token path message w c reply f :
  config w = Some c -> wf w ->
  requestCache w !! cache_key (read_request c path) = None ->
  fst (exchange (read_request c path) (remote w)) = Some reply ->
  accepted reply = true ->
  file_of_body (reply_text reply) = Some f ->
  let st := snd (exchange (read_request c path) (remote w)) in
  let del :=
    write_request c DELETE path
      [(js "message", VStr message); (js "sha", file_sha f);
       (js "branch", VStr (or_default (branch c) (js "main")))] in
  exists w',
    deleteFile path message w = (Ok (answered_ok (fst (exchange del st))), w')
    /\ trace w' = trace w ++ [EvFetch (read_request c path); EvFetch del]
    /\ remote w' = snd (exchange del st).
Proof.
  intros Hc Hwf Hk Hr Hacc Hfile st del.
  unfold deleteFile, try_catch.
  assert (E : exists w1,
             getFileContent path w = (Ok (Some f), w1)
             /\ config w1 = Some c
             /\ trace w1 = trace w ++ [EvFetch (read_request c path)]
             /\ remote w1 = st).
  { rewrite (getFileContent_fresh _ w c Hc Hk), getFileContent_finish_eq.
    unfold promise_of at 1. cbn [outcome]. unfold exchange in Hr. cbn [fst] in Hr.
    rewrite Hr. rewrite ok_received, Hacc. cbn [rid text].
    rewrite bool_decide_eq_false_2; cycle 1.
    { cbn. intros Hin. destruct Hwf as [Hu _]. specialize (Hu _ Hin). lia. }
    rewrite Hfile. eexists. split; [reflexivity|]. cbn. auto. }
  destruct E as (w1 & E & Hc1 & Ht1 & Hr1).
  rewrite (bind_eq _ _ _ _ _ E).
  rewrite (bind_eq _ _ _ _ _ (contents_endpoint_eq path c w1 Hc1)).
  rewrite (bind_eq get _ w1 w1 w1 eq_refl).
  rewrite (branch_or_eq _ c w1 Hc1).
  fold (contents_path c path).
  match goal with
  | |- context [bind (apiRequest ?e ?m ?b) ?k w1] =>
      pose proof (wp_apiRequest_write e m b c
                    (fun r w' =>
                       written (request_of c e m b) w1 w'
                       /\ r = received (nextId w1)
                                (fst (exchange (request_of c e m b) (remote w1))))
                    w1 Hc1 eq_refl) as W
  end.
  unfold wp in W. specialize (W (fun w' H => conj H eq_refl)).
  fold (write_request c DELETE path
          [(js "message", VStr message); (js "sha", file_sha f);
           (js "branch", VStr (or_default (branch c) (js "main")))]) in W.
  fold del in W.
  unfold bind.
  destruct (apiRequest _ DELETE _ w1) as [r w2]. cbn [fst snd] in W.
  destruct W as [W ->]. rewrite Hr1.
  destruct W as [_ _ _ _ _ _ T R]. rewrite Hr1 in R. rewrite Ht1 in T.
  destruct (fst (exchange del st)) as [a|]; cbn [received answered_ok].
  - exists w2. rewrite ok_received. split; [reflexivity|].
    rewrite T, <- app_assoc. now split.
  - exists w2. split; [reflexivity|]. rewrite T, <- app_assoc. now split.
Qed.

End Deletion.

(** ** The directory of the repository *)

Section Directory.

Context {platform : Platform} {remote_end : Remote}.

(** A read that is not answered from the cache. *)
Lemma apiRequest_get_eq endpoint w c :
  config w = Some c ->
  let req := request_of c endpoint GET None in
  requestCache w !! cache_key req = None ->
  apiRequest endpoint GET None w
  = (received (nextId w) (fst (exchange req (remote w))),
     awaited (promise_of w req) (launched w req)).
Proof.
  intros Hc req Hk. unfold apiRequest, apiRequest_start, getApiBase, await.
  cbv beta iota delta [bind get ret throw].
  rewrite Hc. cbv beta iota. rewrite Hc. cbv beta iota.
  fold (api_base c). cbn [is_get].
  change (mkRequest GET (api_base c ++ js "/" ++ endpoint) (js "token " ++ token c) None)
    with req.
  change (method_name GET ++ js "-" ++ api_base c ++ js "/" ++ endpoint)
    with (cache_key req).
  rewrite Hk. unfold fetch, launched, promise_of, awaited, exchange, modify.
  destruct (serve req (remote w)) as [[reply latency] repo'].
  cbn [fst snd]. cbv beta iota delta [or_throw ret throw advance_to modify].
  cbn [settleAt outcome fst snd]. now destruct reply.
Qed.

Lemma json_eq r w :
  rid r ∉ bodyUsed w ->
  json r w = (match JSON_parse (text r) with
              | Some v => Ok v
              | None => Throw SyntaxError
              end, set_bodyUsed (rid r :: bodyUsed w) w).
Proof.
  intros H. unfold json, bind. rewrite (read_body_eq r w H).
  now destruct (JSON_parse (text r)).
Qed.

Lemma getProp_record item k w :
  is_record item = true -> getProp item k w = (Ok (property item k), w).
Proof. destruct item; try discriminate; reflexivity. Qed.

Lemma filter_type items w :
  filter_M (fun item => let* type := getProp item (js "type") in
                        ret (is_string type (js "file"))) items w
  = if forallb is_record items then (Ok (List.filter is_file_entry items), w)
    else (Throw TypeError, w).
Proof.
  induction items as [|a l IH]; [reflexivity|].
  cbn [filter_M forallb List.filter].
  destruct (is_record a) eqn:Ha; cbn [andb].
  - rewrite (bind_eq _ _ w (is_file_entry a) w)
      by (unfold bind; now rewrite (getProp_record a _ w Ha)).
    destruct (forallb is_record l).
    + rewrite (bind_eq _ _ _ _ _ IH). cbn [ret]. now destruct (is_file_entry a).
    + now rewrite (bind_throw _ _ _ _ _ IH).
  - apply bind_throw. unfold bind. now destruct a.
Qed.

Lemma map_git_file files w :
  forallb is_record files = true ->
  map_M git_file files w = (Ok (List.map file_entry files), w).
Proof.
  induction files as [|a l IH]; [reflexivity|].
  cbn [forallb map_M List.map]. intros H. apply andb_true_iff in H. destruct H as [Ha Hl].
  rewrite (bind_eq _ _ w (file_entry a) w).
  - now rewrite (bind_eq _ _ _ _ _ (IH Hl)).
  - unfold git_file. cbv beta iota delta [bind].
    now rewrite !(getProp_record a _ w Ha).
Qed.

Lemma forallb_filter {A} (p q : A -> bool) l :
  forallb p l = true -> forallb p (List.filter q l) = true.
Proof.
  induction l as [|a l IH]; [reflexivity|]. cbn. intros H.
  apply andb_true_iff in H. destruct H as [Ha Hl].
  destruct (q a); cbn; rewrite ?Ha; auto.
Qed.

(** [listFiles] on a read that is not answered from the cache: one
    request; of an accepted answer the entries of type ['file'] are
    returned, each cut down to its name, token, size, download address
    and path; every other answer, a listing that is no array, and a
    listing with a [null] in it give the empty list. *)
Theorem listFiles_lists path w c :
  config w = Some c -> wf w ->
  requestCache w !! cache_key (list_request c path) = None ->
  let a := fst (exchange (list_request c path) (remote w)) in
  fst (listFiles path w)
  = Ok (match a with
        | Some reply => if accepted reply then directory (reply_text reply) else []
        | None => []
        end)
  /\ trace (snd (listFiles path w)) = trace w ++ [EvFetch (list_request c path)].
Proof.
  intros Hc Hwf Hk a. unfold listFiles, try_catch.
  rewrite (bind_eq _ _ _ _ _ (contents_endpoint_eq path c w Hc)).
  fold (contents_path c path).
  pose proof (apiRequest_get_eq (contents_path c path) w c Hc Hk) as E.
  fold (list_request c path) in E. fold a in E.
  set (w1 := awaited _ _) in E.
  assert (T : trace w1 = trace w ++ [EvFetch (list_request c path)]) by reflexivity.
  assert (U : nextId w ∉ bodyUsed w1).
  { cbn. intros Hin. destruct Hwf as [Hu _]. specialize (Hu _ Hin). lia. }
  destruct a as [reply|]; cbn [received] in E;
    [rewrite (bind_eq _ _ _ _ _ E)|rewrite (bind_throw _ _ _ _ _ E); now split].
  rewrite ok_received. destruct (accepted reply); [|now split].
  set (r := mkResponse (nextId w) (reply_status reply) (reply_text reply)).
  pose proof (json_eq r w1 U) as J. cbn [text r] in J.
  set (w2 := set_bodyUsed _ w1) in J.
  assert (T2 : trace w2 = trace w ++ [EvFetch (list_request c path)]) by reflexivity.
  unfold directory.
  destruct (JSON_parse (reply_text reply)) as [data|];
    [rewrite (bind_eq _ _ _ _ _ J)|rewrite (bind_throw _ _ _ _ _ J); now split].
  destruct data as [| |b|n|s|items|fields]; try now split.
  unfold bind. rewrite filter_type.
  destruct (forallb is_record items) eqn:Hall; [|now split].
  rewrite map_git_file by (now apply forallb_filter). now split.
Qed.

Lemma filter_M_sound {A} (f : A -> M bool) (P : A -> Prop) l :
  (forall a w0 w1, f a w0 = (Ok true, w1) -> P a) ->
  forall w l' w', filter_M f l w = (Ok l', w') -> Forall P l'.
Proof.
  intros Hf. induction l as [|a l IH]; intros w l' w'; cbn [filter_M].
  - intros [= <- <-]. constructor.
  - unfold bind at 1. destruct (f a w) as [[b|e] w1] eqn:Ha; [|discriminate].
    unfold bind. destruct (filter_M f l w1) as [[kept|e] w2] eqn:Hl; [|discriminate].
    intros [= <- <-]. specialize (IH _ _ _ Hl).
    destruct b; [constructor; [exact (Hf _ _ _ Ha)|exact IH]|exact IH].
Qed.

(** [getSyncFiles] never raises, and the files it returns all have a
    name that starts with the prefix of the sync files. *)
Theorem getSyncFiles_only_sync_files w :
  exists files w',
    getSyncFiles w = (Ok files, w')
    /\ Forall (fun f => exists n, property f (js "name") = VStr n
                                  /\ starts_with SYNC_PREFIX n = true) files.
Proof.
  unfold getSyncFiles, try_catch.
  destruct (bind (listFiles []) (filter_M (name_starts_with SYNC_PREFIX)) w)
    as [[files|e] w'] eqn:E.
  - exists files, w'. split; [reflexivity|].
    unfold bind in E. destruct (listFiles [] w) as [[all|e] w1]; [|discriminate].
    refine (filter_M_sound _ _ _ _ _ _ _ E).
    intros a w0 w2 H. unfold name_starts_with, bind in H.
    destruct (getProp a (js "name") w0) as [[n|e] w3] eqn:G; [|discriminate].
    destruct n as [| |b|n|s|items|fields]; try discriminate.
    injection H as H _. exists s. split; [|exact H].
    destruct a; cbn in G; try discriminate; injection G as G _; try discriminate.
    exact G.
  - exists [], w'. split; [reflexivity|constructor].
Qed.

End Directory.

(** ** The registry *)

Section RegistryFacts.

Context {platform : Platform}.

(** [getDataModule] finds a registered module under its name when the
    names of the registry differ, and nothing under another name; the
    search by file name that [autoSync] makes finds it in the same way
    when the file names differ. *)
Theorem getDataModule_finds dataModules module :
  module ∈ dataModules ->
  (NoDup (List.map name dataModules) ->
   getDataModule dataModules (name module) = Some module)
  /\ (NoDup (List.map filename dataModules) ->
      forall status, st_filename status = filename module ->
                     module_of dataModules status = Some module)
  /\ (forall n, n ∉ List.map name dataModules -> getDataModule dataModules n = None).
Proof.
  intros Hin. unfold getDataModule, module_of.
  assert (F : forall (key : DataModule -> jsstring) l m,
             m ∈ l -> NoDup (List.map key l) ->
             List.find (fun x => bool_decide (key x = key m)) l = Some m).
  { intros key l m. induction l as [|a l IH]; intros Hm Hnd; [inversion Hm|].
    cbn [List.map] in Hnd. apply NoDup_cons in Hnd. destruct Hnd as [Ha Hnd].
    cbn [List.find]. apply elem_of_cons in Hm. destruct Hm as [<- | Hm].
    - now rewrite bool_decide_eq_true_2.
    - rewrite bool_decide_eq_false_2; [now apply IH|].
      intros E. apply Ha. rewrite E. apply list_elem_of_In, in_map.
      now apply list_elem_of_In. }
  split; [apply (F name), Hin|]. split.
  - intros Hnd status ->. now apply (F filename).
  - intros n Hn. clear Hin F. induction dataModules as [|a l IH]; [reflexivity|].
    cbn [List.map] in Hn. rewrite not_elem_of_cons in Hn. destruct Hn as [Hna Hnl].
    cbn [List.find]. rewrite bool_decide_eq_false_2 by congruence. now apply IH.
Qed.

Lemma parse_item_stored k d v s text :
  text <> [] -> JSON_parse text = Some v ->
  parse_item k d (<[k := text]> s) = Ok v.
Proof.
  intros Hne Hp. unfold parse_item. rewrite lookup_insert_eq.
  destruct text as [|u r]; [contradiction|]. cbn [or_default]. now rewrite Hp.
Qed.

Lemma prop_record v k : is_record v = true -> prop v k = Ok (property v (js k)).
Proof. destruct v; try discriminate; reflexivity. Qed.

Lemma set_get_json k d v s :
  v <> VUndefined -> json_stable v ->
  parse_item (js k) d (set_item_json k v s) = Ok v.
Proof.
  intros Hu [Hne Hp]. unfold set_item_json.
  destruct v; try contradiction; now apply parse_item_stored.
Qed.

Lemma or_value_defined a b : b <> VUndefined -> or_value a b <> VUndefined.
Proof.
  intros Hb. unfold or_value. destruct (truthy a) eqn:T; [|exact Hb].
  intros ->. discriminate T.
Qed.

(** What a module of the registry reads back after [setData], on a
    platform whose JSON gives back the values in question: the calendar
    events come back as they were written; bookmarks, pomodoro data and
    habits come back with every missing or empty component replaced by
    its default; the tasks come back as the two lists that were
    written, each [[]] if it was missing. *)
Theorem registry_reads_back t s d :
  is_record d = true ->
  (json_stable d ->
   exists s', setData calendarEventsModule d s = Ok s'
              /\ getData calendarEventsModule t s' = Ok d)
  /\ (json_stable d ->
      exists s', setData bookmarksModule d s = Ok s'
                 /\ getData bookmarksModule t s'
                    = Ok (VObj [(js "bookmarks",
                                 or_value (property d (js "bookmarks")) (VArr []));
                                (js "groups",
                                 or_value (property d (js "groups")) (VArr []))]))
  /\ (json_stable d ->
      exists s', setData pomodoroModule d s = Ok s'
                 /\ getData pomodoroModule t s'
                    = Ok (VObj [(js "sessions",
                                 or_value (property d (js "sessions")) (VArr []));
                                (js "settings",
                                 or_value (property d (js "settings")) (VObj []))]))
  /\ (json_stable d ->
      exists s', setData habitsModule d s = Ok s'
                 /\ getData habitsModule t s'
                    = Ok (VObj [(js "habits",
                                 or_value (property d (js "habits")) (VArr []));
                                (js "records",
                                 or_value (property d (js "records")) (VArr []));
                                (js "dailyNotes",
                                 or_value (property d (js "dailyNotes")) (VArr []));
                                (js "version",
                                 or_value (property d (js "version")) (VStr (js "1.0.0")));
                                (js "lastUpdated",
                                 or_value (property d (js "lastUpdated"))
                                   (VStr (toISOString t)))]))
  /\ (let tasks := or_value (property d (js "tasks")) (VArr []) in
      let taskGroups := or_value (property d (js "taskGroups")) (VArr []) in
      json_stable tasks -> json_stable taskGroups ->
      exists s', setData tasksModule d s = Ok s'
                 /\ getData tasksModule t s'
                    = Ok (VObj [(js "tasks", tasks); (js "taskGroups", taskGroups)])).
Proof.
  intros Hd.
  assert (Hu : d <> VUndefined) by (destruct d; try discriminate; congruence).
  split; [|split; [|split; [|split]]].
  - intros Hj. eexists. split; [reflexivity|]. cbn [getData calendarEventsModule].
    now apply set_get_json.
  - intros Hj. eexists. split; [reflexivity|]. cbn [getData bookmarksModule].
    rewrite (set_get_json _ _ d s Hu Hj). cbn [bindR].
    now rewrite !(prop_record d _ Hd).
  - intros Hj. eexists. split; [reflexivity|]. cbn [getData pomodoroModule].
    rewrite (set_get_json _ _ d s Hu Hj). cbn [bindR].
    now rewrite !(prop_record d _ Hd).
  - intros Hj. eexists. split; [reflexivity|]. cbn [getData habitsModule].
    rewrite (set_get_json _ _ d s Hu Hj). cbn [bindR].
    now rewrite !(prop_record d _ Hd).
  - intros tasks taskGroups Ht Hg. cbn [setData tasksModule].
    rewrite !(prop_record d _ Hd). cbn [bindR]. fold tasks. fold taskGroups.
    eexists. split; [reflexivity|]. cbn [getData tasksModule].
    assert (Ht' : tasks <> VUndefined) by (apply or_value_defined; discriminate).
    assert (Hg' : taskGroups <> VUndefined) by (apply or_value_defined; discriminate).
    assert (E : parse_item (js "tasks") (js "[]")
                  (set_item_json "taskGroups" taskGroups
                     (set_item_json "tasks" tasks s)) = Ok tasks).
    { unfold parse_item. unfold set_item_json at 1.
      rewrite lookup_insert_ne by (vm_compute; discriminate).
      exact (set_get_json "tasks" (js "[]") tasks s Ht' Ht). }
    rewrite E. cbn [bindR]. now rewrite (set_get_json _ _ taskGroups _ Hg' Hg).
Qed.

End RegistryFacts.

(** ** Reads of the repository *)

Section Reads.

Context {platform : Platform} {remote_end : Remote}.

(** [checkRepositoryExists] and [getRepoInfo], when their read is not
    answered from the cache, send the one request for the repository;
    the first says whether it was accepted, the second returns the
    record of an accepted answer and [null] otherwise. *)
Theorem repository_check w c :
  config w = Some c -> wf w ->
  requestCache w !! cache_key (repo_request c) = None ->
  let a := fst (exchange (repo_request c) (remote w)) in
  fst (checkRepositoryExists w) = Ok (answered_ok a)
  /\ trace (snd (checkRepositoryExists w)) = trace w ++ [EvFetch (repo_request c)]
  /\ fst (getRepoInfo w)
     = Ok (match a with
           | Some reply =>
               if accepted reply
               then default VNull (JSON_parse (reply_text reply))
               else VNull
           | None => VNull
           end)
  /\ trace (snd (getRepoInfo w)) = trace w ++ [EvFetch (repo_request c)].
Proof.
  intros Hc Hwf Hk a.
  pose proof (apiRequest_get_eq (js "repos/" ++ owner c ++ js "/" ++ repo c) w c Hc Hk) as E.
  fold (repo_request c) in E. fold a in E. set (w1 := awaited _ _) in E.
  assert (T : trace w1 = trace w ++ [EvFetch (repo_request c)]) by reflexivity.
  assert (U : nextId w ∉ bodyUsed w1).
  { cbn. intros Hin. destruct Hwf as [Hu _]. specialize (Hu _ Hin). lia. }
  assert (P : getRepoPath w = (Ok (js "repos/" ++ owner c ++ js "/" ++ repo c), w)).
  { unfold getRepoPath. cbv beta iota delta [bind get ret]. now rewrite Hc. }
  split; [|split; [|split]].
  - unfold checkRepositoryExists. cbv beta iota delta [bind get try_catch].
    rewrite Hc. cbv beta iota. rewrite E.
    destruct a as [reply|]; reflexivity.
  - unfold checkRepositoryExists. cbv beta iota delta [bind get try_catch].
    rewrite Hc. cbv beta iota. rewrite E.
    destruct a as [reply|]; exact T.
  - unfold getRepoInfo, try_catch. rewrite (bind_eq _ _ _ _ _ P).
    destruct a as [reply|]; cbn [received] in E;
      [rewrite (bind_eq _ _ _ _ _ E)|now rewrite (bind_throw _ _ _ _ _ E)].
    rewrite ok_received. destruct (accepted reply); [|reflexivity].
    set (r := mkResponse (nextId w) (reply_status reply) (reply_text reply)).
    rewrite (json_eq r w1 U). cbn [text r].
    now destruct (JSON_parse (reply_text reply)).
  - unfold getRepoInfo, try_catch. rewrite (bind_eq _ _ _ _ _ P).
    destruct a as [reply|]; cbn [received] in E;
      [rewrite (bind_eq _ _ _ _ _ E)|now rewrite (bind_throw _ _ _ _ _ E)].
    rewrite ok_received. destruct (accepted reply); [|exact T].
    set (r := mkResponse (nextId w) (reply_status reply) (reply_text reply)).
    rewrite (json_eq r w1 U). cbn [text r].
    now destruct (JSON_parse (reply_text reply)).
Qed.

Lemma only_reads_same {A} (m : M A) :
  (forall w, trace (snd (m w)) = trace w) -> only_reads m.
Proof. intros H w. exists []. rewrite H, app_nil_r. split; [reflexivity|constructor]. Qed.

Lemma only_reads_ret {A} (a : A) : only_reads (ret a).
Proof. now apply only_reads_same. Qed.

Lemma only_reads_throw {A} e : only_reads (@throw _ A e).
Proof. now apply only_reads_same. Qed.

Lemma only_reads_get : only_reads get.
Proof. now apply only_reads_same. Qed.

Lemma only_reads_lift {A} (r : Res A) : only_reads (lift r).
Proof. now apply only_reads_same. Qed.

Lemma only_reads_or_throw {A} e (o : option A) : only_reads (or_throw e o).
Proof. destruct o; [apply only_reads_ret|apply only_reads_throw]. Qed.

Lemma only_reads_modify f : (forall w, trace (f w) = trace w) -> only_reads (modify f).
Proof. intros H. now apply only_reads_same. Qed.

Lemma only_reads_bind {A B} (m : M A) (f : A -> M B) :
  only_reads m -> (forall a, only_reads (f a)) -> only_reads (bind m f).
Proof.
  intros Hm Hf w. unfold bind. destruct (Hm w) as (e1 & T1 & F1).
  destruct (m w) as [[a|e] w1]; cbn [snd] in *; [|eauto].
  destruct (Hf a w1) as (e2 & T2 & F2). exists (e1 ++ e2).
  rewrite T2, T1, app_assoc. split; [reflexivity|]. now apply Forall_app.
Qed.

Lemma only_reads_try_catch {A} (m : M A) (h : Exn -> M A) :
  only_reads m -> (forall e, only_reads (h e)) -> only_reads (try_catch m h).
Proof.
  intros Hm Hh w. unfold try_catch. destruct (Hm w) as (e1 & T1 & F1).
  destruct (m w) as [[a|e] w1]; cbn [snd] in *; [eauto|].
  destruct (Hh e w1) as (e2 & T2 & F2). exists (e1 ++ e2).
  rewrite T2, T1, app_assoc. split; [reflexivity|]. now apply Forall_app.
Qed.

Lemma only_reads_map_M {A B} (f : A -> M B) l :
  (forall a, only_reads (f a)) -> only_reads (map_M f l).
Proof.
  intros Hf. induction l as [|a l IH]; cbn [map_M]; [apply only_reads_ret|].
  apply only_reads_bind; [apply Hf|]. intros b.
  apply only_reads_bind; [apply IH|]. intros bs. apply only_reads_ret.
Qed.

Lemma only_reads_filter_M {A} (f : A -> M bool) l :
  (forall a, only_reads (f a)) -> only_reads (filter_M f l).
Proof.
  intros Hf. induction l as [|a l IH]; cbn [filter_M]; [apply only_reads_ret|].
  apply only_reads_bind; [apply Hf|]. intros b.
  apply only_reads_bind; [apply IH|]. intros bs. apply only_reads_ret.
Qed.

Lemma only_reads_getProp v k : only_reads (getProp v k).
Proof. destruct v; first [apply only_reads_ret|apply only_reads_throw]. Qed.

Lemma only_reads_advance_to t : only_reads (advance_to t).
Proof. now apply only_reads_same. Qed.

Lemma only_reads_fetch r : req_method r = GET -> only_reads (fetch r).
Proof.
  intros Hr w. unfold fetch. destruct (serve r (remote w)) as [[reply latency] repo'].
  exists [EvFetch r]. split; [reflexivity|]. now repeat constructor.
Qed.

End Reads.

Ltac only_reads_step :=
  first
    [ apply only_reads_ret | apply only_reads_throw | apply only_reads_get
    | apply only_reads_lift | apply only_reads_or_throw | apply only_reads_advance_to
    | apply only_reads_getProp
    | apply only_reads_fetch; reflexivity
    | apply only_reads_bind; [|intros ?]
    | apply only_reads_try_catch; [|intros ?]
    | apply only_reads_map_M; intros ?
    | apply only_reads_filter_M; intros ?
    | apply only_reads_modify; intros ?; reflexivity
    | match goal with
      | |- only_reads (if ?b then _ else _) => destruct b
      | |- only_reads (match ?x with _ => _ end) => destruct x
      | |- only_reads (let (_, _) := ?x in _) => destruct x
      end ].

Section ReadOperations.

Context {platform : Platform} {remote_end : Remote}.

Lemma only_reads_apiRequest_start endpoint :
  only_reads (apiRequest_start endpoint GET None).
Proof. unfold apiRequest_start, getApiBase. cbn [is_get]. repeat only_reads_step. Qed.

Lemma only_reads_json r : only_reads (json r).
Proof. unfold json, read_body. repeat only_reads_step. Qed.

Lemma only_reads_getFileContent_start path : only_reads (getFileContent_start path).
Proof.
  unfold getFileContent_start, getRepoPath.
  repeat first [apply only_reads_apiRequest_start | only_reads_step].
Qed.

Lemma only_reads_getFileContent_finish o : only_reads (getFileContent_finish o).
Proof.
  unfold getFileContent_finish, await, decode_property.
  repeat first [apply only_reads_json | only_reads_step].
Qed.

(** The reads of the repository and the status check send GET requests
    only, and call no [setData]: whatever they find, they write
    nothing, neither to the repository nor to a module. *)
Theorem reads_send_only_reads dataModules :
  (forall path, only_reads (getFileContent path))
  /\ only_reads (checkSyncStatus dataModules)
  /\ (forall path, only_reads (listFiles path))
  /\ only_reads getSyncFiles
  /\ only_reads getRepoInfo
  /\ only_reads checkRepositoryExists
  /\ (forall module, only_reads (hasDataChanged module)).
Proof.
  assert (Hl : forall path, only_reads (listFiles path)).
  { intros path. unfold listFiles, contents_endpoint, getRepoPath, apiRequest, await, git_file.
    repeat first [apply only_reads_apiRequest_start | apply only_reads_json
                 | only_reads_step]. }
  split.
  { intros path. unfold getFileContent. apply only_reads_bind;
      [apply only_reads_getFileContent_start|]. intros o.
    apply only_reads_getFileContent_finish. }
  split.
  { unfold checkSyncStatus, check_start, check_finish, settled, getLocalDataHash,
      callGetData.
    repeat first [apply only_reads_getFileContent_start
                 | apply only_reads_getFileContent_finish | only_reads_step]. }
  split; [exact Hl|]. split.
  { unfold getSyncFiles, name_starts_with.
    apply only_reads_try_catch; [|intros; apply only_reads_ret].
    apply only_reads_bind; [apply Hl|]. intros files. repeat only_reads_step. }
  split.
  { unfold getRepoInfo, getRepoPath, apiRequest, await.
    repeat first [apply only_reads_apiRequest_start | apply only_reads_json
                 | only_reads_step]. }
  split.
  { unfold checkRepositoryExists, apiRequest, await.
    repeat first [apply only_reads_apiRequest_start | only_reads_step]. }
  intros module. unfold hasDataChanged, getLocalDataHash, callGetData, hashCache_set.
  repeat only_reads_step.
Qed.

End ReadOperations.

(** ** The end of a cache entry *)

Section Expiry.

Context {platform : Platform} {remote_end : Remote}.

Lemma timers_keep_none (due : list (Z * jsstring)) :
  forall (m : gmap jsstring Promise) k,
    m !! k = None -> fold_left (fun m '(_, k) => delete k m) due m !! k = None.
Proof.
  induction due as [|[t k'] due IH]; intros m k H; cbn [fold_left]; [exact H|].
  apply IH. apply lookup_delete_None. now right.
Qed.

Lemma timers_delete (due : list (Z * jsstring)) :
  forall (m : gmap jsstring Promise) d k,
    (d, k) ∈ due -> fold_left (fun m '(_, k) => delete k m) due m !! k = None.
Proof.
  induction due as [|[t k'] due IH]; intros m d k H; [inversion H|].
  cbn [fold_left]. apply elem_of_cons in H. destruct H as [[= <- <-] | H].
  - apply timers_keep_none, lookup_delete_eq.
  - now apply (IH _ d).
Qed.

Lemma expiring_advance k d t w :
  expiring k d w ->
  expiring k d (snd (advance_to t w))
  /\ (d <= Z.max (now w) t -> requestCache (snd (advance_to t w)) !! k = None).
Proof.
  intros H. cbn. set (t' := Z.max (now w) t).
  destruct H as [H | H].
  - destruct (Z.leb_spec d t') as [Hd|Hd].
    + assert (N : fold_left (fun m '(_, k0) => delete k0 m)
                    (List.filter (fun '(d0, _) => d0 <=? t') (timers w)) (requestCache w)
                  !! k = None).
      { apply (timers_delete _ _ d). apply list_elem_of_In, filter_In.
        split; [now apply list_elem_of_In|]. now apply Z.leb_le. }
      split; [now right|auto].
    + split; [|lia]. left. apply list_elem_of_In, filter_In.
      split; [now apply list_elem_of_In|]. apply negb_true_iff, Z.leb_gt. lia.
  - assert (N := timers_keep_none
                   (List.filter (fun '(d0, _) => d0 <=? t') (timers w)) _ k H).
    split; [now right|auto].
Qed.

(** A read puts its request into the cache for five seconds: a read of
    the same file five seconds or more after it is not answered from
    the cache, and goes to the repository again. *)
Theorem cache_entry_expires path w c ms :
  config w = Some c ->
  requestCache w !! cache_key (read_request c path) = None ->
  CACHE_TIMEOUT <= ms ->
  let w1 := snd (getFileContent path w) in
  let w2 := snd (sleep ms w1) in
  requestCache w2 !! cache_key (read_request c path) = None
  /\ trace (snd (getFileContent path w2))
     = trace w ++ [EvFetch (read_request c path); EvFetch (read_request c path)].
Proof.
  intros Hc Hk Hms w1 w2.
  set (req := read_request c path) in *. set (key := cache_key req) in *.
  set (p := promise_of w req). set (w0 := launched w req).
  assert (H0 : expiring key (now w + CACHE_TIMEOUT) w0).
  { left. cbn. apply elem_of_app. right. apply elem_of_cons. now left. }
  destruct (expiring_advance key _ (settleAt p) w0 H0) as [HA _].
  fold (awaited p w0) in HA.
  assert (H1 : expiring key (now w + CACHE_TIMEOUT) w1 /\ now w <= now w1
               /\ config w1 = Some c
               /\ trace w1 = trace w ++ [EvFetch req]).
  { unfold w1. rewrite (getFileContent_fresh path w c Hc Hk), getFileContent_finish_eq.
    fold req. fold p. fold w0.
    assert (N : now w <= now (awaited p w0)) by (cbn; lia).
    assert (C : config (awaited p w0) = Some c) by exact Hc.
    assert (T : trace (awaited p w0) = trace w ++ [EvFetch req]) by reflexivity.
    destruct (outcome p) as [r|]; [|auto].
    destruct (ok r); [|auto].
    destruct (bool_decide _); auto. }
  destruct H1 as (HE & HN & Hc1 & HT).
  assert (S : sleep ms w1 = advance_to (now w1 + ms) w1) by reflexivity.
  destruct (expiring_advance key _ (now w1 + ms) w1 HE) as [_ HX].
  assert (K2 : requestCache w2 !! key = None).
  { unfold w2. rewrite S. apply HX. unfold CACHE_TIMEOUT in *. lia. }
  split; [exact K2|].
  assert (Hc2 : config w2 = Some c) by exact Hc1.
  rewrite (getFileContent_fresh path w2 c Hc2 K2).
  destruct (getFileContent_finish_spec
              (Some (promise_of w2 (read_request c path)))
              (launched w2 (read_request c path)))
    as (f & w3 & -> & _ & T & _).
  cbn [snd]. rewrite T. cbn [launched trace].
  assert (T2 : trace w2 = trace w1) by reflexivity.
  rewrite T2, HT, <- app_assoc. reflexivity.
Qed.

End Expiry.

(** ** Runs on the reference platform *)

Import Reference Scenario.

Lemma wf_configured {remote_end : Remote} c st : wf (configured c st).
Proof.
  split; cbn.
  - intros i Hi. inversion Hi.
  - intros k p r Hp. rewrite lookup_empty in Hp. discriminate.
Defined.

Lemma run_eq {remote_end : Remote} {A} (m : M A) w r :
  result m w = r -> m w = (r, after m w).
Proof. unfold result, after. intros <-. now destruct (m w). Defined.

Lemma wf_no_cache {remote_end : Remote} w :
  requestCache w = ∅ -> forallb (fun i => Nat.ltb i (nextId w)) (bodyUsed w) = true -> wf w.
Proof.
  intros Hc Hu. split.
  - intros i Hi. rewrite forallb_forall in Hu. apply Nat.ltb_lt, Hu.
    now apply list_elem_of_In.
  - intros k p r Hp. rewrite Hc, lookup_empty in Hp. discriminate.
Defined.

(** C9, as stated, fails: [generateMD5] hands the SyntaxError of
    [JSON.parse] to its caller. *)
Lemma generateMD5_raises :
  result (generateMD5 (js "not json")) (fresh ∅ 0 empty_store) = Throw SyntaxError.
Proof. vm_compute. reflexivity. Qed.




(** C10 on gitee: the file of the bookmarks is in the repository, empty;
    the client finds no file, and its [deleteFile] reports success after
    one read, the file still there. *)
Lemma empty_file_is_no_file_witness :
  let w := configured gitee_config placeholder_store in
  let file := api_base gitee_config ++ js "/" ++ contents_path gitee_config sync_path in
  files (remote w) !! file = Some ([], 1)
  /\ result (getFileContent sync_path) w = Ok None
  /\ result (deleteFile sync_path (js "remove")) w = Ok true
  /\ methods (trace (after (deleteFile sync_path (js "remove")) w)) = [GET]
  /\ files (remote (after (deleteFile sync_path (js "remove")) w)) !! file = Some ([], 1).
Proof.
  intros w file.
  destruct (empty_file_is_no_file sync_path (js "remove") w gitee_saved
              (reply_or_nothing (fst (exchange (read_request gitee_saved sync_path) (remote w)))))
    as (H1 & H2 & H3 & H4).
  - vm_compute. reflexivity.
  - vm_compute. reflexivity.
  - vm_compute. reflexivity.
  - right. eexists. split; vm_compute; reflexivity.
  - unfold result, after. split; [vm_compute; reflexivity|].
    split; [exact H1|]. split; [exact H2|]. split.
    + rewrite H3. vm_compute. reflexivity.
    + rewrite H4. vm_compute. reflexivity.
Defined.

(** C4 on gitee, in front of the repository that accepts nothing but the
    placeholder: the three strategies are tried one after the other and
    the write fails. *)
Lemma gitee_creation_chain_witness :
  let w := configured gitee_config tight_store in
  result (createOrUpdateFile sync_path bookmarks_text (js "sync") VUndefined) w = Ok false
  /\ methods (trace (after (createOrUpdateFile sync_path bookmarks_text (js "sync") VUndefined) w))
     = [GET; POST; PUT; PUT; PUT].
Proof.
  intros w.
  destruct (gitee_creation_chain sync_path bookmarks_text (js "sync") VUndefined w
              gitee_saved bookmarks_encoded None (after (getFileContent sync_path) w))
    as (w' & E & T & _).
  - apply wf_configured.
  - vm_compute. reflexivity.
  - reflexivity.
  - reflexivity.
  - vm_compute. reflexivity.
  - apply run_eq. vm_compute. reflexivity.
  - reflexivity.
  - unfold result, after. rewrite E. cbn [fst snd]. split.
    + vm_compute. reflexivity.
    + rewrite T. vm_compute. reflexivity.
Defined.






(** ** The further properties on the reference platform *)


Lemma unconfigured_sends_nothing_witness :
  let w := fresh storage 1000 empty_store in
  syncModuleFromCloud bookmarksModule w = (Ok false, w)
  /\ deleteFile sync_path (js "remove") w = (Ok true, w).
Proof.
  intros w.
  destruct (unconfigured_sends_nothing defaultModules w eq_refl)
    as (_ & _ & Hd & _ & Hp & _).
  split; [apply Hp|apply Hd].
Defined.

Lemma saved_config_loads_witness :
  let w1 := fresh (localStorage (configured github_config empty_store)) 2000 empty_store in
  loadConfig w1 = (Ok (Some github_saved), set_config (Some github_saved) w1).
Proof.
  intros w1.
  apply (saved_config_loads (remote_end := repository) github_config
           (fresh (remote_end := repository) storage 1000 empty_store) w1).
  - vm_compute. reflexivity.
  - vm_compute. reflexivity.
  - intros H. vm_compute in H. discriminate H.
  - reflexivity.
Defined.


Lemma unreadable_module_is_skipped_witness :
  hasDataChanged bookmarksModule broken = (Ok false, broken)
  /\ syncModuleToCloud bookmarksModule broken = (Ok false, broken).
Proof.
  apply (unreadable_module_is_skipped bookmarksModule broken SyntaxError).
  vm_compute. reflexivity.
Defined.

Lemma autoSync_raises_witness :
  fst (autoSync defaultModules broken) = Throw SyntaxError
  /\ fst (initializeSync defaultModules broken) = Ok false.
Proof.
  destruct (autoSync_raises [tasksModule; habitsModule] bookmarksModule
              [calendarEventsModule; pomodoroModule; appSettingsModule]
              broken github_saved SyntaxError) as (H1 & _ & _ & H2).
  - vm_compute. reflexivity.
  - vm_compute. reflexivity.
  - repeat constructor; eexists; vm_compute; reflexivity.
  - vm_compute. reflexivity.
  - split; [exact H1|exact H2].
Defined.

Lemma push_records_baseline_witness :
  let w := configured github_config empty_store in
  result (syncModuleToCloud bookmarksModule) w = Ok true
  /\ localHashCache pushed
     = <[name bookmarksModule := VStr (generateDataHash bookmarks_value)]>
         (localHashCache w).
Proof.
  intros w.
  assert (Hr : result (syncModuleToCloud bookmarksModule) w = Ok true)
    by (vm_compute; reflexivity).
  split; [exact Hr|].
  destruct (push_records_baseline bookmarksModule w bookmarks_value)
    as (_ & _ & _ & H & _).
  - vm_compute. reflexivity.
  - apply (H Hr).
Defined.

Lemma repeated_read_is_null_witness :
  let w := configured gitee_config stocked_store in
  match result (getFileContent sync_path) w with
  | Ok (Some f) => file_content f = js "{}"
  | _ => False
  end
  /\ result (getFileContent sync_path) (after (getFileContent sync_path) w) = Ok None.
Proof.
  intros w. split; [vm_compute; reflexivity|].
  destruct (repeated_read_is_null sync_path w gitee_saved) as (w2 & E & _).
  - vm_compute. reflexivity.
  - eexists. vm_compute. reflexivity.
  - unfold result, after. now rewrite E.
Defined.

Lemma read_after_clearCache_witness :
  methods (trace (after (getFileContent sync_path) (after clearCache pushed)))
  = [GET; PUT; GET].
Proof.
  destruct (read_after_clearCache sync_path pushed github_saved) as (_ & _ & T & _).
  - vm_compute. reflexivity.
  - unfold after. rewrite T. vm_compute. reflexivity.
Defined.

Lemma cache_entry_expires_witness :
  let w := configured gitee_config stocked_store in
  methods (trace (after (getFileContent sync_path)
                    (after (sleep 5000) (after (getFileContent sync_path) w))))
  = [GET; GET].
Proof.
  intros w.
  destruct (cache_entry_expires sync_path w gitee_saved 5000) as (_ & T).
  - vm_compute. reflexivity.
  - vm_compute. reflexivity.
  - vm_compute. discriminate.
  - unfold after. rewrite T. vm_compute. reflexivity.
Defined.

Lemma pull_takes_file_hash_witness :
  let w := configured gitee_config forged_store in
  result (syncModuleFromCloud bookmarksModule) w = Ok true
  /\ hashCache_get (name bookmarksModule) (after (syncModuleFromCloud bookmarksModule) w)
     = VStr (js "bogus")
  /\ generateDataHash (VObj [(js "bookmarks", VArr []); (js "groups", VArr [])])
     <> js "bogus".
Proof.
  intros w.
  pose (reply := reply_or_nothing
                   (fst (exchange (read_request gitee_saved sync_path) (remote w)))).
  pose (sha := match file_of_body (reply_text reply) with
               | Some f => file_sha f
               | None => VUndefined
               end).
  pose (fields := [(js "data", VObj [(js "bookmarks", VArr []); (js "groups", VArr [])]);
                   (js "hash", VStr (js "bogus"))]).
  destruct (pull_takes_file_hash bookmarksModule w gitee_saved reply forged_text sha fields)
    as (w' & E & _ & S).
  - vm_compute. reflexivity.
  - apply wf_configured.
  - vm_compute. reflexivity.
  - vm_compute. reflexivity.
  - vm_compute. reflexivity.
  - vm_compute. reflexivity.
  - vm_compute. reflexivity.
  - unfold result, after. rewrite E. cbn [fst snd].
    split; [vm_compute; reflexivity|]. split.
    + destruct (S (match setData bookmarksModule (property (VObj fields) (js "data"))
                           (localStorage w) with
                   | Ok s => s
                   | Throw _ => ∅
                   end)) as [_ H]; [vm_compute; reflexivity|].
      unfold hashCache_get. rewrite H, lookup_insert_eq. reflexivity.
    + intros H. vm_compute in H. discriminate H.
Defined.

Lemma deleteFile_sends_token_witness :
  let w := configured gitee_config stocked_store in
  let file := api_base gitee_config ++ js "/" ++ contents_path gitee_config sync_path in
  files (remote w) !! file = Some (js "e30=", 1)
  /\ result (deleteFile sync_path (js "remove")) w = Ok true
  /\ methods (trace (after (deleteFile sync_path (js "remove")) w)) = [GET; DELETE]
  /\ files (remote (after (deleteFile sync_path (js "remove")) w)) !! file = None.
Proof.
  intros w file. split; [vm_compute; reflexivity|].
  edestruct (deleteFile_sends_token sync_path (js "remove") w gitee_saved)
    as (w' & E & T & R).
  - vm_compute. reflexivity.
  - apply wf_configured.
  - vm_compute. reflexivity.
  - vm_compute. reflexivity.
  - vm_compute. reflexivity.
  - vm_compute. reflexivity.
  - unfold result, after. rewrite E. cbn [fst snd].
    split; [vm_compute; reflexivity|]. split.
    + rewrite T. vm_compute. reflexivity.
    + rewrite R. vm_compute. reflexivity.
Defined.

Lemma listFiles_lists_witness :
  let w := configured github_config empty_store in
  result (listFiles []) w = Ok []
  /\ methods (trace (after (listFiles []) w)) = [GET].
Proof.
  intros w.
  destruct (listFiles_lists [] w github_saved) as (H & T).
  - vm_compute. reflexivity.
  - apply wf_configured.
  - vm_compute. reflexivity.
  - unfold result, after. split.
    + rewrite H. vm_compute. reflexivity.
    + rewrite T. vm_compute. reflexivity.
Defined.

Lemma repository_check_witness :
  let w := configured github_config empty_store in
  result checkRepositoryExists w = Ok false
  /\ methods (trace (after checkRepositoryExists w)) = [GET].
Proof.
  intros w.
  destruct (repository_check w github_saved) as (H & T & _).
  - vm_compute. reflexivity.
  - apply wf_configured.
  - vm_compute. reflexivity.
  - unfold result, after. split.
    + rewrite H. vm_compute. reflexivity.
    + rewrite T. vm_compute. reflexivity.
Defined.

Lemma getDataModule_finds_witness :
  getDataModule defaultModules (js "bookmarks") = Some bookmarksModule
  /\ getDataModule defaultModules (js "notes") = None.
Proof.
  destruct (getDataModule_finds defaultModules bookmarksModule) as (H & _ & N).
  - apply elem_of_cons; right. apply elem_of_cons; right. apply elem_of_cons. now left.
  - split.
    + apply H. apply (bool_decide_unpack _). vm_compute. exact I.
    + apply N. apply (bool_decide_unpack _). vm_compute. exact I.
Defined.

Lemma registry_reads_back_witness :
  exists s',
    setData bookmarksModule bookmarks_value ∅ = Ok s'
    /\ getData bookmarksModule 0 s' = Ok bookmarks_value.
Proof.
  destruct (registry_reads_back 0 ∅ bookmarks_value eq_refl) as (_ & H & _).
  destruct H as (s' & Hs & Hg).
  - split; [intros H; vm_compute in H; discriminate H|vm_compute; reflexivity].
  - exists s'. split; [exact Hs|]. rewrite Hg. vm_compute. reflexivity.
Defined.
